(** * Forward inference of a fixed-topology convolutional network

    A shallow embedding of [src/main.cu], which holds two variants of the
    program: the CUDA variant (unroll + tiled matrix multiply convolution,
    pooling kernel, fused ReLU) and the sequential reference variant
    (direct convolution, separate ReLU passes).

    Conventions of the embedding.
    - [int] values are integers of [Z].  Signed overflow is undefined in C:
      the products from which [convLayer_forward] and [forward_operation]
      compute the sizes of their buffers go through [int_prod], which is
      [None] as soon as a partial product leaves the range of [int]; every
      offset computed inside an operator is bounded by the length of a
      buffer.  C's [/] and [%] on [int] are [Z.quot] and [Z.rem].
    - [float] is a carrier [F] with the operations of the class [Scalar].
      Statements that need no algebraic law hold for any carrier, and so for
      IEEE 754 single precision; the others name the laws they use
      ([ScalarField] for exact arithmetic, [ScalarOrder] for a comparison
      that is a strict total order).  The executable instances are [Qc], the rationals in canonical
      form, and [binary32], single precision with rounding to nearest.
    - A buffer ([float *]) is a [list F]; a read or write outside the buffer
      is undefined behaviour in C and [None] here.
    - A loop [for (const auto k : range(0, n))] or [for (k = 0; k < n; k++)]
      is [for_ (range 0 n)], threading the state it mutates. *)

From Stdlib Require Import ZArith List Lia Bool Ring Field QArith Qcanon.
From Stdlib Require Floats.SpecFloat.
From stdpp Require Import base option list strings gmap.

Set Default Proof Using "Type*".
Local Open Scope Z_scope.

(** ** Scalars *)

(** The arithmetic the program performs on [float]: the constants [0] and
    [1.0f], [+], [*], [/], the comparison [<], and the conversion from
    [int].  Negation, subtraction and inverse are not used by the program;
    they serve to state the ring laws. *)
Class Scalar (F : Type) : Type := {
  f0 : F;
  f1 : F;
  fadd : F → F → F;
  fmul : F → F → F;
  fsub : F → F → F;
  fopp : F → F;
  fdiv : F → F → F;
  finv : F → F;
  flt : F → F → bool;
  of_int : Z → F
}.

(** Exact arithmetic: a commutative ring in which division is
    multiplication by the inverse. *)
Class ScalarField (F : Type) `{Scalar F} : Prop := {
  scalar_ring : ring_theory f0 f1 fadd fmul fsub fopp (@eq F);
  scalar_div : ∀ a b : F, fdiv a b = fmul a (finv b)
}.

(** [<] is a strict total order. *)
Class ScalarOrder (F : Type) `{Scalar F} : Prop := {
  flt_irrefl : ∀ a : F, flt a a = false;
  flt_trans : ∀ a b c : F, flt a b = true → flt b c = true → flt a c = true;
  flt_connex : ∀ a b : F, flt a b = false → flt b a = false → a = b
}.

Definition Qc_ltb (a b : Qc) : bool :=
  match (a ?= b)%Qc with Lt => true | _ => false end.

#[export] Instance Qc_scalar : Scalar Qc := {|
  f0 := Q2Qc 0;
  f1 := Q2Qc 1;
  fadd := Qcplus;
  fmul := Qcmult;
  fsub := Qcminus;
  fopp := Qcopp;
  fdiv := Qcdiv;
  finv := Qcinv;
  flt := Qc_ltb;
  of_int := λ z, Q2Qc (inject_Z z)
|}.

(** Equality of rationals in canonical form is decidable by computation. *)
#[export] Instance Qc_eq_decision : EqDecision Qc := Qc_eq_dec.

(** [float] itself: IEEE 754 single precision (24 bits of precision,
    exponents below 128), every operation rounded to nearest, ties to even,
    with signed zeros, infinities and NaN.  [(float) z] rounds the integer
    [z]; [<] is false as soon as an operand is NaN. *)
Definition binary32 : Type := SpecFloat.spec_float.

Definition b32_of_Z (z : Z) : binary32 :=
  SpecFloat.binary_normalize 24 128 z 0 false.

#[export] Instance binary32_scalar : Scalar binary32 := {|
  f0 := SpecFloat.S754_zero false;
  f1 := b32_of_Z 1;
  fadd := SpecFloat.SFadd 24 128;
  fmul := SpecFloat.SFmul 24 128;
  fsub := SpecFloat.SFsub 24 128;
  fopp := SpecFloat.SFopp;
  fdiv := SpecFloat.SFdiv 24 128;
  finv := SpecFloat.SFdiv 24 128 (b32_of_Z 1);
  flt := SpecFloat.SFltb;
  of_int := b32_of_Z
|}.

#[export] Instance binary32_eq_decision : EqDecision binary32.
Proof. solve_decision. Defined.

(** [2^e] as a [float], for [-126 <= e <= 127]. *)
Definition b32_pow2 (e : Z) : binary32 :=
  SpecFloat.S754_finite false 8388608 (e - 23).

(** ** Buffers, loops and shapes *)

Section Buffers.
Context {A : Type}.

(** [X[i]] as an r-value. *)
Definition rd (X : list A) (i : Z) : option A :=
  if i <? 0 then None else X !! Z.to_nat i.

(** [Y[i] = v]. *)
Definition wr (Y : list A) (i : Z) (v : A) : option (list A) :=
  if (0 <=? i) && (i <? Z.of_nat (length Y))
  then Some (<[Z.to_nat i := v]> Y) else None.

(** [memcpy(dst, src, n * sizeof(float))] and [cudaMemcpy] alike: the
    first [n] cells of [src] overwrite the first [n] cells of [dst]. *)
Definition memcpy (dst src : list A) (n : Z) : option (list A) :=
  if (0 <=? n) && (n <=? Z.of_nat (length src)) && (n <=? Z.of_nat (length dst))
  then Some (take (Z.to_nat n) src ++ drop (Z.to_nat n) dst) else None.
End Buffers.

(** Modelled from the spec: [range.hpp] is not among the sources;
    [range(0, n)] enumerates [0, 1, ..., n-1] in ascending order (the loops
    of the spec's direct form run over [p=0..K-1] and the like), and is empty
    when [n <= 0]. *)
Definition range (lo hi : Z) : list Z := seqZ lo (hi - lo).
Global Arguments range : simpl never.

(** A [for] loop over [l] whose body may run into undefined behaviour. *)
Fixpoint for_ {S : Type} (l : list Z) (body : Z → S → option S) (s : S) : option S :=
  match l with
  | [] => Some s
  | k :: l' => s' ← body k s; for_ l' body s'
  end.

(** The range of [int]. *)
Definition INT_MAX : Z := 2147483647.
Definition INT_MIN : Z := -2147483648.

(** An [int] result: undefined when it overflows. *)
Definition int (z : Z) : option Z :=
  if (INT_MIN <=? z) && (z <=? INT_MAX) then Some z else None.

(** The [int] product [a * b * c * ...], evaluated from the left as C
    does. *)
Fixpoint int_prod_from (acc : Z) (l : list Z) : option Z :=
  match l with
  | [] => Some acc
  | b :: l' => r ← int (acc * b); int_prod_from r l'
  end.
Definition int_prod (l : list Z) : option Z :=
  match l with
  | [] => Some 1
  | a :: l' => int_prod_from a l'
  end.
Global Arguments int : simpl never.
Global Arguments int_prod : simpl never.

(** [int dims[4]] and [int dims[2]]. *)
Record dims4 : Type := Dims4 { d0 : Z; d1 : Z; d2 : Z; d3 : Z }.
Record dims2 : Type := Dims2 { e0 : Z; e1 : Z }.

Definition NUM_ROWS : Z := 28.
Definition NUM_COLS : Z := 28.
Definition NUM_CHANNELS : Z := 1.
Definition NUM_DIGITS : Z := 10.
Definition TILE_WIDTH : Z := 16.

(** The globals [xdims] and [rdims] once [main] has stored the batch size
    in their first cell. *)
Definition xdims (FLAGS_batch_size : Z) : dims4 :=
  Dims4 FLAGS_batch_size NUM_ROWS NUM_COLS NUM_CHANNELS.
Definition rdims (FLAGS_batch_size : Z) : dims2 :=
  Dims2 FLAGS_batch_size NUM_DIGITS.

Definition conv1dims : dims4 := Dims4 5 5 1 32.
Definition conv2dims : dims4 := Dims4 5 5 32 64.
Definition fc1dims : dims2 := Dims2 1024 128.
Definition fc2dims : dims2 := Dims2 128 10.

(** The shapes that [forward_operation] derives before it allocates
    anything; the two variants compute them with the same expressions. *)
Record shapes : Type := Shapes {
  adims : dims4;
  bdims : dims4;
  cdims : dims4;
  ddims : dims4;
  ddims2 : dims2;
  edims : dims2;
  fdims : dims2
}.

Definition pool_size : Z := 2.

Definition forward_shapes (xdims conv1dims conv2dims : dims4)
    (fc1dims fc2dims : dims2) : shapes :=
  let adims := Dims4 (d0 xdims) (d1 xdims - d0 conv1dims + 1)
                     (d2 xdims - d1 conv1dims + 1) (d3 conv1dims) in
  let bdims := Dims4 (d0 adims) (d1 adims ÷ pool_size) (d2 adims ÷ pool_size)
                     (d3 adims) in
  let cdims := Dims4 (d0 bdims) (d1 bdims - d0 conv2dims + 1)
                     (d2 bdims - d1 conv2dims + 1) (d3 conv2dims) in
  let ddims := Dims4 (d0 cdims) (d1 cdims ÷ pool_size) (d2 cdims ÷ pool_size)
                     (d3 cdims) in
  let ddims2 := Dims2 (d0 ddims) (d1 ddims * d2 ddims * d3 ddims) in
  let edims := Dims2 (d0 ddims) (e1 fc1dims) in
  let fdims := Dims2 (e0 edims) (e1 fc2dims) in
  Shapes adims bdims cdims ddims ddims2 edims fdims.

(** Modelled from the spec: [utils.hpp] is not among the sources;
    [zeros<T>(dims)] and [calloc] give a zero-initialized buffer with one
    cell per element of the shape (the spec's "zero-initialized output"). *)
Definition zeros {F : Type} `{Scalar F} (n : Z) : list F :=
  replicate (Z.to_nat n) f0.

(** ** The sequential reference variant *)

Module Sequential.
Section Ops.
Context {F : Type} `{Scalar F}.

Definition conv_forward_valid (X : list F) (xdims : dims4) (W : list F)
    (wdims : dims4) (Y : list F) (ydims : dims4) : option (list F) :=
  let filter_h := d0 wdims in
  let filter_w := d1 wdims in
  let in_channel := d2 wdims in
  for_ (range 0 (d0 ydims)) (λ i,
   for_ (range 0 (d3 ydims)) (λ m,
    for_ (range 0 (d2 ydims)) (λ w,
     for_ (range 0 (d1 ydims)) (λ h,
      for_ (range 0 filter_h) (λ p,
       for_ (range 0 filter_w) (λ q,
        for_ (range 0 in_channel) (λ c Y,
          let yoffset := ((i * d1 ydims + h) * d2 ydims + w) * d3 ydims + m in
          let xoffset := i * d1 xdims * d2 xdims * d3 xdims
                         + (h + p) * d2 xdims * d3 xdims
                         + (w + q) * d3 xdims + c in
          let woffset := p * d1 wdims * d2 wdims * d3 wdims
                         + q * d2 wdims * d3 wdims + c * d3 wdims + m in
          x ← rd X xoffset;
          wv ← rd W woffset;
          y ← rd Y yoffset;
          wr Y yoffset (fadd y (fmul x wv))))))))) Y.

Definition relu4 (X : list F) (xdims : dims4) : option (list F) :=
  for_ (range 0 (d0 xdims * d1 xdims * d2 xdims * d3 xdims)) (λ i X,
    x ← rd X i;
    wr X i (if flt x f0 then f0 else x)) X.

Definition relu2 (X : list F) (xdims : dims2) : option (list F) :=
  for_ (range 0 (e0 xdims * e1 xdims)) (λ i X,
    x ← rd X i;
    wr X i (if flt x f0 then f0 else x)) X.

Definition average_pool (X : list F) (xdims : dims4) (pool_size : Z)
    (Y : list F) (ydims : dims4) : option (list F) :=
  for_ (range 0 (d0 ydims)) (λ i,
   for_ (range 0 (d3 ydims)) (λ m,
    for_ (range 0 (d2 ydims)) (λ w,
     for_ (range 0 (d1 ydims)) (λ h,
      for_ (range 0 pool_size) (λ p,
       for_ (range 0 pool_size) (λ q Y,
         let yoffset := ((i * d1 ydims + h) * d2 ydims + w) * d3 ydims + m in
         let xoffset := i * d1 xdims * d2 xdims * d3 xdims
                        + (pool_size * h + p) * d2 xdims * d3 xdims
                        + (pool_size * w + q) * d3 xdims + m in
         x ← rd X xoffset;
         y ← rd Y yoffset;
         wr Y yoffset
            (fadd y (fdiv x (fmul (fmul f1 (of_int pool_size))
                                  (of_int pool_size)))))))))) Y.

Definition fully_forward (X : list F) (xdims : dims2) (W : list F)
    (wdims : dims2) (Y : list F) (ydims : dims2) : option (list F) :=
  for_ (range 0 (e0 xdims)) (λ i,
   for_ (range 0 (e1 wdims)) (λ j Y,
     sum ← for_ (range 0 (e1 xdims)) (λ k sum,
              x ← rd X (i * e1 xdims + k);
              wv ← rd W (k * e1 wdims + j);
              Some (fadd sum (fmul x wv))) f0;
     wr Y (i * e1 wdims + j) sum)) Y.

Definition argmax (X : list F) (xdims : dims2) (Y : list Z) : option (list Z) :=
  for_ (range 0 (e0 xdims)) (λ i Y,
    let max_idx := 0 in
    max ← rd X (i * e1 xdims);
    r ← for_ (range 0 (e1 xdims)) (λ j '(max_idx, max),
           elem ← rd X (i * e1 xdims + j);
           if flt max elem then Some (j, elem) else Some (max_idx, max))
         (max_idx, max);
    wr Y i (fst r)) Y.

(** [forward_operation] up to the score matrix [f] that it hands to
    [argmax].  The element counts passed to [calloc] are [int] products. *)
Definition forward_scores (FLAGS_batch_size : Z)
    (x conv1 conv2 fc1 fc2 : list F) : option (list F) :=
  let xdims := xdims FLAGS_batch_size in
  let s := forward_shapes xdims conv1dims conv2dims fc1dims fc2dims in
  a_size ←
    int_prod [d0 (adims s); d1 (adims s); d2 (adims s); d3 (adims s)];
  let a := zeros a_size in
  a ← conv_forward_valid x xdims conv1 conv1dims a (adims s);
  a ← relu4 a (adims s);
  b_size ←
    int_prod [d0 (bdims s); d1 (bdims s); d2 (bdims s); d3 (bdims s)];
  let b := zeros b_size in
  b ← average_pool a (adims s) pool_size b (bdims s);
  c_size ←
    int_prod [d0 (cdims s); d1 (cdims s); d2 (cdims s); d3 (cdims s)];
  let c := zeros c_size in
  c ← conv_forward_valid b (bdims s) conv2 conv2dims c (cdims s);
  c ← relu4 c (cdims s);
  d_size ←
    int_prod [d0 (ddims s); d1 (ddims s); d2 (ddims s); d3 (ddims s)];
  let d := zeros d_size in
  d ← average_pool c (cdims s) pool_size d (ddims s);
  e_size ← int_prod [e0 (edims s); e1 (edims s)];
  let e := zeros e_size in
  e ← fully_forward d (ddims2 s) fc1 fc1dims e (edims s);
  e ← relu2 e (edims s);
  f_size ← int_prod [e0 (fdims s); e1 (fdims s)];
  let f := zeros f_size in
  fully_forward e (edims s) fc2 fc2dims f (fdims s).

Definition forward_operation (FLAGS_batch_size : Z)
    (x conv1 conv2 fc1 fc2 : list F) (out : list Z) : option (list Z) :=
  f ← forward_scores FLAGS_batch_size x conv1 conv2 fc1 fc2;
  argmax f (fdims (forward_shapes (xdims FLAGS_batch_size) conv1dims
                                  conv2dims fc1dims fc2dims)) out.
End Ops.
End Sequential.

(** ** The CUDA variant *)

(** [dim3], also the type of [blockIdx] and [threadIdx]. *)
Record dim3 : Type := Dim3 { dx : Z; dy : Z; dz : Z }.

(** Every index of a grid or of a block, [x] varying fastest. *)
Definition forall_idx {S : Type} (d : dim3) (body : dim3 → S → option S)
    : S → option S :=
  for_ (range 0 (dz d)) (λ z,
   for_ (range 0 (dy d)) (λ y,
    for_ (range 0 (dx d)) (λ x, body (Dim3 x y z)))).

(** [kernel<<<gridDim, blockDim>>>] for a kernel without barriers, whose
    threads write disjoint cells and read none that another writes: the
    threads are run one after the other. *)
Definition launch {S : Type} (gridDim blockDim : dim3)
    (kernel : dim3 → dim3 → S → option S) : S → option S :=
  forall_idx gridDim (λ blockIdx,
   forall_idx blockDim (λ threadIdx, kernel blockIdx threadIdx)).

(** [for (k = lo; k < hi; k += step)] for [step > 0]: the values of [k]. *)
Definition range_by (lo hi step : Z) : list Z :=
  (λ a, lo + a * step) <$> range 0 ((hi - lo + step - 1) `div` step).

(** [ceil((1.0 * a) / b)] for [b > 0]. *)
Definition ceil_ratio (a b : Z) : Z := - ((- a) `div` b).

(** Uninitialized storage ([malloc], [cudaMalloc]): [n] cells whose
    contents are whatever [junk] says. *)
Definition malloc {F : Type} (junk : Z → F) (n : Z) : list F :=
  junk <$> seqZ 0 n.

Module Cuda.
Section Ops.
Context {F : Type} `{Scalar F}.

(** The test-data file as [loadData] sees it through the HDF5 calls: the
    extents of the dataset [/x] and the contents of [/x] and [/y]. *)
Record testdata : Type := TestData {
  input_dims : list Z;
  x_data : list F;
  y_data : list F
}.

(** What [loadData] leaves behind: the caller's two buffers and the
    datasets read so far, latest first. *)
Record loaded : Type := Loaded {
  x_buf : list F;
  y_buf : list F;
  reads : list string
}.

(** [H5Dread] of a whole dataset into [buf]. *)
Definition H5Dread (data buf : list F) : option (list F) :=
  memcpy buf data (Z.of_nat (length data)).

(** [loadData] returns its [int] result and the buffers; [None] is the
    failed [assert] or a read beyond a buffer.  [input_dims[0]] is an
    unsigned 64-bit [hsize_t], to which the [int] batch size is converted
    for the comparison. *)
Definition loadData (file : testdata) (FLAGS_batch_size : Z)
    (x y : list F) : option (Z * loaded) :=
  let xndims := Z.of_nat (length (input_dims file)) in
  if negb (xndims =? 4) then None else
  dim0 ← input_dims file !! 0%nat;
  if negb (dim0 =? FLAGS_batch_size `mod` 2 ^ 64)
  then Some (1, Loaded x y [])
  else
    x ← H5Dread (x_data file) x;
    y ← H5Dread (y_data file) y;
    Some (0, Loaded x y ["/y"; "/x"]%string).

(** [matrixMultiplyShared], one block at a time.  Between two barriers
    every thread writes only its own slot of [Ads] and [Bds], or only its
    own register [Cval], so the threads of the block are run one after the
    other within each interval.  [Ads] and [Bds] are the
    [TILE_WIDTH]×[TILE_WIDTH] arrays in row-major order; [Cval] holds one
    register per thread; [C] is a pointer [C_base] cells into its buffer.

    First, from the top of the phase loop to the first barrier: the loads of
    one thread. *)
Definition matrixMultiplyShared_load (blockIdx blockDim threadIdx : dim3)
    (A B : list F) (numAColumns numBRows numBColumns numCRows numCColumns : Z)
    (phase : Z) (sh : list F * list F) : option (list F * list F) :=
  let '(Ads, Bds) := sh in
  let CRow := dy blockIdx * dy blockDim + dy threadIdx in
  let CCol := dx blockIdx * dx blockDim + dx threadIdx in
  Ads ← (if (CRow <? numCRows)
            && (dx threadIdx + phase * TILE_WIDTH <? numAColumns)
         then a ← rd A (CRow * numAColumns + dx threadIdx
                        + phase * TILE_WIDTH);
              wr Ads (dy threadIdx * TILE_WIDTH + dx threadIdx) a
         else Some Ads);
  Bds ← (if (CCol <? numCColumns)
            && (dy threadIdx + phase * TILE_WIDTH <? numBRows)
         then b ← rd B ((dy threadIdx + phase * TILE_WIDTH) * numBColumns
                        + CCol);
              wr Bds (dy threadIdx * TILE_WIDTH + dx threadIdx) b
         else Some Bds);
  Some (Ads, Bds).

(** Between the two barriers: the partial dot product of one thread. *)
Definition matrixMultiplyShared_dot (blockDim threadIdx : dim3)
    (Ads Bds : list F) (numAColumns numBRows : Z) (phase : Z)
    (Cval : list F) : option (list F) :=
  for_ (range 0 TILE_WIDTH) (λ dot Cval,
    if (dot + phase * TILE_WIDTH <? numAColumns)
       && (dot + phase * TILE_WIDTH <? numBRows)
    then
      let r := dy threadIdx * dx blockDim + dx threadIdx in
      c ← rd Cval r;
      a ← rd Ads (dy threadIdx * TILE_WIDTH + dot);
      b ← rd Bds (dot * TILE_WIDTH + dx threadIdx);
      wr Cval r (fadd c (fmul a b))
    else Some Cval) Cval.

Definition matrixMultiplyShared_phase (blockIdx blockDim : dim3)
    (A B : list F) (numAColumns numBRows numBColumns numCRows numCColumns : Z)
    (phase : Z) (st : list F * list F * list F)
    : option (list F * list F * list F) :=
  let '(Ads, Bds, Cval) := st in
  sh ← forall_idx blockDim (λ threadIdx,
         matrixMultiplyShared_load blockIdx blockDim threadIdx A B numAColumns
           numBRows numBColumns numCRows numCColumns phase) (Ads, Bds);
  (* __syncthreads() *)
  Cval ← forall_idx blockDim (λ threadIdx,
           matrixMultiplyShared_dot blockDim threadIdx (fst sh) (snd sh)
             numAColumns numBRows phase) Cval;
  (* __syncthreads() *)
  Some (fst sh, snd sh, Cval).

Definition matrixMultiplyShared_block (blockIdx blockDim : dim3)
    (shared : list F * list F) (A B : list F) (C_base : Z)
    (numARows numAColumns numBRows numBColumns numCRows numCColumns : Z)
    (C : list F) : option (list F) :=
  let Cval := replicate (Z.to_nat (dy blockDim * dx blockDim)) f0 in
  st ← for_ (range 0 ((numAColumns - 1) ÷ TILE_WIDTH + 1))
         (matrixMultiplyShared_phase blockIdx blockDim A B numAColumns
            numBRows numBColumns numCRows numCColumns)
         (fst shared, snd shared, Cval);
  forall_idx blockDim (λ threadIdx C,
    let CRow := dy blockIdx * dy blockDim + dy threadIdx in
    let CCol := dx blockIdx * dx blockDim + dx threadIdx in
    if (CRow <? numCRows) && (CCol <? numCColumns) then
      Cval ← rd (snd st) (dy threadIdx * dx blockDim + dx threadIdx);
      wr C (C_base + (CRow * numCColumns + CCol))
         (if flt Cval f0 then f0 else Cval)
    else Some C) C.

(** [matrixMultiplyShared<<<gridDim, blockDim>>>]; [shared blockIdx] is
    what the block finds in its shared memory. *)
Definition matrixMultiplyShared (gridDim blockDim : dim3)
    (shared : dim3 → list F * list F) (A B : list F) (C_base : Z)
    (numARows numAColumns numBRows numBColumns numCRows numCColumns : Z)
    (C : list F) : option (list F) :=
  forall_idx gridDim (λ blockIdx,
    matrixMultiplyShared_block blockIdx blockDim (shared blockIdx) A B C_base
      numARows numAColumns numBRows numBColumns numCRows numCColumns) C.

Definition unrollFilters (blockIdx threadIdx : dim3) (C M K : Z)
    (W W_unroll : list F) : option (list F) :=
  let m := dx threadIdx in
  let c := dx blockIdx in
  if (c <? C) && (m <? M) then
    for_ (range 0 K) (λ p,
     for_ (range 0 K) (λ q W_unroll,
       wv ← rd W (p * K * C * M + q * C * M + c * M + m);
       wr W_unroll (m * C * K * K + c * K * K + p * K + q) wv)) W_unroll
  else Some W_unroll.

Definition rerollOutput (blockIdx threadIdx : dim3) (M N H_out W_out : Z)
    (Y_unrolled Y : list F) : option (list F) :=
  let m := dx threadIdx in
  let n := dx blockIdx in
  if (m <? M) && (n <? N) then
    for_ (range 0 H_out) (λ h,
     for_ (range 0 W_out) (λ w Y,
       y ← rd Y_unrolled (n * M * H_out * W_out + m * H_out * W_out
                          + h * W_out + w);
       wr Y (((n * H_out + h) * W_out + w) * M + m) y)) Y
  else Some Y.

Definition unroll (C H W K n : Z) (X X_unroll : list F) (xdims : dims4)
    : option (list F) :=
  let H_out := H - K + 1 in
  let W_out := W - K + 1 in
  let W_unroll := C * K * K in
  let H_unroll := H_out * W_out in
  for_ (range 0 C) (λ c,
    let w_base := c * (K * K) in
    for_ (range 0 K) (λ p,
     for_ (range 0 K) (λ q,
      for_ (range 0 H_out) (λ h,
       for_ (range 0 W_out) (λ w X_unroll,
         let w_unroll := w_base + p * K + q in
         let h_unroll := h * W_out + w in
         let x_index := n * H * W * C + (h + p) * W * C + (w + q) * C + c in
         x ← rd X x_index;
         wr X_unroll (w_unroll * H_unroll + h_unroll) x))))) X_unroll.

(** [junk] fills the buffers that [malloc] and [cudaMalloc] return and
    [shared n blockIdx] the shared memory of a block of the [n]-th
    multiplication.  The extents, the element counts of the buffers and the
    offset of a sample in [device_Y_unrolled] are [int] values. *)
Definition convLayer_forward (junk : Z → F)
    (shared : Z → dim3 → list F * list F)
    (N M C H W K : Z) (X Mask Y : list F) (xdims ydims : dims4)
    : option (list F) :=
  W_out ← int (W - K + 1);
  H_out ← int (H - K + 1);
  W_unroll ← int_prod [C; K; K];
  H_unroll ← int_prod [H_out; W_out];
  X_unrolled_size ← int_prod [W_unroll; H_unroll];
  let X_unrolled := malloc junk X_unrolled_size in
  W_size ← int_prod [M; C; K; K];
  let device_W_unrolled := malloc junk W_size in
  let device_W := malloc junk W_size in
  let blockDimension1 := Dim3 M 1 1 in
  let gridDimension1 := Dim3 C 1 1 in
  device_W ← memcpy device_W Mask W_size;
  device_W_unrolled ←
    launch gridDimension1 blockDimension1
      (λ blockIdx threadIdx, unrollFilters blockIdx threadIdx C M K device_W)
      device_W_unrolled;
  let device_X_unrolled := malloc junk X_unrolled_size in
  Y_size ← int_prod [M; N; W_out; H_out];
  let device_Y_unrolled := malloc junk Y_size in
  let blockDimension2 := Dim3 TILE_WIDTH TILE_WIDTH 1 in
  let gridDimension2 :=
    Dim3 (ceil_ratio H_unroll TILE_WIDTH) (ceil_ratio M TILE_WIDTH) 1 in
  st ← for_ (range 0 N) (λ n '(X_unrolled, device_X_unrolled, device_Y_unrolled),
         X_unrolled ← unroll C H W K n X X_unrolled xdims;
         device_X_unrolled ←
           memcpy device_X_unrolled X_unrolled X_unrolled_size;
         C_base ← int_prod [n; d1 ydims; d2 ydims; d3 ydims];
         numAColumns ← int_prod [C; K; K];
         device_Y_unrolled ←
           matrixMultiplyShared gridDimension2 blockDimension2 (shared n)
             device_W_unrolled device_X_unrolled C_base
             M numAColumns W_unroll H_unroll M H_unroll device_Y_unrolled;
         Some (X_unrolled, device_X_unrolled, device_Y_unrolled))
       (X_unrolled, device_X_unrolled, device_Y_unrolled);
  let device_Y_unrolled := snd st in
  let device_Y := malloc junk Y_size in
  let blockDimension3 := Dim3 M 1 1 in
  let gridDimension3 := Dim3 N 1 1 in
  device_Y ←
    launch gridDimension3 blockDimension3
      (λ blockIdx threadIdx,
         rerollOutput blockIdx threadIdx M N H_out W_out device_Y_unrolled)
      device_Y;
  memcpy Y device_Y Y_size.

(** [conv_forward_kernel], the direct convolution with tiles in shared
    memory, one block at a time and, as for [matrixMultiplyShared], one
    barrier interval at a time.  [shmem] is the dynamically sized shared
    array: the tile of the input in its first [X_tile_width²] cells and the
    taps of the filter behind them.  [acc] holds one register per thread.

    First, to the first barrier: a thread loads one tap of the filter of
    output map [m] and channel [c]. *)
Definition conv_forward_kernel_load_W (blockIdx threadIdx : dim3)
    (W : list F) (wdims : dims4) (c : Z) (shmem : list F) : option (list F) :=
  let X_tile_width := TILE_WIDTH + d0 wdims - 1 in
  let m := dy blockIdx in
  let h0 := dy threadIdx in
  let w0 := dx threadIdx in
  let woffset := h0 * d1 wdims * d2 wdims * d3 wdims
                 + w0 * d2 wdims * d3 wdims + c * d3 wdims + m in
  if (h0 <? d0 wdims) && (w0 <? d1 wdims)
  then wv ← rd W woffset;
       wr shmem (X_tile_width * X_tile_width + (h0 * d1 wdims + w0)) wv
  else Some shmem.

(** To the second barrier: a thread loads the cells of the tile of channel
    [c] that lie [TILE_WIDTH] apart from its own. *)
Definition conv_forward_kernel_load_X (blockIdx threadIdx : dim3)
    (X : list F) (xdims wdims ydims : dims4) (c : Z) (shmem : list F)
    : option (list F) :=
  let X_tile_width := TILE_WIDTH + d0 wdims - 1 in
  let n := dx blockIdx in
  let h0 := dy threadIdx in
  let w0 := dx threadIdx in
  let h_base := (dz blockIdx ÷ ((d2 ydims - 1) ÷ TILE_WIDTH + 1)) * TILE_WIDTH in
  let w_base :=
    (Z.rem (dz blockIdx) ((d1 ydims - 1) ÷ TILE_WIDTH + 1)) * TILE_WIDTH in
  let h := h_base + h0 in
  let w := w_base + w0 in
  for_ (range_by h (h_base + X_tile_width) TILE_WIDTH) (λ i,
   for_ (range_by w (w_base + X_tile_width) TILE_WIDTH) (λ j shmem,
     let xoffset := n * d1 xdims * d2 xdims * d3 xdims
                    + i * d2 xdims * d3 xdims + j * d3 xdims + c in
     let x_shared_offset := X_tile_width * (i - h_base) + (j - w_base) in
     x ← rd X xoffset;
     wr shmem x_shared_offset x)) shmem.

(** To the third barrier: a thread adds the products of its window of the
    tile and the taps. *)
Definition conv_forward_kernel_acc (blockDim threadIdx : dim3)
    (wdims : dims4) (shmem acc : list F) : option (list F) :=
  let X_tile_width := TILE_WIDTH + d0 wdims - 1 in
  let h0 := dy threadIdx in
  let w0 := dx threadIdx in
  for_ (range 0 (d0 wdims)) (λ p,
   for_ (range 0 (d1 wdims)) (λ q acc,
     let x_shared_offset := X_tile_width * (h0 + p) + (w0 + q) in
     let w_shared_offset := d1 wdims * p + q in
     let r := dy threadIdx * dx blockDim + dx threadIdx in
     a ← rd acc r;
     x ← rd shmem x_shared_offset;
     wv ← rd shmem (X_tile_width * X_tile_width + w_shared_offset);
     wr acc r (fadd a (fmul x wv)))) acc.

Definition conv_forward_kernel_phase (blockIdx blockDim : dim3)
    (X W : list F) (xdims wdims ydims : dims4) (c : Z)
    (st : list F * list F) : option (list F * list F) :=
  let '(shmem, acc) := st in
  shmem ← forall_idx blockDim (λ threadIdx,
            conv_forward_kernel_load_W blockIdx threadIdx W wdims c) shmem;
  (* __syncthreads() *)
  shmem ← forall_idx blockDim (λ threadIdx,
            conv_forward_kernel_load_X blockIdx threadIdx X xdims wdims ydims c)
            shmem;
  (* __syncthreads() *)
  acc ← forall_idx blockDim (λ threadIdx,
          conv_forward_kernel_acc blockDim threadIdx wdims shmem) acc;
  (* __syncthreads() *)
  Some (shmem, acc).

Definition conv_forward_kernel_block (blockIdx blockDim : dim3)
    (shmem : list F) (X W : list F) (xdims wdims ydims : dims4) (Y : list F)
    : option (list F) :=
  let acc := replicate (Z.to_nat (dy blockDim * dx blockDim)) f0 in
  st ← for_ (range 0 (d2 wdims))
         (conv_forward_kernel_phase blockIdx blockDim X W xdims wdims ydims)
         (shmem, acc);
  forall_idx blockDim (λ threadIdx Y,
    let n := dx blockIdx in
    let m := dy blockIdx in
    let h := (dz blockIdx ÷ ((d2 ydims - 1) ÷ TILE_WIDTH + 1)) * TILE_WIDTH
             + dy threadIdx in
    let w := (Z.rem (dz blockIdx) ((d1 ydims - 1) ÷ TILE_WIDTH + 1)) * TILE_WIDTH
             + dx threadIdx in
    let yoffset := ((n * d1 ydims + h) * d2 ydims + w) * d3 ydims + m in
    if (w <? d2 ydims) && (h <? d1 ydims) then
      acc ← rd (snd st) (dy threadIdx * dx blockDim + dx threadIdx);
      wr Y yoffset (if flt acc f0 then f0 else acc)
    else Some Y) Y.

(** [conv_forward_kernel<<<gridDim, blockDim, shmem_size>>>]; [shared
    blockIdx] is what the block finds in its [shmem_size] bytes of shared
    memory. *)
Definition conv_forward_kernel (gridDim blockDim : dim3)
    (shared : dim3 → list F) (X W Y : list F) (xdims wdims ydims : dims4)
    : option (list F) :=
  forall_idx gridDim (λ blockIdx,
    conv_forward_kernel_block blockIdx blockDim (shared blockIdx) X W
      xdims wdims ydims) Y.

Definition average_pool_kernel (blockIdx threadIdx : dim3) (X Y : list F)
    (xdims ydims : dims4) (pool_size : Z) : option (list F) :=
  let n := dx blockIdx in
  let m := dy blockIdx in
  let h := (dz blockIdx ÷ ((d2 ydims - 1) ÷ TILE_WIDTH + 1)) * TILE_WIDTH
           + dy threadIdx in
  let w := (Z.rem (dz blockIdx) ((d1 ydims - 1) ÷ TILE_WIDTH + 1)) * TILE_WIDTH
           + dx threadIdx in
  let i := n in
  if (w <? d2 ydims) && (h <? d1 ydims) then
    acc ← for_ (range 0 pool_size) (λ p,
            for_ (range 0 pool_size) (λ q acc,
              let xoffset := i * d1 xdims * d2 xdims * d3 xdims
                             + (pool_size * h + p) * d2 xdims * d3 xdims
                             + (pool_size * w + q) * d3 xdims + m in
              x ← rd X xoffset;
              Some (fadd acc (fdiv x (fmul (fmul f1 (of_int pool_size))
                                           (of_int pool_size)))))) f0;
    let yoffset := ((i * d1 ydims + h) * d2 ydims + w) * d3 ydims + m in
    wr Y yoffset acc
  else Some Y.

Definition fully_forward (X : list F) (xdims : dims2) (W : list F)
    (wdims : dims2) (Y : list F) (ydims : dims2) : option (list F) :=
  for_ (range 0 (e0 xdims)) (λ i,
   for_ (range 0 (e1 wdims)) (λ j Y,
     sum ← for_ (range 0 (e1 xdims)) (λ k sum,
              x ← rd X (i * e1 xdims + k);
              wv ← rd W (k * e1 wdims + j);
              Some (fadd sum (fmul x wv))) f0;
     wr Y (i * e1 wdims + j) (if flt sum f0 then f0 else sum))) Y.

Definition argmax (X : list F) (xdims : dims2) (Y : list Z) : option (list Z) :=
  for_ (range 0 (e0 xdims)) (λ i Y,
    let max_idx := 0 in
    max ← rd X (i * e1 xdims);
    r ← for_ (range 0 (e1 xdims)) (λ j '(max_idx, max),
           elem ← rd X (i * e1 xdims + j);
           if flt max elem then Some (j, elem) else Some (max_idx, max))
         (max_idx, max);
    wr Y i (fst r)) Y.

(** [forward_operation] up to the score matrix [f] that it hands to
    [argmax].  The buffers [a], [c] and [d] of the source are allocated and
    never used.  The element counts passed to [malloc], [cudaMalloc] and
    [cudaMemcpy] are [int] products; those of [zeros<float>], which is not
    among the sources, are taken as they are. *)
Definition forward_scores (junk : Z → F)
    (shared : Z → dim3 → list F * list F) (FLAGS_batch_size : Z)
    (x conv1 conv2 fc1 fc2 : list F) : option (list F) :=
  let xdims := xdims FLAGS_batch_size in
  let s := forward_shapes xdims conv1dims conv2dims fc1dims fc2dims in
  let adims := adims s in
  let bdims := bdims s in
  let cdims := cdims s in
  let ddims := ddims s in
  a_size ←
    int_prod [d0 adims; d1 adims; d2 adims; d3 adims; d3 xdims];
  let conv1Output := malloc junk a_size in
  let b := zeros (d0 bdims * d1 bdims * d2 bdims * d3 bdims) in
  c_size ← int_prod [d0 cdims; d1 cdims; d2 cdims; d3 cdims];
  let conv2Output := malloc junk c_size in
  let pool2Output := zeros (d0 ddims * d1 ddims * d2 ddims * d3 ddims) in
  let e := zeros (e0 (edims s) * e1 (edims s)) in
  let f := zeros (e0 (fdims s) * e1 (fdims s)) in
  (* conv 1 *)
  conv1Output ←
    convLayer_forward junk shared (d0 xdims) (d3 conv1dims) (d2 conv1dims)
      (d1 xdims) (d2 xdims) (d0 conv1dims) x conv1 conv1Output xdims adims;
  let deviceInputPool1 := malloc junk a_size in
  deviceInputPool1 ← memcpy deviceInputPool1 conv1Output a_size;
  (* avg pool 1 *)
  b_size_1 ← int_prod [d0 bdims; d1 bdims; d2 bdims; d3 bdims; d3 xdims];
  let deviceOutputPool1 := malloc junk b_size_1 in
  let N := d0 adims in
  let M := d3 conv1dims in
  Z ← int_prod [(d2 bdims - 1) ÷ TILE_WIDTH + 1;
                (d1 bdims - 1) ÷ TILE_WIDTH + 1];
  let blockDimPool1 := Dim3 TILE_WIDTH TILE_WIDTH 1 in
  let gridDimPool1 := Dim3 N M Z in
  deviceOutputPool1 ←
    launch gridDimPool1 blockDimPool1
      (λ blockIdx threadIdx Y,
         average_pool_kernel blockIdx threadIdx deviceInputPool1 Y adims bdims
           pool_size)
      deviceOutputPool1;
  b_size ← int_prod [d0 bdims; d1 bdims; d2 bdims; d3 bdims];
  b ← memcpy b deviceOutputPool1 b_size;
  (* conv 2 *)
  conv2Output ←
    convLayer_forward junk shared (d0 xdims) (d3 conv2dims) (d2 conv2dims)
      (d1 bdims) (d2 bdims) (d0 conv2dims) b conv2 conv2Output bdims cdims;
  let deviceInputPool2 := malloc junk c_size in
  deviceInputPool2 ← memcpy deviceInputPool2 conv2Output c_size;
  (* avg pool 2 *)
  d_size_1 ← int_prod [d0 ddims; d1 ddims; d2 ddims; d3 ddims; d3 xdims];
  let deviceOutputPool2 := malloc junk d_size_1 in
  let N := d0 cdims in
  let M := d3 conv2dims in
  Z ← int_prod [(d2 ddims - 1) ÷ TILE_WIDTH + 1;
                (d1 ddims - 1) ÷ TILE_WIDTH + 1];
  let blockDimPool2 := Dim3 TILE_WIDTH TILE_WIDTH 1 in
  let gridDimPool2 := Dim3 N M Z in
  deviceOutputPool2 ←
    launch gridDimPool2 blockDimPool2
      (λ blockIdx threadIdx Y,
         average_pool_kernel blockIdx threadIdx deviceInputPool2 Y cdims ddims
           pool_size)
      deviceOutputPool2;
  pool2Output ← memcpy pool2Output deviceOutputPool2 d_size_1;
  (* fully connected 1 and 2 *)
  e ← fully_forward pool2Output (ddims2 s) fc1 fc1dims e (edims s);
  fully_forward e (edims s) fc2 fc2dims f (fdims s).

Definition forward_operation (junk : Z → F)
    (shared : Z → dim3 → list F * list F) (FLAGS_batch_size : Z)
    (x conv1 conv2 fc1 fc2 : list F) (out : list Z) : option (list Z) :=
  f ← forward_scores junk shared FLAGS_batch_size x conv1 conv2 fc1 fc2;
  argmax f (fdims (forward_shapes (xdims FLAGS_batch_size) conv1dims
                                  conv2dims fc1dims fc2dims)) out.

(** The model file as [loadModel] sees it through the HDF5 calls: the
    contents of its four datasets. *)
Record modeldata : Type := ModelData {
  conv1_data : list F;
  conv2_data : list F;
  fc1_data : list F;
  fc2_data : list F
}.

(** [loadModel] reads [/conv1], [/conv2], [/fc1] and [/fc2], in this order,
    each into the buffer of its name, and checks no extent. *)
Definition loadModel (file : modeldata) (conv1 conv2 fc1 fc2 : list F)
    : option (list F * list F * list F * list F) :=
  conv1 ← H5Dread (conv1_data file) conv1;
  conv2 ← H5Dread (conv2_data file) conv2;
  fc1 ← H5Dread (fc1_data file) fc1;
  fc2 ← H5Dread (fc2_data file) fc2;
  Some (conv1, conv2, fc1, fc2).

(** The [std::map] of [main]: the batch sizes of the test files that come
    with the program. *)
Definition default_batch_sizes : gmap string Z :=
  list_to_map [("../data/test2.hdf5", 2); ("../data/test10.hdf5", 10);
               ("../data/test100.hdf5", 100);
               ("../data/testfull.hdf5", 10000)]%string.

(** What [main] prints when it is done: the number of queries and the
    number of correct labels, whose quotient is the reported correctness. *)
Record summary : Type := Summary {
  queries : Z;
  num_correct : Z
}.

(** [main] returns its exit status and, when it gets that far, the summary
    it prints.  [argv] holds the program name and the arguments, [atoi] is
    the C library's, and [testdata_file] and [model_file] give the contents
    of the files of a given name.  [allocate<float>], of [utils.hpp], hands
    out uninitialized storage with one cell per element, as [malloc] does;
    a negative element count is outside what the embedding describes and
    leaves [main] undefined.  The status that [loadData] returns is
    dropped, as in the source. *)
Definition main (atoi : string → Z) (testdata_file : string → testdata)
    (model_file : string → modeldata) (junk : Z → F)
    (shared : Z → dim3 → list F * list F) (argv : list string)
    : option (Z * option summary) :=
  let argc := Z.of_nat (length argv) in
  if negb (argc =? 3) && negb (argc =? 4) then Some (-1, None) else
  FLAGS_testdata ← argv !! 1%nat;
  FLAGS_model ← argv !! 2%nat;
  let batch_size_in_map := default_batch_sizes !! FLAGS_testdata in
  if (argc =? 3) && bool_decide (batch_size_in_map = None)
  then Some (-1, None) else
  FLAGS_batch_size ←
    (if argc =? 3 then batch_size_in_map else atoi <$> argv !! 3%nat);
  if FLAGS_batch_size <? 0 then None else
  let xdims := xdims FLAGS_batch_size in
  let rdims := rdims FLAGS_batch_size in
  let x := malloc junk (d0 xdims * d1 xdims * d2 xdims * d3 xdims) in
  let y := malloc junk (e0 rdims * e1 rdims) in
  ld ← loadData (testdata_file FLAGS_testdata) FLAGS_batch_size x y;
  let x := x_buf ld.2 in
  let y := y_buf ld.2 in
  let conv1 :=
    malloc junk (d0 conv1dims * d1 conv1dims * d2 conv1dims * d3 conv1dims) in
  let conv2 :=
    malloc junk (d0 conv2dims * d1 conv2dims * d2 conv2dims * d3 conv2dims) in
  let fc1 := malloc junk (e0 fc1dims * e1 fc1dims) in
  let fc2 := malloc junk (e0 fc2dims * e1 fc2dims) in
  '(conv1, conv2, fc1, fc2) ←
    loadModel (model_file FLAGS_model) conv1 conv2 fc1 fc2;
  let out := replicate (Z.to_nat FLAGS_batch_size) 0 in
  out ← forward_operation junk shared FLAGS_batch_size x conv1 conv2 fc1 fc2
          out;
  let ref := replicate (Z.to_nat FLAGS_batch_size) 0 in
  ref ← argmax y rdims ref;
  num_correct ←
    for_ (range 0 FLAGS_batch_size) (λ i num_correct,
      o ← rd out i;
      r ← rd ref i;
      Some (if o =? r then num_correct + 1 else num_correct)) 0;
  Some (0, Some (Summary FLAGS_batch_size num_correct)).
End Ops.
End Cuda.

(** * Vocabulary of the statements *)

Section Vocabulary.
Context {F : Type} `{Scalar F}.

(** The cell [X[i]], for statements about cells known to be in range. *)
Definition get (X : list F) (i : Z) : F := default f0 (rd X i).

(** [Σ_{k=0..n-1} t k], summed as [sum = 0; for k: sum += t k]. *)
Definition fsum (n : Z) (t : Z → F) : F :=
  foldl (λ acc k, fadd acc (t k)) f0 (range 0 n).

Definition relu (x : F) : F := if flt x f0 then f0 else x.

(** Row-major offsets, the last index varying fastest. *)
Definition off4 (dims : dims4) (i0 i1 i2 i3 : Z) : Z :=
  ((i0 * d1 dims + i1) * d2 dims + i2) * d3 dims + i3.
Definition off2 (dims : dims2) (i j : Z) : Z := i * e1 dims + j.

Definition at4 (X : list F) (dims : dims4) (i0 i1 i2 i3 : Z) : F :=
  get X (off4 dims i0 i1 i2 i3).
Definition at2 (X : list F) (dims : dims2) (i j : Z) : F :=
  get X (off2 dims i j).

Definition size4 (dims : dims4) : Z := d0 dims * d1 dims * d2 dims * d3 dims.
Definition size2 (dims : dims2) : Z := e0 dims * e1 dims.

(** A buffer holds a tensor of the given shape. *)
Definition shaped4 (X : list F) (dims : dims4) : Prop :=
  0 ≤ d0 dims ∧ 0 ≤ d1 dims ∧ 0 ≤ d2 dims ∧ 0 ≤ d3 dims
  ∧ Z.of_nat (length X) = size4 dims.
Definition shaped2 (X : list F) (dims : dims2) : Prop :=
  0 ≤ e0 dims ∧ 0 ≤ e1 dims ∧ Z.of_nat (length X) = size2 dims.

(** What the direct convolution accumulates into the cell [(n, h, w, m)]
    that holds [y]: the products in the order of the loops over [p], [q]
    and [c]. *)
Definition conv_acc (X : list F) (xd : dims4) (W : list F) (wd : dims4)
    (n h w m : Z) (y : F) : F :=
  foldl (λ acc p,
    foldl (λ acc q,
      foldl (λ acc c,
        fadd acc (fmul (at4 X xd n (h + p) (w + q) c) (at4 W wd p q c m)))
        acc (range 0 (d2 wd)))
      acc (range 0 (d1 wd)))
    y (range 0 (d0 wd)).

(** What the sequential pooling accumulates into the cell [(n, h, w, m)]
    that holds [y]. *)
Definition pool_acc (X : list F) (xd : dims4) (pool_size : Z)
    (n h w m : Z) (y : F) : F :=
  foldl (λ acc p,
    foldl (λ acc q,
      fadd acc (fdiv (at4 X xd n (pool_size * h + p) (pool_size * w + q) m)
                     (fmul (fmul f1 (of_int pool_size)) (of_int pool_size))))
      acc (range 0 pool_size))
    y (range 0 pool_size).

(** The mean of the [f]×[f] window of the cell [(n, h, w, c)]. *)
Definition window_mean (X : list F) (xd : dims4) (f : Z) (n h w c : Z) : F :=
  fmul (fdiv f1 (fmul (of_int f) (of_int f)))
       (fsum f (λ p, fsum f (λ q, at4 X xd n (f * h + p) (f * w + q) c))).

(** Column [j] holds a maximum of row [i] of a [rows]×[C] matrix. *)
Definition row_max (X : list F) (xd : dims2) (i j : Z) : Prop :=
  0 ≤ j < e1 xd
  ∧ ∀ j', 0 ≤ j' < e1 xd → flt (at2 X xd i j) (at2 X xd i j') = false.

(** The contractual result of the convolution in the cell [(n, h, w, m)]. *)
Definition conv_sum (X : list F) (xd : dims4) (W : list F) (wd : dims4)
    (n h w m : Z) : F :=
  fsum (d0 wd) (λ p, fsum (d1 wd) (λ q, fsum (d2 wd) (λ c,
    fmul (at4 X xd n (h + p) (w + q) c) (at4 W wd p q c m)))).

(** What the unroll-and-multiply path adds up for the cell [(n, h, w, m)]:
    the products of a filter tap and an input cell in the order of the
    columns of the unrolled filter, [c] outermost, then [p], then [q]. *)
Definition unroll_sum (X : list F) (xd : dims4) (W : list F) (wd : dims4)
    (n h w m : Z) : F :=
  foldl (λ acc c,
    foldl (λ acc p,
      foldl (λ acc q,
        fadd acc (fmul (at4 W wd p q c m) (at4 X xd n (h + p) (w + q) c)))
        acc (range 0 (d1 wd)))
      acc (range 0 (d0 wd)))
    f0 (range 0 (d2 wd)).

(** The product [Σ_k X[i,k]·W[k,j]]. *)
Definition dot (X : list F) (xd : dims2) (W : list F) (wd : dims2) (i j : Z) : F :=
  fsum (e1 xd) (λ k, fmul (at2 X xd i k) (at2 W wd k j)).
End Vocabulary.

(** * Buffers and loops: basic facts *)

Section BufferFacts.
Context {A : Type}.
Implicit Types (X Y : list A) (i j : Z).

Lemma rd_Some X i v : rd X i = Some v → 0 ≤ i < Z.of_nat (length X).
Proof.
  unfold rd. destruct (Z.ltb_spec i 0); [done|].
  intros Hl%lookup_lt_Some. lia.
Qed.

Lemma rd_is_Some X i : 0 ≤ i < Z.of_nat (length X) → is_Some (rd X i).
Proof.
  intros Hi. unfold rd. destruct (Z.ltb_spec i 0); [lia|].
  apply lookup_lt_is_Some. lia.
Qed.

Lemma wr_Some Y i v :
  0 ≤ i < Z.of_nat (length Y) → wr Y i v = Some (<[Z.to_nat i := v]> Y).
Proof.
  intros Hi. unfold wr.
  destruct (Z.leb_spec 0 i); [|lia].
  destruct (Z.ltb_spec i (Z.of_nat (length Y))); [done|lia].
Qed.

Lemma rd_insert_eq Y i v :
  0 ≤ i < Z.of_nat (length Y) → rd (<[Z.to_nat i := v]> Y) i = Some v.
Proof.
  intros Hi. unfold rd. destruct (Z.ltb_spec i 0); [lia|].
  apply list_lookup_insert_eq. lia.
Qed.

Lemma rd_insert_ne Y i j v :
  0 ≤ i → j ≠ i → rd (<[Z.to_nat i := v]> Y) j = rd Y j.
Proof.
  intros Hi Hne. unfold rd. destruct (Z.ltb_spec j 0); [done|].
  apply list_lookup_insert_ne. lia.
Qed.

Lemma rd_ext X Y :
  length X = length Y → (∀ i v, rd X i = Some v → rd Y i = Some v) → X = Y.
Proof.
  intros Hlen Hrd. apply list_eq_same_length with (length X); [done..|].
  intros k a b Hk Ha Hb.
  specialize (Hrd (Z.of_nat k) a). unfold rd in Hrd.
  destruct (Z.ltb_spec (Z.of_nat k) 0); [lia|].
  rewrite Nat2Z.id in Hrd. specialize (Hrd Ha). congruence.
Qed.
End BufferFacts.

Lemma elem_of_range lo hi k : k ∈ range lo hi ↔ lo ≤ k < hi.
Proof. unfold range. rewrite elem_of_seqZ. lia. Qed.

Lemma NoDup_range lo hi : NoDup (range lo hi).
Proof. apply NoDup_seqZ. Qed.

Lemma range_nil lo hi : hi ≤ lo → range lo hi = [].
Proof. intros. apply seqZ_nil. lia. Qed.

Lemma range_snoc n : 0 ≤ n → range 0 (n + 1) = range 0 n ++ [n].
Proof.
  intros Hn. unfold range.
  replace (n + 1 - 0) with (n + 1) by lia.
  rewrite seqZ_app by lia. replace (n - 0) with n by lia.
  f_equal.
Qed.

Lemma range_app n m : 0 ≤ n → 0 ≤ m → range 0 (n + m) = range 0 n ++ range n (n + m).
Proof.
  intros Hn Hm. unfold range.
  replace (n + m - 0) with (n + m) by lia.
  rewrite seqZ_app by lia. do 2 f_equal; lia.
Qed.

Lemma range_split a b : 0 ≤ a ≤ b → range 0 b = range 0 a ++ range a b.
Proof.
  intros Hab. rewrite <- (Zplus_minus a b) at 1 2.
  apply range_app; lia.
Qed.

(** A loop over [0 .. a*b-1] read as [a] rounds of [b] steps, the state
    threaded through. *)
Lemma foldl_range_blocks {A : Type} (f : A → Z → A) (a b : Z) (y : A) :
  0 ≤ a → 0 ≤ b →
  foldl f y (range 0 (a * b))
  = foldl (λ acc i, foldl (λ acc j, f acc (i * b + j)) acc (range 0 b))
      y (range 0 a).
Proof.
  intros Ha Hb. pattern a. apply natlike_ind; [| |exact Ha].
  - rewrite Z.mul_0_l. by rewrite !range_nil by lia.
  - intros x Hx IH. rewrite <- Z.add_1_r, range_snoc, foldl_app by done.
    rewrite <- IH. cbn [foldl].
    replace ((x + 1) * b) with (x * b + b) by ring.
    rewrite range_app, foldl_app by nia.
    generalize (foldl f y (range 0 (x * b))). intros z.
    unfold range.
    replace (seqZ (x * b) (x * b + b - x * b))
      with (Z.add (x * b) <$> seqZ 0 (b - 0))
      by (rewrite fmap_add_seqZ; f_equal; lia).
    by rewrite foldl_fmap.
Qed.

(** ** [int] arithmetic *)

(** No partial product of [acc * b * c * ...] leaves the range of [int]. *)
Fixpoint fits_from (acc : Z) (l : list Z) : Prop :=
  match l with
  | [] => True
  | b :: l' => INT_MIN ≤ acc * b ≤ INT_MAX ∧ fits_from (acc * b) l'
  end.

Lemma int_Some z : INT_MIN ≤ z ≤ INT_MAX → int z = Some z.
Proof.
  intros Hz. unfold int.
  destruct (Z.leb_spec INT_MIN z); [|lia].
  destruct (Z.leb_spec z INT_MAX); [done|lia].
Qed.

Lemma int_None z : INT_MAX < z → int z = None.
Proof.
  intros Hz. unfold int.
  destruct (Z.leb_spec z INT_MAX); [lia|]. by rewrite andb_false_r.
Qed.

(** A product of factors of at least one that exceeds [INT_MAX]
    overflows on the way. *)
Lemma int_prod_from_None acc l :
  0 ≤ acc ≤ INT_MAX → Forall (λ b, 1 ≤ b) l → INT_MAX < foldl Z.mul acc l →
  int_prod_from acc l = None.
Proof.
  revert acc. induction l as [|b l IH]; intros acc Hacc Hl Hbig; simpl in *.
  - lia.
  - apply Forall_cons in Hl as [Hb Hl].
    destruct (Z.le_gt_cases (acc * b) INT_MAX) as [Hle|Hgt].
    + rewrite int_Some by (unfold INT_MIN; nia). simpl.
      apply IH; [nia|done|done].
    + by rewrite int_None by lia.
Qed.

Lemma int_prod_from_Some acc l :
  fits_from acc l → int_prod_from acc l = Some (foldl Z.mul acc l).
Proof.
  revert acc. induction l as [|b l IH]; intros acc; simpl; [done|].
  intros [Hb Hl]. rewrite int_Some by done. simpl. by apply IH.
Qed.

Lemma int_prod_Some a l :
  fits_from a l → int_prod (a :: l) = Some (foldl Z.mul a l).
Proof. unfold int_prod. apply int_prod_from_Some. Qed.

Section LoopFacts.
Context {S : Type}.
Implicit Types (l : list Z) (body : Z → S → option S).

Lemma for_app l1 l2 body s :
  for_ (l1 ++ l2) body s = s' ← for_ l1 body s; for_ l2 body s'.
Proof.
  revert s. induction l1 as [|k l1 IH]; intros s; simpl; [done|].
  destruct (body k s) as [s1|]; simpl; [apply IH|done].
Qed.

Lemma for_ext l body body' s :
  (∀ k s, k ∈ l → body k s = body' k s) → for_ l body s = for_ l body' s.
Proof.
  revert s. induction l as [|k l IH]; intros s Hb; simpl; [done|].
  rewrite Hb by left. destruct (body' k s) as [s1|]; simpl; [|done].
  apply IH. intros k' s' Hk'. apply Hb. by right.
Qed.

End LoopFacts.

(** Two loops fused in one body, each on its own component of the state. *)
Lemma for_pair {S1 S2 : Type} (l : list Z) (f : Z → S1 → option S1)
    (g : Z → S2 → option S2) (a : S1) (b : S2) :
  for_ l (λ k '(a, b), a' ← f k a; b' ← g k b; Some (a', b')) (a, b) =
  (a' ← for_ l f a; b' ← for_ l g b; Some (a', b')).
Proof.
  revert a b. induction l as [|k l IH]; intros a b; simpl; [done|].
  destruct (f k a) as [a1|]; simpl; [|done].
  destruct (g k b) as [b1|]; simpl.
  - apply IH.
  - by destruct (for_ l f a1).
Qed.

(** * Cell-wise effect of a loop nest on a buffer *)

Section Cellwise.
Context {A : Type}.
Implicit Types (body : list A → option (list A)) (g : Z → A → A).

(** On a buffer of [L] cells, [body] succeeds, keeps the length, and
    leaves in each cell [j] the image under [g j] of what the cell held. *)
Definition cellwise (L : nat) body g : Prop :=
  ∀ Y, length Y = L →
    ∃ Y', body Y = Some Y' ∧ length Y' = L
          ∧ ∀ j v, rd Y j = Some v → rd Y' j = Some (g j v).

Lemma cellwise_skip L : cellwise L Some (λ _ v, v).
Proof. intros Y HY. exists Y. done. Qed.

Lemma cellwise_update L i (h : A → A) :
  0 ≤ i < Z.of_nat L →
  cellwise L (λ Y, y ← rd Y i; wr Y i (h y))
           (λ j v, if j =? i then h v else v).
Proof.
  intros Hi Y HY. subst L.
  destruct (rd_is_Some Y i Hi) as [y Hy]. rewrite Hy. simpl.
  rewrite wr_Some by done. eexists. split_and!; [done|by rewrite length_insert|].
  intros j v Hj. destruct (Z.eqb_spec j i) as [->|Hne].
  - rewrite rd_insert_eq by done. congruence.
  - rewrite rd_insert_ne by lia. done.
Qed.

Lemma cellwise_write L i (a : A) :
  0 ≤ i < Z.of_nat L →
  cellwise L (λ Y, wr Y i a) (λ j v, if j =? i then a else v).
Proof.
  intros Hi Y HY. subst L.
  rewrite wr_Some by done. eexists. split_and!; [done|by rewrite length_insert|].
  intros j v Hj. destruct (Z.eqb_spec j i) as [->|Hne].
  - by rewrite rd_insert_eq.
  - by rewrite rd_insert_ne by lia.
Qed.

Lemma cellwise_for L (l : list Z) (body : Z → list A → option (list A))
    (g : Z → Z → A → A) :
  (∀ k, k ∈ l → cellwise L (body k) (g k)) →
  cellwise L (for_ l body) (λ j v, foldl (λ v k, g k j v) v l).
Proof.
  induction l as [|k l IH]; intros Hb Y HY; simpl.
  - exists Y. done.
  - destruct (Hb k (list_elem_of_here _ _) Y HY) as (Y1 & -> & Hlen1 & Hrd1).
    simpl. destruct (IH (λ k' Hk', Hb k' (list_elem_of_further _ _ _ Hk')) Y1 Hlen1)
      as (Y2 & HY2 & Hlen2 & Hrd2).
    exists Y2. split_and!; [done..|].
    intros j v Hj. apply Hrd2, Hrd1, Hj.
Qed.
End Cellwise.

(** Folds in which a single iteration, or none, has an effect. *)
Section FoldFacts.
Context {B : Type}.
Implicit Types (step : B → Z → B) (l : list Z).

Lemma foldl_noop step l v :
  (∀ k v, k ∈ l → step v k = v) → foldl step v l = v.
Proof.
  induction l as [|k l IH]; intros Hs; simpl; [done|].
  rewrite Hs by left. apply IH. intros k' v' Hk'. apply Hs. by right.
Qed.

Lemma foldl_single step l k0 v :
  NoDup l → k0 ∈ l →
  (∀ k v, k ∈ l → k ≠ k0 → step v k = v) →
  foldl step v l = step v k0.
Proof.
  induction l as [|k l IH]; intros Hnd Hin Hs; [by apply elem_of_nil in Hin|].
  apply NoDup_cons in Hnd as [Hk Hnd]. simpl.
  destruct (decide (k = k0)) as [->|Hne].
  - apply foldl_noop. intros k' v' Hk'. apply Hs; [by right|].
    intros ->. done.
  - rewrite (Hs k v) by (done || left).
    apply IH; [done| |].
    + apply elem_of_cons in Hin as [?|?]; [congruence|done].
    + intros k' v' Hk'. apply Hs. by right.
Qed.

Lemma foldl_ext step step' l v :
  (∀ k v, k ∈ l → step v k = step' v k) → foldl step v l = foldl step' v l.
Proof.
  revert v. induction l as [|k l IH]; intros v Hs; simpl; [done|].
  rewrite Hs by left. apply IH. intros k' v' Hk'. apply Hs. by right.
Qed.
End FoldFacts.

(** * Offsets *)

Lemma lin_bound a b n m : 0 ≤ a < n → 0 ≤ b < m → 0 ≤ a * m + b < n * m.
Proof.
  intros Ha Hb.
  assert (0 ≤ a * m) by (apply Z.mul_nonneg_nonneg; lia).
  assert ((a + 1) * m ≤ n * m) by (apply Z.mul_le_mono_nonneg_r; lia).
  lia.
Qed.

Lemma lin_inj a b a' b' m :
  0 ≤ b < m → 0 ≤ b' < m → a * m + b = a' * m + b' → a = a' ∧ b = b'.
Proof.
  intros Hb Hb' Heq.
  assert (a = a') as ->; [|lia].
  destruct (Z.lt_trichotomy a a') as [Hlt|[->|Hlt]]; [|done|].
  - assert ((a + 1) * m ≤ a' * m) by (apply Z.mul_le_mono_nonneg_r; lia). lia.
  - assert ((a' + 1) * m ≤ a * m) by (apply Z.mul_le_mono_nonneg_r; lia). lia.
Qed.

Lemma off4_bound dims i0 i1 i2 i3 :
  0 ≤ i0 < d0 dims → 0 ≤ i1 < d1 dims → 0 ≤ i2 < d2 dims → 0 ≤ i3 < d3 dims →
  0 ≤ off4 dims i0 i1 i2 i3 < size4 dims.
Proof.
  intros H0 H1 H2 H3. unfold off4, size4.
  pose proof (lin_bound i0 i1 _ _ H0 H1) as Ha.
  pose proof (lin_bound _ i2 _ _ Ha H2) as Hb.
  exact (lin_bound _ i3 _ _ Hb H3).
Qed.

Lemma size4_nonneg dims :
  0 ≤ d0 dims → 0 ≤ d1 dims → 0 ≤ d2 dims → 0 ≤ d3 dims → 0 ≤ size4 dims.
Proof. intros. unfold size4. repeat apply Z.mul_nonneg_nonneg; done. Qed.

Lemma off4_inj dims i0 i1 i2 i3 j0 j1 j2 j3 :
  0 ≤ i1 < d1 dims → 0 ≤ i2 < d2 dims → 0 ≤ i3 < d3 dims →
  0 ≤ j1 < d1 dims → 0 ≤ j2 < d2 dims → 0 ≤ j3 < d3 dims →
  off4 dims i0 i1 i2 i3 = off4 dims j0 j1 j2 j3 →
  i0 = j0 ∧ i1 = j1 ∧ i2 = j2 ∧ i3 = j3.
Proof.
  intros Hi1 Hi2 Hi3 Hj1 Hj2 Hj3. unfold off4. intros Heq.
  apply lin_inj in Heq as [Heq ->]; [|done..].
  apply lin_inj in Heq as [Heq ->]; [|done..].
  apply lin_inj in Heq as [-> ->]; done.
Qed.

Lemma off2_bound dims i j :
  0 ≤ i < e0 dims → 0 ≤ j < e1 dims → 0 ≤ off2 dims i j < size2 dims.
Proof. intros. unfold off2, size2. by apply lin_bound. Qed.

Section GetFacts.
Context {F : Type} `{Scalar F}.
Implicit Types (X Y : list F).

Lemma rd_get X i : 0 ≤ i < Z.of_nat (length X) → rd X i = Some (get X i).
Proof. intros Hi. unfold get. by destruct (rd_is_Some X i Hi) as [v ->]. Qed.

Lemma get_rd X i v : rd X i = Some v → get X i = v.
Proof. unfold get. by intros ->. Qed.

Lemma length_zeros n : Z.of_nat (length (zeros (F:=F) n)) = Z.max 0 n.
Proof. unfold zeros. rewrite length_replicate. lia. Qed.

Lemma shaped4_zeros dims :
  0 ≤ d0 dims → 0 ≤ d1 dims → 0 ≤ d2 dims → 0 ≤ d3 dims →
  shaped4 (zeros (F:=F) (size4 dims)) dims.
Proof.
  intros. unfold shaped4. split_and!; [done..|].
  rewrite length_zeros. pose proof (size4_nonneg dims). lia.
Qed.

Lemma rd_zeros n i (v : F) : rd (zeros n) i = Some v → v = f0.
Proof.
  unfold rd, zeros. destruct (i <? 0); [done|].
  intros [-> _]%lookup_replicate. done.
Qed.

Lemma get_zeros n i : get (zeros (F:=F) n) i = f0.
Proof.
  unfold get. destruct (rd (zeros n) i) as [v|] eqn:Hv; [|done].
  by apply rd_zeros in Hv.
Qed.

Lemma get_ext X Y :
  length X = length Y →
  (∀ i, 0 ≤ i < Z.of_nat (length X) → get X i = get Y i) → X = Y.
Proof.
  intros Hlen Hget. apply rd_ext; [done|]. intros i v Hv.
  pose proof (rd_Some _ _ _ Hv) as Hi.
  rewrite rd_get by lia. f_equal. rewrite <- Hget by done. by apply get_rd.
Qed.
End GetFacts.

Section CellwiseMore.
Context {A : Type}.

Lemma cellwise_bind {B : Type} L (o : option B) (b : B)
    (k : B → list A → option (list A)) (g : Z → A → A) :
  o = Some b → cellwise L (k b) g → cellwise L (λ Y, x ← o; k x Y) g.
Proof. intros -> Hk. exact Hk. Qed.

End CellwiseMore.

(** * The direct convolution *)

(** Selects the one iteration of a loop that touches the cell under
    consideration; every other iteration is shown to leave it alone. *)
Ltac pick_iteration k0 tac :=
  rewrite (foldl_single _ _ k0);
  [ | apply NoDup_range | apply elem_of_range; lia
    | let k := fresh "k" in let v := fresh "v" in
      let Hk := fresh "Hk" in let Hne := fresh "Hne" in
      intros k v Hk%elem_of_range Hne;
      repeat (apply foldl_noop; intros ? ? ?%elem_of_range);
      tac ].

Section DirectConvolution.
Context {F : Type} `{Scalar F}.
Implicit Types (X W Y : list F) (xd wd yd : dims4).

Lemma conv_forward_valid_cells X xd W wd Y yd :
  shaped4 X xd → shaped4 W wd → shaped4 Y yd →
  d0 yd ≤ d0 xd → d1 yd + d0 wd - 1 ≤ d1 xd → d2 yd + d1 wd - 1 ≤ d2 xd →
  d2 wd ≤ d3 xd → d3 yd ≤ d3 wd →
  ∃ Y', Sequential.conv_forward_valid X xd W wd Y yd = Some Y'
        ∧ length Y' = length Y
        ∧ ∀ n h w m,
            0 ≤ n < d0 yd → 0 ≤ h < d1 yd → 0 ≤ w < d2 yd → 0 ≤ m < d3 yd →
            at4 Y' yd n h w m = conv_acc X xd W wd n h w m (at4 Y yd n h w m).
Proof.
  intros (? & ? & ? & ? & HX) (? & ? & ? & ? & HW) (? & ? & ? & ? & HY)
    Hd0 Hd1 Hd2 Hd3 Hd4.
  eassert (cellwise (length Y)
             (λ Y, Sequential.conv_forward_valid X xd W wd Y yd) _) as Hc.
  { unfold Sequential.conv_forward_valid.
    repeat (eapply cellwise_for; intros ? ?%elem_of_range). cbv zeta.
    eapply cellwise_bind.
    { apply rd_get. rewrite HX.
      match goal with |- _ ≤ ?e < _ =>
        match e with context [?i * d1 xd * d2 xd * d3 xd + (?h + ?p) * _ * _ + (?w + ?q) * _ + ?c] =>
          replace e with (off4 xd i (h + p) (w + q) c) by (unfold off4; ring)
        end end.
      apply off4_bound; lia. }
    eapply cellwise_bind.
    { apply rd_get. rewrite HW.
      match goal with |- _ ≤ ?e < _ =>
        match e with context [?p * d1 wd * d2 wd * d3 wd + ?q * _ * _ + ?c * _ + ?m] =>
          replace e with (off4 wd p q c m) by (unfold off4; ring)
        end end.
      apply off4_bound; lia. }
    apply cellwise_update. rewrite HY. apply (off4_bound yd); lia. }
  destruct (Hc Y eq_refl) as (Y' & HY' & Hlen & Hrd).
  exists Y'. split_and!; [done..|].
  intros n h w m Hn Hh Hw Hm. unfold at4 at 1 2.
  pose proof (off4_bound yd n h w m Hn Hh Hw Hm) as Hj.
  rewrite <- HY in Hj. apply rd_get, Hrd, get_rd in Hj. rewrite Hj.
  clear Hj Hrd Hc HY'.
  generalize (get Y (off4 yd n h w m)). intros y.
  assert (∀ i m' w' h', 0 ≤ m' < d3 yd → 0 ≤ w' < d2 yd → 0 ≤ h' < d1 yd →
            (i ≠ n ∨ m' ≠ m ∨ w' ≠ w ∨ h' ≠ h) →
            (off4 yd n h w m =? ((i * d1 yd + h') * d2 yd + w') * d3 yd + m') = false)
    as Hother.
  { intros i m' w' h' ? ? ? Hne. apply Z.eqb_neq. intros Heq.
    apply (off4_inj yd n h w m i h' w' m') in Heq; lia. }
  pick_iteration n ltac:(by rewrite Hother by lia).
  pick_iteration m ltac:(by rewrite Hother by lia).
  pick_iteration w ltac:(by rewrite Hother by lia).
  pick_iteration h ltac:(by rewrite Hother by lia).
  unfold conv_acc.
  apply foldl_ext. intros p acc _. apply foldl_ext. intros q acc' _.
  apply foldl_ext. intros c acc'' _.
  rewrite Z.eqb_refl. unfold at4. do 3 f_equal; unfold off4; ring.
Qed.
End DirectConvolution.

(** * Sums *)

Section SumBasics.
Context {F : Type} `{Scalar F}.
Implicit Types (t : Z → F).

Lemma fsum_nil n t : n ≤ 0 → fsum n t = f0.
Proof. intros Hn. unfold fsum. by rewrite range_nil by lia. Qed.

End SumBasics.

Section SumFacts.
Context {F : Type} `{ScalarField F}.
Implicit Types (t u : Z → F) (l : list Z).

Add Ring scalar_ring_inst : scalar_ring.

Local Abbreviation lsum l t := (foldl (λ acc k, fadd acc (t k)) f0 l).

Lemma foldl_fadd t l y :
  foldl (λ acc k, fadd acc (t k)) y l = fadd y (lsum l t).
Proof.
  revert y. induction l as [|k l IH]; intros y; simpl; [ring|].
  rewrite IH, (IH (fadd f0 (t k))). ring.
Qed.

Lemma lsum_cons t k l : lsum (k :: l) t = fadd (t k) (lsum l t).
Proof. simpl. rewrite foldl_fadd. ring. Qed.


Lemma lsum_ext t u l : (∀ k, k ∈ l → t k = u k) → lsum l t = lsum l u.
Proof. intros Htu. apply foldl_ext. intros k v Hk. by rewrite Htu. Qed.

Lemma lsum_zero l : lsum l (λ _, f0) = f0.
Proof. induction l as [|k l IH]; [done|]. rewrite lsum_cons, IH. ring. Qed.

Lemma lsum_add t u l :
  lsum l (λ k, fadd (t k) (u k)) = fadd (lsum l t) (lsum l u).
Proof.
  induction l as [|k l IH]; [simpl; ring|].
  rewrite !lsum_cons, IH. ring.
Qed.

Lemma lsum_mul_r t (c : F) l : lsum l (λ k, fmul (t k) c) = fmul (lsum l t) c.
Proof.
  induction l as [|k l IH]; [simpl; ring|].
  rewrite !lsum_cons, IH. ring.
Qed.

Lemma lsum_exchange (t : Z → Z → F) l1 l2 :
  lsum l1 (λ a, lsum l2 (λ b, t a b)) = lsum l2 (λ b, lsum l1 (λ a, t a b)).
Proof.
  induction l1 as [|a l1 IH].
  - simpl. by rewrite lsum_zero.
  - rewrite lsum_cons, IH, <- lsum_add. apply lsum_ext. intros b _.
    by rewrite lsum_cons.
Qed.


Lemma fsum_ext n t u : (∀ k, 0 ≤ k < n → t k = u k) → fsum n t = fsum n u.
Proof. intros Htu. apply lsum_ext. intros k Hk%elem_of_range. by apply Htu. Qed.


Lemma fsum_mul_r n t (c : F) : fsum n (λ k, fmul (t k) c) = fmul (fsum n t) c.
Proof. apply lsum_mul_r. Qed.

Lemma fsum_exchange n m (t : Z → Z → F) :
  fsum n (λ a, fsum m (λ b, t a b)) = fsum m (λ b, fsum n (λ a, t a b)).
Proof. apply lsum_exchange. Qed.


(** Accumulating a sum into a cell adds the sum to the cell. *)
Lemma conv_acc_fsum (X : list F) xd (W : list F) wd n h w m (y : F) :
  conv_acc X xd W wd n h w m y =
  fadd y (fsum (d0 wd) (λ p, fsum (d1 wd) (λ q, fsum (d2 wd) (λ c,
    fmul (at4 X xd n (h + p) (w + q) c) (at4 W wd p q c m))))).
Proof.
  unfold conv_acc, fsum.
  rewrite <- (foldl_fadd (λ p, foldl _ f0 (range 0 (d1 wd)))).
  apply foldl_ext. intros p acc _.
  rewrite <- (foldl_fadd (λ q, foldl _ f0 (range 0 (d2 wd)))).
  apply foldl_ext. intros q acc' _.
  apply foldl_fadd.
Qed.

Lemma fadd_0_l (a : F) : fadd f0 a = a.
Proof. ring. Qed.


Lemma fmul_comm (a b : F) : fmul a b = fmul b a.
Proof. ring. Qed.

End SumFacts.

(** * The direct convolution on a zero-initialized output *)

Section DirectConvolutionFromZeros.
Context {F : Type} `{!Scalar F}.

(** Whatever the arithmetic: every cell holds the products added up from
    zero in the order of the loops. *)
Lemma conv_forward_valid_from_zeros (N H W C K M : Z) (X Wt : list F) :
  let xdims := Dims4 N H W C in
  let wdims := Dims4 K K C M in
  let ydims := Dims4 N (H - K + 1) (W - K + 1) M in
  shaped4 X xdims → shaped4 Wt wdims → K ≤ H + 1 → K ≤ W + 1 →
  ∃ Y, Sequential.conv_forward_valid X xdims Wt wdims (zeros (size4 ydims)) ydims
       = Some Y
     ∧ shaped4 Y ydims
     ∧ ∀ n h w m,
         0 ≤ n < N → 0 ≤ h < H - K + 1 → 0 ≤ w < W - K + 1 → 0 ≤ m < M →
         at4 Y ydims n h w m = conv_acc X xdims Wt wdims n h w m f0.
Proof.
  intros xdims wdims ydims HX HW HK1 HK2.
  assert (shaped4 (zeros (F:=F) (size4 ydims)) ydims) as HY.
  { destruct HX as (? & ? & ? & ? & _), HW as (? & ? & ? & ? & _).
    apply shaped4_zeros; simpl in *; lia. }
  destruct (conv_forward_valid_cells X xdims Wt wdims _ ydims HX HW HY)
    as (Y & HYeq & Hlen & Hcells); simpl; [lia..|].
  exists Y. split_and!; [done| |].
  - destruct HY as (? & ? & ? & ? & HYlen). unfold shaped4.
    split_and!; [done..|]. by rewrite Hlen.
  - intros n h w m Hn Hh Hw Hm. rewrite Hcells by done.
    unfold at4 at 1. by rewrite get_zeros.
Qed.
End DirectConvolutionFromZeros.

Section DirectConvolutionZeros.
Context {F : Type} `{!Scalar F, !ScalarField F}.

Lemma conv_forward_valid_zeros (N H W C K M : Z) (X Wt : list F) :
  let xdims := Dims4 N H W C in
  let wdims := Dims4 K K C M in
  let ydims := Dims4 N (H - K + 1) (W - K + 1) M in
  shaped4 X xdims → shaped4 Wt wdims → K ≤ H + 1 → K ≤ W + 1 →
  ∃ Y, Sequential.conv_forward_valid X xdims Wt wdims (zeros (size4 ydims)) ydims
       = Some Y
     ∧ shaped4 Y ydims
     ∧ ∀ n h w m,
         0 ≤ n < N → 0 ≤ h < H - K + 1 → 0 ≤ w < W - K + 1 → 0 ≤ m < M →
         at4 Y ydims n h w m = conv_sum X xdims Wt wdims n h w m.
Proof.
  intros xdims wdims ydims HX HW HK1 HK2.
  assert (shaped4 (zeros (F:=F) (size4 ydims)) ydims) as HY.
  { destruct HX as (? & ? & ? & ? & _), HW as (? & ? & ? & ? & _).
    apply shaped4_zeros; simpl in *; lia. }
  destruct (conv_forward_valid_cells X xdims Wt wdims _ ydims HX HW HY)
    as (Y & HYeq & Hlen & Hcells); simpl; [lia..|].
  exists Y. split_and!; [done| |].
  - destruct HY as (? & ? & ? & ? & HYlen). unfold shaped4.
    split_and!; [done..|]. by rewrite Hlen.
  - intros n h w m Hn Hh Hw Hm. rewrite Hcells by done.
    rewrite conv_acc_fsum. unfold at4 at 1. rewrite get_zeros.
    apply fadd_0_l.
Qed.
End DirectConvolutionZeros.

(** * The sequential pooling *)

Section SequentialPool.
Context {F : Type} `{Scalar F}.
Implicit Types (X Y : list F) (xd yd : dims4).

Lemma average_pool_cells X xd ps Y yd :
  shaped4 X xd → shaped4 Y yd →
  d0 yd ≤ d0 xd → ps * d1 yd ≤ d1 xd → ps * d2 yd ≤ d2 xd → d3 yd ≤ d3 xd →
  ∃ Y', Sequential.average_pool X xd ps Y yd = Some Y'
        ∧ length Y' = length Y
        ∧ ∀ n h w m,
            0 ≤ n < d0 yd → 0 ≤ h < d1 yd → 0 ≤ w < d2 yd → 0 ≤ m < d3 yd →
            at4 Y' yd n h w m = pool_acc X xd ps n h w m (at4 Y yd n h w m).
Proof.
  intros (? & ? & ? & ? & HX) (? & ? & ? & ? & HY) Hd0 Hd1 Hd2 Hd3.
  eassert (cellwise (length Y)
             (λ Y, Sequential.average_pool X xd ps Y yd) _) as Hc.
  { unfold Sequential.average_pool.
    repeat (eapply cellwise_for; intros ? ?%elem_of_range). cbv zeta.
    eapply cellwise_bind.
    { apply rd_get. rewrite HX.
      match goal with |- _ ≤ ?e < _ =>
        match e with context [?i * d1 xd * d2 xd * d3 xd + (ps * ?h + ?p) * _ * _ + (ps * ?w + ?q) * _ + ?m] =>
          replace e with (off4 xd i (ps * h + p) (ps * w + q) m)
            by (unfold off4; ring)
        end end.
      apply off4_bound; nia. }
    apply cellwise_update. rewrite HY. apply (off4_bound yd); lia. }
  destruct (Hc Y eq_refl) as (Y' & HY' & Hlen & Hrd).
  exists Y'. split_and!; [done..|].
  intros n h w m Hn Hh Hw Hm. unfold at4 at 1 2.
  pose proof (off4_bound yd n h w m Hn Hh Hw Hm) as Hj.
  rewrite <- HY in Hj. apply rd_get, Hrd, get_rd in Hj. rewrite Hj.
  clear Hj Hrd Hc HY'.
  generalize (get Y (off4 yd n h w m)). intros y.
  assert (∀ i m' w' h', 0 ≤ m' < d3 yd → 0 ≤ w' < d2 yd → 0 ≤ h' < d1 yd →
            (i ≠ n ∨ m' ≠ m ∨ w' ≠ w ∨ h' ≠ h) →
            (off4 yd n h w m =? ((i * d1 yd + h') * d2 yd + w') * d3 yd + m') = false)
    as Hother.
  { intros i m' w' h' ? ? ? Hne. apply Z.eqb_neq. intros Heq.
    apply (off4_inj yd n h w m i h' w' m') in Heq; lia. }
  pick_iteration n ltac:(by rewrite Hother by lia).
  pick_iteration m ltac:(by rewrite Hother by lia).
  pick_iteration w ltac:(by rewrite Hother by lia).
  pick_iteration h ltac:(by rewrite Hother by lia).
  unfold pool_acc.
  apply foldl_ext. intros p acc _. apply foldl_ext. intros q acc' _.
  rewrite Z.eqb_refl. unfold at4. do 3 f_equal; unfold off4; ring.
Qed.
End SequentialPool.

Section PoolMean.
Context {F : Type} `{ScalarField F}.
Add Ring scalar_ring_pool : scalar_ring.

Lemma fsum_div n (t : Z → F) (d : F) :
  fsum n (λ k, fdiv (t k) d) = fmul (finv d) (fsum n t).
Proof.
  rewrite <- (fsum_ext n (λ k, fmul (t k) (finv d))).
  - rewrite fsum_mul_r. ring.
  - intros k _. by rewrite scalar_div.
Qed.

Lemma pool_acc_mean (X : list F) xd ps n h w m (y : F) :
  pool_acc X xd ps n h w m y = fadd y (window_mean X xd ps n h w m).
Proof.
  unfold pool_acc, window_mean.
  set (d := fmul (fmul f1 (of_int ps)) (of_int ps)).
  replace (fmul (of_int ps) (of_int ps)) with d by (unfold d; ring).
  rewrite scalar_div.
  replace (fmul f1 (finv d)) with (finv d) by ring.
  transitivity (fadd y (fsum ps (λ p, fsum ps (λ q,
    fdiv (at4 X xd n (ps * h + p) (ps * w + q) m) d)))).
  - unfold fsum.
    rewrite <- (foldl_fadd (λ p, foldl _ f0 (range 0 ps))).
    apply foldl_ext. intros p acc _. apply foldl_fadd.
  - f_equal.
    rewrite (fsum_ext ps _ (λ p, fmul (finv d)
               (fsum ps (λ q, at4 X xd n (ps * h + p) (ps * w + q) m)))).
    + rewrite <- (fsum_ext ps (λ p, fmul (fsum ps (λ q,
                 at4 X xd n (ps * h + p) (ps * w + q) m)) (finv d))).
      * rewrite fsum_mul_r. ring.
      * intros p _. ring.
    + intros p _. apply fsum_div.
Qed.
End PoolMean.

(** * Loops that compute a value *)

Section ValueLoops.
Context {S : Type}.

Lemma for_total (l : list Z) (body : Z → S → option S) (step : S → Z → S) s :
  (∀ k s, k ∈ l → body k s = Some (step s k)) →
  for_ l body s = Some (foldl step s l).
Proof.
  revert s. induction l as [|k l IH]; intros s Hb; simpl; [done|].
  rewrite Hb by left. simpl. apply IH. intros k' s' Hk'. apply Hb. by right.
Qed.

Lemma for_range_ind (I : Z → S → Prop) n (body : Z → S → option S) s :
  0 ≤ n → I 0 s →
  (∀ k s, 0 ≤ k < n → I k s → ∃ s', body k s = Some s' ∧ I (k + 1) s') →
  ∃ s', for_ (range 0 n) body s = Some s' ∧ I n s'.
Proof.
  intros Hn H0 Hstep.
  assert (∀ m, 0 ≤ m → m ≤ n →
            ∃ s', for_ (range 0 m) body s = Some s' ∧ I m s') as Hgen.
  { intros m Hm. pattern m. apply natlike_ind; [| |exact Hm].
    - intros _. exists s. by rewrite range_nil by lia.
    - intros k Hk IH Hle. destruct IH as (s1 & Hs1 & HI1); [lia|].
      destruct (Hstep k s1) as (s2 & Hs2 & HI2); [lia|done|].
      exists s2. rewrite <- Z.add_1_r, range_snoc, for_app, Hs1 by done.
      simpl. rewrite Hs2. done. }
  apply Hgen; lia.
Qed.
End ValueLoops.

(** * The fully-connected operator *)

Section FullyConnected.
Context {F : Type} `{Scalar F}.
Implicit Types (X W Y : list F) (xd wd yd : dims2).

(** The loop nest shared by the two variants, which differ in what they
    store: the sum, or the sum clamped at zero. *)
Lemma fully_forward_cells (act : F → F) X xd W wd Y :
  shaped2 X xd → shaped2 W wd → e1 xd ≤ e0 wd →
  Z.of_nat (length Y) = e0 xd * e1 wd →
  ∃ Y',
    for_ (range 0 (e0 xd)) (λ i,
     for_ (range 0 (e1 wd)) (λ j Y,
       sum ← for_ (range 0 (e1 xd)) (λ k sum,
                x ← rd X (i * e1 xd + k);
                wv ← rd W (k * e1 wd + j);
                Some (fadd sum (fmul x wv))) f0;
       wr Y (i * e1 wd + j) (act sum))) Y = Some Y'
    ∧ length Y' = length Y
    ∧ ∀ i j, 0 ≤ i < e0 xd → 0 ≤ j < e1 wd →
        get Y' (i * e1 wd + j) =
        act (fsum (e1 xd) (λ k, fmul (at2 X xd i k) (at2 W wd k j))).
Proof.
  intros (? & ? & HX) (? & ? & HW) Hd HY.
  match goal with |- ∃ Y', for_ ?l ?f Y = Some Y' ∧ _ =>
    eassert (cellwise (length Y) (for_ l f) _) as Hc end.
  { eapply cellwise_for; intros i Hi%elem_of_range.
    eapply cellwise_for; intros j Hj%elem_of_range.
    eapply cellwise_bind.
    { apply for_total with
        (step := λ sum k, fadd sum (fmul (at2 X xd i k) (at2 W wd k j))).
      intros k s Hk%elem_of_range.
      unfold at2. rewrite !rd_get; [done| |].
      - rewrite HX. apply (off2_bound xd); lia.
      - rewrite HW. apply (off2_bound wd); lia. }
    apply cellwise_write. rewrite HY. apply (lin_bound); lia. }
  destruct (Hc Y eq_refl) as (Y' & HY' & Hlen & Hrd).
  exists Y'. split_and!; [done..|].
  intros i j Hi Hj.
  pose proof (lin_bound i j _ _ Hi Hj) as Hij.
  rewrite <- HY in Hij. apply rd_get, Hrd, get_rd in Hij. rewrite Hij.
  clear Hij Hrd Hc HY'.
  generalize (get Y (i * e1 wd + j)). intros y.
  assert (∀ i' j', 0 ≤ j' < e1 wd → (i' ≠ i ∨ j' ≠ j) →
            (i * e1 wd + j =? i' * e1 wd + j') = false) as Hother.
  { intros i' j' ? Hne. apply Z.eqb_neq. intros Heq.
    apply lin_inj in Heq; lia. }
  pick_iteration i ltac:(by rewrite Hother by lia).
  pick_iteration j ltac:(by rewrite Hother by lia).
  by rewrite Z.eqb_refl.
Qed.
End FullyConnected.

(** * The argmax classifier *)

Section Argmax.
Context {F : Type} `{ScalarOrder F}.
Implicit Types (X : list F) (xd : dims2).

(** The scan of one row: it ends on the first column that holds a maximum
    of the row. *)
Lemma argmax_row X xd i :
  shaped2 X xd → 0 ≤ i < e0 xd → 1 ≤ e1 xd →
  ∃ js,
    for_ (range 0 (e1 xd)) (λ j '(max_idx, max),
      elem ← rd X (i * e1 xd + j);
      if flt max elem then Some (j, elem) else Some (max_idx, max))
      (0, at2 X xd i 0) = Some (js, at2 X xd i js)
    ∧ row_max X xd i js
    ∧ ∀ j, row_max X xd i j → js ≤ j.
Proof.
  intros (? & ? & HX) Hi HC.
  set (x := at2 X xd i).
  set (I := λ (k : Z) (s : Z * F),
    0 ≤ s.1 ∧ (s.1 < k ∨ s.1 = 0) ∧ s.2 = x s.1
    ∧ (∀ j, 0 ≤ j < k → flt s.2 (x j) = false)
    ∧ (∀ j, 0 ≤ j < s.1 → flt (x j) s.2 = true)).
  destruct (for_range_ind I (e1 xd)
    (λ j '(max_idx, max),
      elem ← rd X (i * e1 xd + j);
      if flt max elem then Some (j, elem) else Some (max_idx, max))
    (0, x 0)) as ([js mx] & Hfor & HI).
  - lia.
  - unfold I; simpl. split_and!; [lia|lia|done|intros; lia|intros; lia].
  - intros k [mi m] Hk (Hmi & Hlt & Hm & Hall & Hbefore); simpl in *.
    rewrite rd_get by (rewrite HX; apply (off2_bound xd); lia).
    fold (off2 xd i k). fold (at2 X xd i k). fold (x k). simpl.
    destruct (flt m (x k)) eqn:Hcmp.
    + eexists. split; [done|]. unfold I; simpl. split_and!; [lia|lia|done| |].
      * intros j Hj. destruct (decide (j = k)) as [->|Hne].
        { apply flt_irrefl. }
        destruct (flt (x k) (x j)) eqn:Hkj; [|done].
        rewrite <- (Hall j) by lia. symmetry. by apply flt_trans with (x k).
      * intros j Hj. destruct (flt (x j) m) eqn:Hjm.
        { by apply flt_trans with m. }
        rewrite (flt_connex (x j) m); [done..|]. apply Hall. lia.
    + eexists. split; [done|]. unfold I; simpl. split_and!; [lia|lia|done| |done].
      intros j Hj. destruct (decide (j = k)) as [->|Hne]; [done|].
      apply Hall. lia.
  - destruct HI as (Hjs & Hlt & Hm & Hall & Hbefore); simpl in *. subst mx.
    exists js. split_and!; [done| |].
    + split; [lia|]. exact Hall.
    + intros j [Hj Hmax]. destruct (Z.le_gt_cases js j) as [|Hgt]; [done|].
      specialize (Hbefore j). specialize (Hmax js). fold x in Hmax.
      rewrite Hbefore in Hmax by lia. discriminate Hmax; lia.
Qed.

Lemma argmax_rows X xd (Y : list Z) :
  shaped2 X xd → 1 ≤ e1 xd → e0 xd ≤ Z.of_nat (length Y) →
  ∃ Y', Sequential.argmax X xd Y = Some Y'
        ∧ length Y' = length Y
        ∧ ∀ i, 0 ≤ i < e0 xd →
            ∃ js, rd Y' i = Some js ∧ row_max X xd i js
                  ∧ ∀ j, row_max X xd i j → js ≤ j.
Proof.
  intros HX HC HY.
  set (pick := λ i, default 0 (fst <$>
    for_ (range 0 (e1 xd)) (λ j '(max_idx, max),
      elem ← rd X (i * e1 xd + j);
      if flt max elem then Some (j, elem) else Some (max_idx, max))
      (0, at2 X xd i 0))).
  assert (cellwise (length Y) (λ Y, Sequential.argmax X xd Y)
            (λ j v, foldl (λ v i, if j =? i then pick i else v) v
                          (range 0 (e0 xd)))) as Hc.
  { unfold Sequential.argmax.
    apply (cellwise_for _ _ _ (λ i j v, if j =? i then pick i else v)).
    intros i Hi%elem_of_range. cbv zeta.
    destruct (argmax_row X xd i HX Hi HC) as (js & Hfor & _).
    destruct HX as (? & ? & HX).
    eapply cellwise_bind.
    { apply rd_get. rewrite HX. replace (i * e1 xd) with (off2 xd i 0)
        by (unfold off2; lia). apply (off2_bound xd); lia. }
    fold (off2 xd i 0) (at2 X xd i 0) in Hfor.
    replace (get X (i * e1 xd)) with (at2 X xd i 0)
      by (unfold at2, off2; f_equal; lia).
    eapply cellwise_bind; [exact Hfor|].
    unfold pick. rewrite Hfor. simpl. apply cellwise_write. lia. }
  destruct (Hc Y eq_refl) as (Y' & HY' & Hlen & Hrd).
  exists Y'. split_and!; [done..|].
  intros i Hi.
  destruct (rd_is_Some Y i) as [y Hy]; [lia|].
  apply Hrd in Hy. rewrite Hy.
  destruct (argmax_row X xd i HX Hi HC) as (js & Hfor & Hmax & Hfirst).
  exists js. split_and!; [|done..]. f_equal.
  pick_iteration i ltac:(destruct (Z.eqb_spec i k); [congruence|done]).
  rewrite Z.eqb_refl. unfold pick. by rewrite Hfor.
Qed.
End Argmax.

Section ZipFacts.
Context {F : Type} `{Scalar F}.


End ZipFacts.

(** An offset into a [rows]×[J] matrix names a row and a column. *)
Lemma off2_split J rows idx :
  0 ≤ idx < rows * J → 0 ≤ rows →
  ∃ i j, idx = i * J + j ∧ 0 ≤ i < rows ∧ 0 ≤ j < J.
Proof.
  intros Hidx Hrows.
  assert (0 < J) as HJ by nia.
  exists (idx `div` J), (idx `mod` J).
  pose proof (Z.div_mod idx J ltac:(lia)).
  pose proof (Z.mod_pos_bound idx J HJ).
  split_and!; [lia| |nia|lia|lia].
  apply Z.div_pos; lia.
Qed.

(** An offset into a tensor names a cell. *)
Lemma off4_split dims idx :
  0 ≤ d0 dims → 0 ≤ d1 dims → 0 ≤ d2 dims →
  0 ≤ idx < size4 dims →
  ∃ i0 i1 i2 i3,
    idx = off4 dims i0 i1 i2 i3
    ∧ 0 ≤ i0 < d0 dims ∧ 0 ≤ i1 < d1 dims ∧ 0 ≤ i2 < d2 dims ∧ 0 ≤ i3 < d3 dims.
Proof.
  intros H0 H1 H2 Hidx. unfold size4 in Hidx.
  assert (0 ≤ d0 dims * d1 dims) as H01 by (apply Z.mul_nonneg_nonneg; lia).
  assert (0 ≤ d0 dims * d1 dims * d2 dims) as H012
    by (apply Z.mul_nonneg_nonneg; lia).
  destruct (off2_split _ _ idx Hidx H012) as (a & i3 & -> & Ha & Hi3).
  destruct (off2_split _ _ a Ha H01) as (b & i2 & -> & Hb & Hi2).
  destruct (off2_split _ _ b Hb H0) as (i0 & i1 & -> & Hi0 & Hi1).
  exists i0, i1, i2, i3. split_and!; (done || lia).
Qed.

Section ZeroBuffers.
Context {F : Type} `{Scalar F}.

End ZeroBuffers.

(** * Grids and blocks *)

Lemma forall_idx_pair {S1 S2 : Type} (d : dim3) (f : dim3 → S1 → option S1)
    (g : dim3 → S2 → option S2) (a : S1) (b : S2) :
  forall_idx d (λ t '(a, b), a' ← f t a; b' ← g t b; Some (a', b')) (a, b) =
  (a' ← forall_idx d f a; b' ← forall_idx d g b; Some (a', b')).
Proof.
  unfold forall_idx.
  rewrite <- (for_pair (range 0 (dz d))
    (λ z, for_ (range 0 (dy d)) (λ y, for_ (range 0 (dx d)) (λ x, f (Dim3 x y z))))
    (λ z, for_ (range 0 (dy d)) (λ y, for_ (range 0 (dx d)) (λ x, g (Dim3 x y z))))).
  apply for_ext. intros z [a1 b1] _.
  rewrite <- (for_pair (range 0 (dy d))
    (λ y, for_ (range 0 (dx d)) (λ x, f (Dim3 x y z)))
    (λ y, for_ (range 0 (dx d)) (λ x, g (Dim3 x y z)))).
  apply for_ext. intros y [a2 b2] _.
  apply (for_pair (range 0 (dx d)) (λ x, f (Dim3 x y z)) (λ x, g (Dim3 x y z))).
Qed.

Lemma cellwise_forall_idx {A : Type} L (d : dim3)
    (body : dim3 → list A → option (list A)) (g : dim3 → Z → A → A) :
  (∀ x y z, 0 ≤ x < dx d → 0 ≤ y < dy d → 0 ≤ z < dz d →
     cellwise L (body (Dim3 x y z)) (g (Dim3 x y z))) →
  cellwise L (forall_idx d body)
    (λ j v, foldl (λ v z, foldl (λ v y, foldl (λ v x, g (Dim3 x y z) j v) v
                    (range 0 (dx d))) v (range 0 (dy d))) v (range 0 (dz d))).
Proof.
  intros Hb. unfold forall_idx.
  apply (cellwise_for L _ _ (λ z j v, foldl (λ v y, foldl (λ v x,
           g (Dim3 x y z) j v) v (range 0 (dx d))) v (range 0 (dy d)))).
  intros z Hz%elem_of_range.
  apply (cellwise_for L _ _ (λ y j v, foldl (λ v x,
           g (Dim3 x y z) j v) v (range 0 (dx d)))).
  intros y Hy%elem_of_range.
  apply (cellwise_for L _ _ (λ x j v, g (Dim3 x y z) j v)).
  intros x Hx%elem_of_range. apply Hb; lia.
Qed.

Lemma forall_idx_ext {S : Type} (d : dim3) (f g : dim3 → S → option S) s :
  (∀ t s, f t s = g t s) → forall_idx d f s = forall_idx d g s.
Proof.
  intros Hfg. unfold forall_idx.
  apply for_ext; intros z s1 _. apply for_ext; intros y s2 _.
  apply for_ext; intros x s3 _. apply Hfg.
Qed.

(** * The tiled matrix multiply *)

Section TiledMultiply.
Context {F : Type} `{Scalar F}.
Variables (A B : list F) (nCr n nCc : Z).
Hypothesis HA : shaped2 A (Dims2 nCr n).
Hypothesis HB : shaped2 B (Dims2 n nCc).

Local Abbreviation ad := (Dims2 nCr n).
Local Abbreviation bd := (Dims2 n nCc).
Local Abbreviation blk := (Dim3 TILE_WIDTH TILE_WIDTH 1).
Local Abbreviation tile := (Z.to_nat (TILE_WIDTH * TILE_WIDTH)).

(** After the loads of a phase, the slots that the guards let through hold
    the elements of [A] and [B] of this phase; the other slots keep whatever
    they held. *)
Lemma matrixMultiplyShared_load_tiles (b : dim3) ph (Ads Bds : list F) :
  length Ads = tile → length Bds = tile → 0 ≤ dx b → 0 ≤ dy b → 0 ≤ ph →
  ∃ Ads' Bds',
    forall_idx blk (λ t,
      Cuda.matrixMultiplyShared_load b blk t A B n n nCc nCr nCc ph) (Ads, Bds)
    = Some (Ads', Bds')
    ∧ length Ads' = tile ∧ length Bds' = tile
    ∧ (∀ ty tx, 0 ≤ ty < TILE_WIDTH → 0 ≤ tx < TILE_WIDTH →
         dy b * TILE_WIDTH + ty < nCr → tx + ph * TILE_WIDTH < n →
         get Ads' (ty * TILE_WIDTH + tx)
         = at2 A ad (dy b * TILE_WIDTH + ty) (tx + ph * TILE_WIDTH))
    ∧ (∀ ty tx, 0 ≤ ty < TILE_WIDTH → 0 ≤ tx < TILE_WIDTH →
         dx b * TILE_WIDTH + tx < nCc → ty + ph * TILE_WIDTH < n →
         get Bds' (ty * TILE_WIDTH + tx)
         = at2 B bd (ty + ph * TILE_WIDTH) (dx b * TILE_WIDTH + tx)).
Proof.
  intros HAds HBds Hbx Hby Hph.
  destruct HA as (HnCr & Hn & HAlen), HB as (_ & HnCc & HBlen).
  simpl in HnCr, Hn, HnCc.
  set (condA := λ t : dim3,
    (dy b * TILE_WIDTH + dy t <? nCr) && (dx t + ph * TILE_WIDTH <? n)).
  set (condB := λ t : dim3,
    (dx b * TILE_WIDTH + dx t <? nCc) && (dy t + ph * TILE_WIDTH <? n)).
  set (slot := λ t : dim3, dy t * TILE_WIDTH + dx t).
  set (fA := λ (t : dim3) (Ads : list F),
    if condA t
    then a ← rd A ((dy b * TILE_WIDTH + dy t) * n + dx t + ph * TILE_WIDTH);
         wr Ads (slot t) a
    else Some Ads).
  set (fB := λ (t : dim3) (Bds : list F),
    if condB t
    then v ← rd B ((dy t + ph * TILE_WIDTH) * nCc + (dx b * TILE_WIDTH + dx t));
         wr Bds (slot t) v
    else Some Bds).
  set (gA := λ (t : dim3) (j : Z) (v : F),
    if condA t
    then if j =? slot t
         then at2 A ad (dy b * TILE_WIDTH + dy t) (dx t + ph * TILE_WIDTH)
         else v
    else v).
  set (gB := λ (t : dim3) (j : Z) (v : F),
    if condB t
    then if j =? slot t
         then at2 B bd (dy t + ph * TILE_WIDTH) (dx b * TILE_WIDTH + dx t)
         else v
    else v).
  assert (∀ t, 0 ≤ dx t < TILE_WIDTH → 0 ≤ dy t < TILE_WIDTH →
            0 ≤ slot t < Z.of_nat tile) as Hslot.
  { intros t Hx Hy. unfold slot, TILE_WIDTH in *. lia. }
  pose proof (cellwise_forall_idx tile blk fA gA) as HcA. cbn [dx dy dz] in HcA.
  lapply HcA; clear HcA; [intros HcA|].
  2:{ intros x y z Hx Hy Hz.
    unfold fA, gA. destruct (condA (Dim3 x y z)) eqn:Hc; [|apply cellwise_skip].
    unfold condA in Hc. simpl in Hc. apply andb_true_iff in Hc as [Hr Hk].
    apply Z.ltb_lt in Hr, Hk. simpl.
    eapply cellwise_bind.
    { apply rd_get. rewrite HAlen.
      replace (_ + x + _) with (off2 ad (dy b * TILE_WIDTH + y) (x + ph * TILE_WIDTH))
        by (unfold off2; simpl; lia).
      apply (off2_bound ad); simpl; unfold TILE_WIDTH in *; lia. }
    replace (get A _)
      with (at2 A ad (dy b * TILE_WIDTH + y) (x + ph * TILE_WIDTH))
      by (unfold at2, off2; simpl; f_equal; lia).
    apply cellwise_write. apply (Hslot (Dim3 x y z)); simpl; lia. }
  pose proof (cellwise_forall_idx tile blk fB gB) as HcB. cbn [dx dy dz] in HcB.
  lapply HcB; clear HcB; [intros HcB|].
  2:{ intros x y z Hx Hy Hz.
    unfold fB, gB. destruct (condB (Dim3 x y z)) eqn:Hc; [|apply cellwise_skip].
    unfold condB in Hc. simpl in Hc. apply andb_true_iff in Hc as [Hr Hk].
    apply Z.ltb_lt in Hr, Hk. simpl.
    eapply cellwise_bind.
    { apply rd_get. rewrite HBlen.
      apply (off2_bound bd); simpl; unfold TILE_WIDTH in *; lia. }
    apply cellwise_write. apply (Hslot (Dim3 x y z)); simpl; lia. }
  destruct (HcA Ads HAds) as (Ads' & HAds' & HlenA & HrdA).
  destruct (HcB Bds HBds) as (Bds' & HBds' & HlenB & HrdB).
  exists Ads', Bds'. split_and!; [|done|done| |].
  - rewrite (forall_idx_ext blk _
      (λ t '(a, b), a' ← fA t a; b' ← fB t b; Some (a', b'))).
    + rewrite forall_idx_pair, HAds', HBds'. done.
    + intros t [a c]. reflexivity.
  - intros ty tx Hty Htx Hr Hk.
    destruct (rd_is_Some Ads (ty * TILE_WIDTH + tx)) as [v Hv].
    { rewrite HAds. apply (Hslot (Dim3 tx ty 0)); simpl; lia. }
    apply HrdA, get_rd in Hv. rewrite Hv.
    assert (∀ x y (u : F), 0 ≤ x < TILE_WIDTH → 0 ≤ y < TILE_WIDTH →
              (x ≠ tx ∨ y ≠ ty) → gA (Dim3 x y 0) (ty * TILE_WIDTH + tx) u = u)
      as Hother.
    { intros x y u Hx Hy Hne. unfold gA, slot. simpl.
      destruct (condA _); [|done].
      destruct (Z.eqb_spec (ty * TILE_WIDTH + tx) (y * TILE_WIDTH + x)); [|done].
      unfold TILE_WIDTH in *. lia. }
    pick_iteration 0 ltac:(lia).
    pick_iteration ty ltac:(apply Hother; lia).
    pick_iteration tx ltac:(apply Hother; lia).
    unfold gA, condA, slot. simpl.
    rewrite (proj2 (Z.ltb_lt _ _) Hr), (proj2 (Z.ltb_lt _ _) Hk), Z.eqb_refl.
    done.
  - intros ty tx Hty Htx Hr Hk.
    destruct (rd_is_Some Bds (ty * TILE_WIDTH + tx)) as [v Hv].
    { rewrite HBds. apply (Hslot (Dim3 tx ty 0)); simpl; lia. }
    apply HrdB, get_rd in Hv. rewrite Hv.
    assert (∀ x y (u : F), 0 ≤ x < TILE_WIDTH → 0 ≤ y < TILE_WIDTH →
              (x ≠ tx ∨ y ≠ ty) → gB (Dim3 x y 0) (ty * TILE_WIDTH + tx) u = u)
      as Hother.
    { intros x y u Hx Hy Hne. unfold gB, slot. simpl.
      destruct (condB _); [|done].
      destruct (Z.eqb_spec (ty * TILE_WIDTH + tx) (y * TILE_WIDTH + x)); [|done].
      unfold TILE_WIDTH in *. lia. }
    pick_iteration 0 ltac:(lia).
    pick_iteration ty ltac:(apply Hother; lia).
    pick_iteration tx ltac:(apply Hother; lia).
    unfold gB, condB, slot. simpl.
    rewrite (proj2 (Z.ltb_lt _ _) Hr), (proj2 (Z.ltb_lt _ _) Hk), Z.eqb_refl.
    done.
Qed.

(** The registers after the dot-product loops of a phase. *)
Lemma matrixMultiplyShared_dots ph (Ads Bds Cval : list F) :
  length Ads = tile → length Bds = tile → length Cval = tile →
  ∃ Cval',
    forall_idx blk (λ t, Cuda.matrixMultiplyShared_dot blk t Ads Bds n n ph) Cval
    = Some Cval'
    ∧ length Cval' = tile
    ∧ ∀ ty tx, 0 ≤ ty < TILE_WIDTH → 0 ≤ tx < TILE_WIDTH →
        get Cval' (ty * TILE_WIDTH + tx) =
        foldl (λ acc dot,
                 if (dot + ph * TILE_WIDTH <? n) && (dot + ph * TILE_WIDTH <? n)
                 then fadd acc (fmul (get Ads (ty * TILE_WIDTH + dot))
                                     (get Bds (dot * TILE_WIDTH + tx)))
                 else acc)
              (get Cval (ty * TILE_WIDTH + tx)) (range 0 TILE_WIDTH).
Proof.
  intros HAds HBds HCval.
  set (guard := λ dot, (dot + ph * TILE_WIDTH <? n) && (dot + ph * TILE_WIDTH <? n)).
  set (g := λ (t : dim3) (j : Z) (v : F),
    foldl (λ v dot,
             if guard dot
             then if j =? dy t * TILE_WIDTH + dx t
                  then fadd v (fmul (get Ads (dy t * TILE_WIDTH + dot))
                                    (get Bds (dot * TILE_WIDTH + dx t)))
                  else v
             else v) v (range 0 TILE_WIDTH)).
  pose proof (cellwise_forall_idx tile blk
    (λ t, Cuda.matrixMultiplyShared_dot blk t Ads Bds n n ph) g) as Hc.
  cbn [dx dy dz] in Hc.
  lapply Hc; clear Hc; [intros Hc|].
  2:{ intros x y z Hx Hy Hz. unfold Cuda.matrixMultiplyShared_dot, g.
      cbn [dx dy dz].
      apply (cellwise_for tile _ _ (λ dot j v,
        if guard dot
        then if j =? y * TILE_WIDTH + x
             then fadd v (fmul (get Ads (y * TILE_WIDTH + dot))
                               (get Bds (dot * TILE_WIDTH + x)))
             else v
        else v)).
      intros dot Hdot%elem_of_range. fold (guard dot).
      destruct (guard dot); [|apply cellwise_skip]. cbv zeta.
      rewrite (rd_get Ads), (rd_get Bds)
        by (rewrite ?HAds, ?HBds; unfold TILE_WIDTH in *; lia).
      simpl.
      apply (cellwise_update tile (y * TILE_WIDTH + x)
               (λ c, fadd c (fmul (get Ads (y * TILE_WIDTH + dot))
                                  (get Bds (dot * TILE_WIDTH + x))))).
      unfold TILE_WIDTH in *. lia. }
  destruct (Hc Cval HCval) as (Cval' & HCval' & Hlen & Hrd).
  exists Cval'. split_and!; [done..|].
  intros ty tx Hty Htx.
  destruct (rd_is_Some Cval (ty * TILE_WIDTH + tx)) as [v Hv].
  { rewrite HCval. unfold TILE_WIDTH in *. lia. }
  rewrite (get_rd _ _ _ Hv). apply Hrd, get_rd in Hv. rewrite Hv.
  assert (∀ x y (u : F), 0 ≤ x < TILE_WIDTH → 0 ≤ y < TILE_WIDTH →
            (x ≠ tx ∨ y ≠ ty) → g (Dim3 x y 0) (ty * TILE_WIDTH + tx) u = u)
    as Hother.
  { intros x y u Hx Hy Hne. unfold g. cbn [dx dy dz].
    apply foldl_noop. intros dot w _. destruct (guard dot); [|done].
    destruct (Z.eqb_spec (ty * TILE_WIDTH + tx) (y * TILE_WIDTH + x)); [|done].
    unfold TILE_WIDTH in *. lia. }
  assert (∀ u : F, g (Dim3 tx ty 0) (ty * TILE_WIDTH + tx) u =
            foldl (λ acc dot,
                     if guard dot
                     then fadd acc (fmul (get Ads (ty * TILE_WIDTH + dot))
                                         (get Bds (dot * TILE_WIDTH + tx)))
                     else acc) u (range 0 TILE_WIDTH)) as Hself.
  { intros u. unfold g. cbn [dx dy dz]. apply foldl_ext. intros dot acc _.
    by rewrite Z.eqb_refl. }
  clearbody g.
  pick_iteration 0 ltac:(lia).
  pick_iteration ty ltac:(apply Hother; lia).
  pick_iteration tx ltac:(apply Hother; lia).
  apply Hself.
Qed.

(** The sum of the first [m] products of row [i] of [A] and column [j] of
    [B]. *)
Local Abbreviation psum i j m :=
  (fsum m (λ k, fmul (at2 A ad i k) (at2 B bd k j))).

Lemma fsum_extend (t : Z → F) a m :
  0 ≤ a → 0 ≤ m →
  fsum (a + m) t = foldl (λ acc d, fadd acc (t (d + a))) (fsum a t) (range 0 m).
Proof.
  intros Ha Hm. unfold fsum at 1. rewrite range_app, foldl_app by done.
  fold (fsum a t). unfold range.
  replace (seqZ a (a + m - a)) with (Z.add a <$> seqZ 0 (m - 0))
    by (rewrite fmap_add_seqZ; f_equal; lia).
  rewrite foldl_fmap. apply foldl_ext. intros d acc _. do 2 f_equal. lia.
Qed.

Lemma phase_count :
  0 ≤ n →
  0 ≤ (n - 1) ÷ TILE_WIDTH + 1
  ∧ n ≤ ((n - 1) ÷ TILE_WIDTH + 1) * TILE_WIDTH
  ∧ ((n - 1) ÷ TILE_WIDTH) * TILE_WIDTH ≤ n.
Proof.
  intros Hn. destruct (decide (n = 0)) as [->|Hne]; [by vm_compute|].
  rewrite Z.quot_div_nonneg by (unfold TILE_WIDTH; lia).
  unfold TILE_WIDTH.
  pose proof (Z.div_mod (n - 1) 16 ltac:(lia)).
  pose proof (Z.mod_pos_bound (n - 1) 16 ltac:(lia)). lia.
Qed.

(** One phase extends the partial sums held by the threads that own a cell
    of the output; what the slots outside the operands held plays no part. *)
Lemma matrixMultiplyShared_phase_step (b : dim3) ph (Ads Bds Cval : list F) :
  length Ads = tile → length Bds = tile → length Cval = tile →
  0 ≤ dx b → 0 ≤ dy b → 0 ≤ ph → ph * TILE_WIDTH ≤ n →
  (∀ ty tx, 0 ≤ ty < TILE_WIDTH → 0 ≤ tx < TILE_WIDTH →
     dy b * TILE_WIDTH + ty < nCr → dx b * TILE_WIDTH + tx < nCc →
     get Cval (ty * TILE_WIDTH + tx)
     = psum (dy b * TILE_WIDTH + ty) (dx b * TILE_WIDTH + tx)
            (Z.min (ph * TILE_WIDTH) n)) →
  ∃ Ads' Bds' Cval',
    Cuda.matrixMultiplyShared_phase b blk A B n n nCc nCr nCc ph (Ads, Bds, Cval)
    = Some (Ads', Bds', Cval')
    ∧ length Ads' = tile ∧ length Bds' = tile ∧ length Cval' = tile
    ∧ ∀ ty tx, 0 ≤ ty < TILE_WIDTH → 0 ≤ tx < TILE_WIDTH →
        dy b * TILE_WIDTH + ty < nCr → dx b * TILE_WIDTH + tx < nCc →
        get Cval' (ty * TILE_WIDTH + tx)
        = psum (dy b * TILE_WIDTH + ty) (dx b * TILE_WIDTH + tx)
               (Z.min ((ph + 1) * TILE_WIDTH) n).
Proof.
  intros HAds HBds HCval Hbx Hby Hph Hle Hinv.
  destruct (matrixMultiplyShared_load_tiles b ph Ads Bds)
    as (Ads' & Bds' & Hload & HlenA & HlenB & HA' & HB'); [done..|].
  destruct (matrixMultiplyShared_dots ph Ads' Bds' Cval)
    as (Cval' & Hdots & HlenC & HC'); [done..|].
  exists Ads', Bds', Cval'. split_and!; [|done..|].
  { unfold Cuda.matrixMultiplyShared_phase. rewrite Hload. simpl.
    rewrite Hdots. done. }
  intros ty tx Hty Htx Hr Hc. rewrite HC', Hinv by done.
  set (i := dy b * TILE_WIDTH + ty). set (j := dx b * TILE_WIDTH + tx).
  set (m := Z.min TILE_WIDTH (n - ph * TILE_WIDTH)).
  assert (0 ≤ m ≤ TILE_WIDTH) as Hm by (unfold m, TILE_WIDTH in *; lia).
  replace (Z.min (ph * TILE_WIDTH) n) with (ph * TILE_WIDTH) by lia.
  replace (Z.min ((ph + 1) * TILE_WIDTH) n) with (ph * TILE_WIDTH + m)
    by (unfold m, TILE_WIDTH in *; lia).
  rewrite fsum_extend by (unfold TILE_WIDTH in *; lia).
  rewrite (range_split m TILE_WIDTH), foldl_app by lia.
  rewrite (foldl_noop _ (range m _)).
  - apply foldl_ext. intros d acc Hd%elem_of_range.
    assert (d + ph * TILE_WIDTH < n) as Hk by (unfold m in *; lia).
    rewrite (proj2 (Z.ltb_lt _ _) Hk). simpl.
    rewrite HA', HB' by (done || unfold TILE_WIDTH in *; lia). done.
  - intros d acc Hd%elem_of_range.
    assert (¬ d + ph * TILE_WIDTH < n) as Hk by (unfold m in *; lia).
    apply Z.ltb_nlt in Hk. by rewrite Hk.
Qed.

(** All phases of a block: the threads that own a cell of the output end
    with the full dot product in their register. *)
Lemma matrixMultiplyShared_phases (b : dim3) (Ads Bds : list F) :
  length Ads = tile → length Bds = tile → 0 ≤ dx b → 0 ≤ dy b →
  ∃ st,
    for_ (range 0 ((n - 1) ÷ TILE_WIDTH + 1))
      (Cuda.matrixMultiplyShared_phase b blk A B n n nCc nCr nCc)
      (Ads, Bds, replicate tile f0) = Some st
    ∧ length st.2 = tile
    ∧ ∀ ty tx, 0 ≤ ty < TILE_WIDTH → 0 ≤ tx < TILE_WIDTH →
        dy b * TILE_WIDTH + ty < nCr → dx b * TILE_WIDTH + tx < nCc →
        get st.2 (ty * TILE_WIDTH + tx)
        = dot A ad B bd (dy b * TILE_WIDTH + ty) (dx b * TILE_WIDTH + tx).
Proof.
  intros HAds HBds Hbx Hby.
  assert (0 ≤ n) as Hn by (destruct HA as (_ & Hn & _); exact Hn).
  destruct (phase_count Hn) as (HP0 & HPn & HPlast).
  set (I := λ (ph : Z) (st : list F * list F * list F),
    length st.1.1 = tile ∧ length st.1.2 = tile ∧ length st.2 = tile
    ∧ ∀ ty tx, 0 ≤ ty < TILE_WIDTH → 0 ≤ tx < TILE_WIDTH →
        dy b * TILE_WIDTH + ty < nCr → dx b * TILE_WIDTH + tx < nCc →
        get st.2 (ty * TILE_WIDTH + tx)
        = psum (dy b * TILE_WIDTH + ty) (dx b * TILE_WIDTH + tx)
               (Z.min (ph * TILE_WIDTH) n)).
  destruct (for_range_ind I ((n - 1) ÷ TILE_WIDTH + 1)
              (Cuda.matrixMultiplyShared_phase b blk A B n n nCc nCr nCc)
              (Ads, Bds, replicate tile f0)) as (st & Hst & HI).
  - done.
  - unfold I. cbn [fst snd]. split_and!; [done|done|by rewrite length_replicate|].
    intros ty tx Hty Htx _ _.
    replace (Z.min (0 * TILE_WIDTH) n) with 0 by lia.
    rewrite fsum_nil by done. unfold get, rd.
    destruct (Z.ltb_spec (ty * TILE_WIDTH + tx) 0);
      [unfold TILE_WIDTH in *; lia|].
    rewrite lookup_replicate_2; [done|]. unfold TILE_WIDTH in *. lia.
  - intros ph [[Ads1 Bds1] Cval1] Hph (Hl1 & Hl2 & Hl3 & Hinv).
    cbn [fst snd] in *.
    destruct (matrixMultiplyShared_phase_step b ph Ads1 Bds1 Cval1)
      as (Ads2 & Bds2 & Cval2 & Hstep & Hl1' & Hl2' & Hl3' & Hinv');
      [done|done|done|done|done|lia| |done|].
    { unfold TILE_WIDTH in *. lia. }
    exists (Ads2, Bds2, Cval2). split; [done|]. unfold I. cbn [fst snd].
    split_and!; done.
  - exists st. split; [done|]. destruct HI as (_ & _ & Hl3 & Hinv).
    split; [done|]. intros ty tx Hty Htx Hr Hc. rewrite Hinv by done.
    unfold dot. cbn [e0 e1]. f_equal. lia.
Qed.

(** What one thread stores at the end of the kernel. *)
Local Abbreviation store C_base := (λ (b t : dim3) (j : Z) (v : F),
  if (dy b * TILE_WIDTH + dy t <? nCr) && (dx b * TILE_WIDTH + dx t <? nCc)
  then if j =? C_base + ((dy b * TILE_WIDTH + dy t) * nCc
                         + (dx b * TILE_WIDTH + dx t))
       then relu (dot A ad B bd (dy b * TILE_WIDTH + dy t)
                                (dx b * TILE_WIDTH + dx t))
       else v
  else v).

Lemma matrixMultiplyShared_block_cells (b : dim3) (sh : list F * list F)
    C_base (L : nat) :
  length sh.1 = tile → length sh.2 = tile → 0 ≤ dx b → 0 ≤ dy b →
  0 ≤ C_base → C_base + nCr * nCc ≤ Z.of_nat L →
  cellwise L
    (Cuda.matrixMultiplyShared_block b blk sh A B C_base nCr n n nCc nCr nCc)
    (λ j v,
       foldl (λ v z, foldl (λ v y, foldl (λ v x,
         store C_base b (Dim3 x y z) j v) v (range 0 TILE_WIDTH))
         v (range 0 TILE_WIDTH)) v (range 0 1)).
Proof.
  intros Hsh1 Hsh2 Hbx Hby HCb HL.
  destruct (matrixMultiplyShared_phases b sh.1 sh.2) as (st & Hst & Hlen & Hdot);
    [done..|].
  unfold Cuda.matrixMultiplyShared_block. cbn [dx dy dz].
  change (Z.to_nat (TILE_WIDTH * TILE_WIDTH)) with tile.
  eapply cellwise_bind; [exact Hst|].
  pose proof (cellwise_forall_idx L blk
    (λ threadIdx C,
       if (dy b * TILE_WIDTH + dy threadIdx <? nCr)
          && (dx b * TILE_WIDTH + dx threadIdx <? nCc)
       then Cval ← rd st.2 (dy threadIdx * TILE_WIDTH + dx threadIdx);
            wr C (C_base + ((dy b * TILE_WIDTH + dy threadIdx) * nCc
                            + (dx b * TILE_WIDTH + dx threadIdx)))
               (if flt Cval f0 then f0 else Cval)
       else Some C)
    (store C_base b)) as Hc.
  cbn [dx dy dz] in Hc. apply Hc. clear Hc.
  intros x y z Hx Hy Hz. cbn [dx dy dz].
  destruct ((dy b * TILE_WIDTH + y <? nCr) && (dx b * TILE_WIDTH + x <? nCc))
    eqn:Hvalid; [|apply cellwise_skip].
  apply andb_true_iff in Hvalid as [Hr Hc]. apply Z.ltb_lt in Hr, Hc.
  eapply cellwise_bind.
  { apply rd_get. rewrite Hlen. unfold TILE_WIDTH in *. lia. }
  rewrite Hdot by done. apply cellwise_write.
  pose proof (lin_bound (dy b * TILE_WIDTH + y) (dx b * TILE_WIDTH + x) nCr nCc).
  unfold TILE_WIDTH in *. lia.
Qed.

(** The kernel over a grid that covers the output: every cell of the output
    holds the clamped dot product, and the rest of the buffer is as it
    was. *)
Lemma matrixMultiplyShared_cells (gx gy : Z) (shared : dim3 → list F * list F)
    C_base (C : list F) :
  (∀ b, length (shared b).1 = tile ∧ length (shared b).2 = tile) →
  nCc ≤ gx * TILE_WIDTH → nCr ≤ gy * TILE_WIDTH →
  0 ≤ C_base → C_base + nCr * nCc ≤ Z.of_nat (length C) →
  ∃ C',
    Cuda.matrixMultiplyShared (Dim3 gx gy 1) blk shared A B C_base
      nCr n n nCc nCr nCc C = Some C'
    ∧ length C' = length C
    ∧ (∀ i j, 0 ≤ i < nCr → 0 ≤ j < nCc →
         get C' (C_base + (i * nCc + j)) = relu (dot A ad B bd i j))
    ∧ (∀ k, ¬ (C_base ≤ k < C_base + nCr * nCc) → get C' k = get C k).
Proof.
  intros Hshared Hgx Hgy HCb HC.
  set (g := λ (b : dim3) (j : Z) (v : F),
    foldl (λ v z, foldl (λ v y, foldl (λ v x,
      store C_base b (Dim3 x y z) j v) v (range 0 TILE_WIDTH))
      v (range 0 TILE_WIDTH)) v (range 0 1)).
  pose proof (cellwise_forall_idx (length C) (Dim3 gx gy 1)
    (λ blockIdx, Cuda.matrixMultiplyShared_block blockIdx blk (shared blockIdx)
                   A B C_base nCr n n nCc nCr nCc) g) as Hc.
  cbn [dx dy dz] in Hc.
  lapply Hc; clear Hc; [intros Hc|].
  2:{ intros x y z Hx Hy Hz. destruct (Hshared (Dim3 x y z)) as [Hs1 Hs2].
      apply (matrixMultiplyShared_block_cells (Dim3 x y z)); cbn [dx dy dz];
        (done || lia). }
  destruct (Hc C eq_refl) as (C' & HC' & Hlen & Hrd).
  exists C'. split_and!; [done|done| |].
  - intros i j Hi Hj.
    pose proof (lin_bound i j nCr nCc Hi Hj) as Hij.
    destruct (rd_is_Some C (C_base + (i * nCc + j))) as [v Hv]; [lia|].
    apply Hrd, get_rd in Hv. rewrite Hv. clear Hv Hrd Hc HC'.
    pose proof (Z.div_mod i 16 ltac:(lia)) as Hdi.
    pose proof (Z.mod_pos_bound i 16 ltac:(lia)) as Hmi.
    pose proof (Z.div_mod j 16 ltac:(lia)) as Hdj.
    pose proof (Z.mod_pos_bound j 16 ltac:(lia)) as Hmj.
    set (qi := i `div` 16) in *. set (ri := i `mod` 16) in *.
    set (qj := j `div` 16) in *. set (rj := j `mod` 16) in *.
    assert (∀ bx by_ tx ty (u : F),
      0 ≤ bx → 0 ≤ by_ → 0 ≤ tx < TILE_WIDTH → 0 ≤ ty < TILE_WIDTH →
      (bx ≠ qj ∨ by_ ≠ qi ∨ tx ≠ rj ∨ ty ≠ ri) →
      store C_base (Dim3 bx by_ 0) (Dim3 tx ty 0) (C_base + (i * nCc + j)) u = u)
      as Hother.
    { intros bx by_ tx ty u Hbx Hby Htx Hty Hne. cbn [dx dy dz].
      destruct (_ && _) eqn:Hvalid; [|done].
      apply andb_true_iff in Hvalid as [Hr Hcc]. apply Z.ltb_lt in Hr, Hcc.
      match goal with |- (if ?a =? ?b then _ else _) = _ =>
        destruct (Z.eqb_spec a b) as [Heq|]; [|done] end.
      exfalso. apply Z.add_reg_l in Heq.
      apply lin_inj in Heq; unfold TILE_WIDTH in *; lia. }
    assert (∀ u : F,
      store C_base (Dim3 qj qi 0) (Dim3 rj ri 0) (C_base + (i * nCc + j)) u
      = relu (dot A ad B bd i j)) as Hself.
    { intros u. cbn [dx dy dz]. unfold TILE_WIDTH.
      replace (qi * 16 + ri) with i by lia. replace (qj * 16 + rj) with j by lia.
      rewrite (proj2 (Z.ltb_lt _ _) (proj2 Hi)), (proj2 (Z.ltb_lt _ _) (proj2 Hj)).
      by rewrite Z.eqb_refl. }
    assert (0 ≤ qi < gy ∧ 0 ≤ qj < gx ∧ 0 ≤ ri < TILE_WIDTH ∧ 0 ≤ rj < TILE_WIDTH)
      as (Hqi & Hqj & Hri & Hrj) by (unfold TILE_WIDTH in *; lia).
    unfold g.
    pick_iteration 0 ltac:(lia).
    pick_iteration qi ltac:(apply Hother; lia).
    pick_iteration qj ltac:(apply Hother; lia).
    pick_iteration 0 ltac:(lia).
    pick_iteration ri ltac:(apply Hother; lia).
    pick_iteration rj ltac:(apply Hother; lia).
    apply Hself.
  - intros k Hk. unfold get. destruct (rd C k) as [v|] eqn:Hv.
    + apply Hrd in Hv. rewrite Hv. simpl. unfold g.
      repeat (apply foldl_noop; intros ? ? ?%elem_of_range).
      cbn [dx dy dz]. destruct (_ && _) eqn:Hvalid; [|done].
      apply andb_true_iff in Hvalid as [Hr Hcc]. apply Z.ltb_lt in Hr, Hcc.
      match goal with |- (if ?a =? ?b then _ else _) = _ =>
        destruct (Z.eqb_spec a b) as [Heq|]; [|done] end.
      exfalso. apply Hk. rewrite Heq.
      match goal with |- _ ≤ _ + (?r * _ + ?c) < _ =>
        pose proof (lin_bound r c nCr nCc) end.
      unfold TILE_WIDTH in *. lia.
    + destruct (rd C' k) as [v'|] eqn:Hv'; [|done].
      apply rd_Some in Hv'. destruct (rd_is_Some C k) as [? ?]; [lia|congruence].
Qed.
End TiledMultiply.

(** * Unrolling and rerolling *)

Section Unroll.
Context {F : Type} `{Scalar F}.
Implicit Types (X W Y : list F).

(** The filter tensor K×K×C×M unrolled into the matrix M×(C·K·K). *)
Lemma unrollFilters_cells C M K W (Wu : list F) :
  shaped4 W (Dims4 K K C M) →
  Z.of_nat (length Wu) = M * C * K * K →
  ∃ Wu',
    launch (Dim3 C 1 1) (Dim3 M 1 1)
      (λ blockIdx threadIdx, Cuda.unrollFilters blockIdx threadIdx C M K W) Wu
    = Some Wu'
    ∧ length Wu' = length Wu
    ∧ ∀ m c p q, 0 ≤ m < M → 0 ≤ c < C → 0 ≤ p < K → 0 ≤ q < K →
        get Wu' (m * (C * K * K) + ((c * K + p) * K + q))
        = at4 W (Dims4 K K C M) p q c m.
Proof.
  intros (HK & _ & HC & HM & HW) HWu. cbn [d0 d1 d2 d3] in *.
  set (wd := Dims4 K K C M). set (ud := Dims4 M C K K).
  set (g := λ (b t : dim3) (j : Z) (v : F),
    foldl (λ v p, foldl (λ v q,
      if j =? off4 ud (dx t) (dx b) p q then at4 W wd p q (dx b) (dx t) else v)
      v (range 0 K)) v (range 0 K)).
  assert (cellwise (length Wu)
    (launch (Dim3 C 1 1) (Dim3 M 1 1)
       (λ blockIdx threadIdx, Cuda.unrollFilters blockIdx threadIdx C M K W))
    (λ j v,
       foldl (λ v bz, foldl (λ v by_, foldl (λ v bx,
         foldl (λ v tz, foldl (λ v ty, foldl (λ v tx,
           g (Dim3 bx by_ bz) (Dim3 tx ty tz) j v)
           v (range 0 M)) v (range 0 1)) v (range 0 1))
         v (range 0 C)) v (range 0 1)) v (range 0 1))) as Hc.
  { unfold launch.
    apply (cellwise_forall_idx (length Wu) (Dim3 C 1 1) _
      (λ b j v, foldl (λ v tz, foldl (λ v ty, foldl (λ v tx,
         g b (Dim3 tx ty tz) j v)
         v (range 0 M)) v (range 0 1)) v (range 0 1))).
    cbn [dx dy dz]. intros bx by_ bz Hbx _ _.
    apply (cellwise_forall_idx (length Wu) (Dim3 M 1 1) _
      (λ t j v, g (Dim3 bx by_ bz) t j v)).
    cbn [dx dy dz]. intros tx ty tz Htx _ _.
    unfold Cuda.unrollFilters, g. cbn [dx dy dz].
    rewrite (proj2 (Z.ltb_lt bx C)), (proj2 (Z.ltb_lt tx M)) by lia.
    cbn [andb].
    apply (cellwise_for _ _ _ (λ p j v, foldl (λ v q,
      if j =? off4 ud tx bx p q then at4 W wd p q bx tx else v)
      v (range 0 K))).
    intros p Hp%elem_of_range.
    apply (cellwise_for _ _ _ (λ q j v,
      if j =? off4 ud tx bx p q then at4 W wd p q bx tx else v)).
    intros q Hq%elem_of_range.
    replace (p * K * C * M + q * C * M + bx * M + tx) with (off4 wd p q bx tx)
      by (unfold off4; simpl; ring).
    replace (tx * C * K * K + bx * K * K + p * K + q) with (off4 ud tx bx p q)
      by (unfold off4; simpl; ring).
    eapply cellwise_bind.
    { apply rd_get. rewrite HW. apply (off4_bound wd); simpl; lia. }
    apply cellwise_write.
    replace (Z.of_nat (length Wu)) with (size4 ud) by (unfold size4; simpl; lia).
    apply (off4_bound ud); simpl; lia. }
  destruct (Hc Wu eq_refl) as (Wu' & HWu' & Hlen & Hrd).
  exists Wu'. split_and!; [done..|].
  intros m c p q Hm Hc' Hp Hq.
  replace (m * (C * K * K) + ((c * K + p) * K + q)) with (off4 ud m c p q)
    by (unfold off4; simpl; ring).
  destruct (rd_is_Some Wu (off4 ud m c p q)) as [v Hv].
  { replace (Z.of_nat (length Wu)) with (size4 ud) by (unfold size4; simpl; lia).
    apply (off4_bound ud); simpl; lia. }
  apply Hrd, get_rd in Hv. rewrite Hv. clear Hv Hrd Hc HWu'.
  assert (∀ m' c' p' q', 0 ≤ c' < C → 0 ≤ p' < K → 0 ≤ q' < K →
            (m' ≠ m ∨ c' ≠ c ∨ p' ≠ p ∨ q' ≠ q) →
            (off4 ud m c p q =? off4 ud m' c' p' q') = false) as Hother.
  { intros m' c' p' q' ? ? ? Hne. apply Z.eqb_neq. intros Heq.
    apply (off4_inj ud) in Heq; simpl; lia. }
  unfold g.
  pick_iteration 0 ltac:(lia).
  pick_iteration 0 ltac:(lia).
  pick_iteration c ltac:(cbn [dx dy dz]; by rewrite Hother by lia).
  pick_iteration 0 ltac:(lia).
  pick_iteration 0 ltac:(lia).
  pick_iteration m ltac:(cbn [dx dy dz]; by rewrite Hother by lia).
  pick_iteration p ltac:(cbn [dx dy dz]; by rewrite Hother by lia).
  pick_iteration q ltac:(cbn [dx dy dz]; by rewrite Hother by lia).
  cbn [dx dy dz]. by rewrite Z.eqb_refl.
Qed.

(** The patches of sample [n] unrolled into the matrix (C·K·K)×(H_out·W_out). *)
Lemma unroll_cells C Ht Wd K n N X (Xu : list F) :
  shaped4 X (Dims4 N Ht Wd C) → 0 ≤ n < N → 0 ≤ K →
  0 ≤ Ht - K + 1 → 0 ≤ Wd - K + 1 →
  Z.of_nat (length Xu) = C * K * K * ((Ht - K + 1) * (Wd - K + 1)) →
  ∃ Xu',
    Cuda.unroll C Ht Wd K n X Xu (Dims4 N Ht Wd C) = Some Xu'
    ∧ length Xu' = length Xu
    ∧ ∀ c p q h w,
        0 ≤ c < C → 0 ≤ p < K → 0 ≤ q < K →
        0 ≤ h < Ht - K + 1 → 0 ≤ w < Wd - K + 1 →
        get Xu' (((c * K + p) * K + q) * ((Ht - K + 1) * (Wd - K + 1))
                 + (h * (Wd - K + 1) + w))
        = at4 X (Dims4 N Ht Wd C) n (h + p) (w + q) c.
Proof.
  intros (HN & HHt & HWd & HC & HX) Hn HK HHo HWo HXu. cbn [d0 d1 d2 d3] in *.
  set (xd := Dims4 N Ht Wd C).
  set (Ho := Ht - K + 1) in *. set (Wo := Wd - K + 1) in *.
  set (idx := λ c p q h w, ((c * K + p) * K + q) * (Ho * Wo) + (h * Wo + w)).
  assert (∀ c p q h w, 0 ≤ c < C → 0 ≤ p < K → 0 ≤ q < K →
            0 ≤ h < Ho → 0 ≤ w < Wo →
            0 ≤ idx c p q h w < Z.of_nat (length Xu)) as Hidx.
  { intros c p q h w Hc Hp Hq Hh Hw. rewrite HXu. unfold idx.
    apply lin_bound; [|by apply lin_bound].
    apply lin_bound; [|done]. by apply lin_bound. }
  assert (∀ c p q h w c' p' q' h' w',
            0 ≤ p < K → 0 ≤ q < K → 0 ≤ h < Ho → 0 ≤ w < Wo →
            0 ≤ p' < K → 0 ≤ q' < K → 0 ≤ h' < Ho → 0 ≤ w' < Wo →
            idx c p q h w = idx c' p' q' h' w' →
            c = c' ∧ p = p' ∧ q = q' ∧ h = h' ∧ w = w') as Hinj.
  { intros c p q h w c' p' q' h' w' Hp Hq Hh Hw Hp' Hq' Hh' Hw' Heq.
    unfold idx in Heq.
    apply lin_inj in Heq as [Hrow Hcol]; [|by apply lin_bound..].
    apply lin_inj in Hcol as [-> ->]; [|done..].
    apply lin_inj in Hrow as [Hrow ->]; [|done..].
    apply lin_inj in Hrow as [-> ->]; done. }
  assert (cellwise (length Xu)
    (λ Xu, Cuda.unroll C Ht Wd K n X Xu xd)
    (λ j v,
       foldl (λ v c, foldl (λ v p, foldl (λ v q, foldl (λ v h, foldl (λ v w,
         if j =? idx c p q h w then at4 X xd n (h + p) (w + q) c else v)
         v (range 0 Wo)) v (range 0 Ho)) v (range 0 K)) v (range 0 K))
         v (range 0 C))) as Hcw.
  { unfold Cuda.unroll. cbv zeta. fold Ho Wo.
    apply (cellwise_for _ _ _ (λ c j v,
      foldl (λ v p, foldl (λ v q, foldl (λ v h, foldl (λ v w,
        if j =? idx c p q h w then at4 X xd n (h + p) (w + q) c else v)
        v (range 0 Wo)) v (range 0 Ho)) v (range 0 K)) v (range 0 K))).
    intros c Hc%elem_of_range.
    apply (cellwise_for _ _ _ (λ p j v,
      foldl (λ v q, foldl (λ v h, foldl (λ v w,
        if j =? idx c p q h w then at4 X xd n (h + p) (w + q) c else v)
        v (range 0 Wo)) v (range 0 Ho)) v (range 0 K))).
    intros p Hp%elem_of_range.
    apply (cellwise_for _ _ _ (λ q j v,
      foldl (λ v h, foldl (λ v w,
        if j =? idx c p q h w then at4 X xd n (h + p) (w + q) c else v)
        v (range 0 Wo)) v (range 0 Ho))).
    intros q Hq%elem_of_range.
    apply (cellwise_for _ _ _ (λ h j v,
      foldl (λ v w,
        if j =? idx c p q h w then at4 X xd n (h + p) (w + q) c else v)
        v (range 0 Wo))).
    intros h Hh%elem_of_range.
    apply (cellwise_for _ _ _ (λ w j v,
      if j =? idx c p q h w then at4 X xd n (h + p) (w + q) c else v)).
    intros w Hw%elem_of_range.
    replace (n * Ht * Wd * C + (h + p) * Wd * C + (w + q) * C + c)
      with (off4 xd n (h + p) (w + q) c) by (unfold off4; simpl; ring).
    replace ((c * (K * K) + p * K + q) * (Ho * Wo) + (h * Wo + w))
      with (idx c p q h w) by (unfold idx; ring).
    eapply cellwise_bind.
    { apply rd_get. rewrite HX. apply (off4_bound xd); simpl; lia. }
    apply cellwise_write. apply Hidx; lia. }
  destruct (Hcw Xu eq_refl) as (Xu' & HXu' & Hlen & Hrd).
  exists Xu'. split_and!; [done..|].
  intros c p q h w Hc Hp Hq Hh Hw. fold (idx c p q h w).
  destruct (rd_is_Some Xu (idx c p q h w)) as [v Hv]; [by apply Hidx|].
  apply Hrd, get_rd in Hv. rewrite Hv. clear Hv Hrd Hcw HXu'.
  assert (∀ c' p' q' h' w',
            0 ≤ p' < K → 0 ≤ q' < K → 0 ≤ h' < Ho → 0 ≤ w' < Wo →
            (c' ≠ c ∨ p' ≠ p ∨ q' ≠ q ∨ h' ≠ h ∨ w' ≠ w) →
            (idx c p q h w =? idx c' p' q' h' w') = false) as Hother.
  { intros c' p' q' h' w' ? ? ? ? Hne. apply Z.eqb_neq. intros Heq.
    apply Hinj in Heq; lia. }
  clearbody idx.
  pick_iteration c ltac:(by rewrite Hother by lia).
  pick_iteration p ltac:(by rewrite Hother by lia).
  pick_iteration q ltac:(by rewrite Hother by lia).
  pick_iteration h ltac:(by rewrite Hother by lia).
  pick_iteration w ltac:(by rewrite Hother by lia).
  by rewrite Z.eqb_refl.
Qed.

(** The unrolled output rerolled into the N×H_out×W_out×M layout. *)
Lemma rerollOutput_cells M N Ho Wo (Yu Y : list F) :
  0 ≤ M → 0 ≤ N → 0 ≤ Ho → 0 ≤ Wo →
  Z.of_nat (length Yu) = M * N * Wo * Ho →
  Z.of_nat (length Y) = M * N * Wo * Ho →
  ∃ Y',
    launch (Dim3 N 1 1) (Dim3 M 1 1)
      (λ blockIdx threadIdx,
         Cuda.rerollOutput blockIdx threadIdx M N Ho Wo Yu) Y = Some Y'
    ∧ length Y' = length Y
    ∧ ∀ n h w m, 0 ≤ n < N → 0 ≤ h < Ho → 0 ≤ w < Wo → 0 ≤ m < M →
        get Y' (off4 (Dims4 N Ho Wo M) n h w m)
        = get Yu (n * Ho * Wo * M + (m * (Ho * Wo) + (h * Wo + w))).
Proof.
  intros HM HN HHo HWo HYu HY.
  set (yd := Dims4 N Ho Wo M). set (ud := Dims4 N M Ho Wo).
  assert (Z.of_nat (length Y) = size4 yd) as HYs
    by (unfold size4; simpl; lia).
  assert (Z.of_nat (length Yu) = size4 ud) as HYus
    by (unfold size4; simpl; lia).
  set (g := λ (b t : dim3) (j : Z) (v : F),
    foldl (λ v h, foldl (λ v w,
      if j =? off4 yd (dx b) h w (dx t)
      then get Yu (off4 ud (dx b) (dx t) h w) else v)
      v (range 0 Wo)) v (range 0 Ho)).
  assert (cellwise (length Y)
    (launch (Dim3 N 1 1) (Dim3 M 1 1)
       (λ blockIdx threadIdx,
          Cuda.rerollOutput blockIdx threadIdx M N Ho Wo Yu))
    (λ j v,
       foldl (λ v bz, foldl (λ v by_, foldl (λ v bx,
         foldl (λ v tz, foldl (λ v ty, foldl (λ v tx,
           g (Dim3 bx by_ bz) (Dim3 tx ty tz) j v)
           v (range 0 M)) v (range 0 1)) v (range 0 1))
         v (range 0 N)) v (range 0 1)) v (range 0 1))) as Hc.
  { unfold launch.
    apply (cellwise_forall_idx (length Y) (Dim3 N 1 1) _
      (λ b j v, foldl (λ v tz, foldl (λ v ty, foldl (λ v tx,
         g b (Dim3 tx ty tz) j v)
         v (range 0 M)) v (range 0 1)) v (range 0 1))).
    cbn [dx dy dz]. intros bx by_ bz Hbx _ _.
    apply (cellwise_forall_idx (length Y) (Dim3 M 1 1) _
      (λ t j v, g (Dim3 bx by_ bz) t j v)).
    cbn [dx dy dz]. intros tx ty tz Htx _ _.
    unfold Cuda.rerollOutput, g. cbn [dx dy dz].
    rewrite (proj2 (Z.ltb_lt bx N)), (proj2 (Z.ltb_lt tx M)) by lia.
    cbn [andb].
    apply (cellwise_for _ _ _ (λ h j v, foldl (λ v w,
      if j =? off4 yd bx h w tx then get Yu (off4 ud bx tx h w) else v)
      v (range 0 Wo))).
    intros h Hh%elem_of_range.
    apply (cellwise_for _ _ _ (λ w j v,
      if j =? off4 yd bx h w tx then get Yu (off4 ud bx tx h w) else v)).
    intros w Hw%elem_of_range.
    replace (bx * M * Ho * Wo + tx * Ho * Wo + h * Wo + w)
      with (off4 ud bx tx h w) by (unfold off4; simpl; ring).
    eapply cellwise_bind.
    { apply rd_get. rewrite HYus. apply (off4_bound ud); simpl; lia. }
    apply cellwise_write. rewrite HYs. apply (off4_bound yd); simpl; lia. }
  destruct (Hc Y eq_refl) as (Y' & HY' & Hlen & Hrd).
  exists Y'. split_and!; [done..|].
  intros n h w m Hn Hh Hw Hm.
  destruct (rd_is_Some Y (off4 yd n h w m)) as [v Hv].
  { rewrite HYs. apply (off4_bound yd); simpl; lia. }
  apply Hrd, get_rd in Hv. rewrite Hv. clear Hv Hrd Hc HY'.
  assert (∀ n' h' w' m', 0 ≤ h' < Ho → 0 ≤ w' < Wo → 0 ≤ m' < M →
            (n' ≠ n ∨ h' ≠ h ∨ w' ≠ w ∨ m' ≠ m) →
            (off4 yd n h w m =? off4 yd n' h' w' m') = false) as Hother.
  { intros n' h' w' m' ? ? ? Hne. apply Z.eqb_neq. intros Heq.
    apply (off4_inj yd) in Heq; simpl; lia. }
  unfold g.
  pick_iteration 0 ltac:(lia).
  pick_iteration 0 ltac:(lia).
  pick_iteration n ltac:(cbn [dx dy dz]; by rewrite Hother by lia).
  pick_iteration 0 ltac:(lia).
  pick_iteration 0 ltac:(lia).
  pick_iteration m ltac:(cbn [dx dy dz]; by rewrite Hother by lia).
  pick_iteration h ltac:(cbn [dx dy dz]; by rewrite Hother by lia).
  pick_iteration w ltac:(cbn [dx dy dz]; by rewrite Hother by lia).
  cbn [dx dy dz]. rewrite Z.eqb_refl. f_equal. unfold off4; simpl. ring.
Qed.
End Unroll.

(** * Allocation and copies *)

Lemma length_malloc {F : Type} (junk : Z → F) n :
  0 ≤ n → Z.of_nat (length (malloc junk n)) = n.
Proof. intros Hn. unfold malloc. rewrite length_fmap, length_seqZ. lia. Qed.

Lemma memcpy_all {A : Type} (dst src : list A) n :
  Z.of_nat (length src) = n → Z.of_nat (length dst) = n →
  memcpy dst src n = Some src.
Proof.
  intros Hs Hd. unfold memcpy.
  destruct (Z.leb_spec 0 n); [|lia].
  destruct (Z.leb_spec n (Z.of_nat (length src))); [|lia].
  destruct (Z.leb_spec n (Z.of_nat (length dst))); [|lia].
  simpl. f_equal.
  rewrite take_ge, drop_ge by lia. apply app_nil_r.
Qed.

Lemma ceil_ratio_covers a : a ≤ ceil_ratio a TILE_WIDTH * TILE_WIDTH.
Proof.
  unfold ceil_ratio, TILE_WIDTH.
  pose proof (Z.div_mod (- a) 16 ltac:(lia)).
  pose proof (Z.mod_pos_bound (- a) 16 ltac:(lia)). lia.
Qed.

(** * The unroll-and-multiply convolution *)

(** Every [int] value that [convLayer_forward] computes is in range. *)
Definition convLayer_fits (N M C H W K : Z) : Prop :=
  let W_out := W - K + 1 in
  let H_out := H - K + 1 in
  W_out ≤ INT_MAX ∧ H_out ≤ INT_MAX
  ∧ fits_from C [K; K] ∧ fits_from H_out [W_out]
  ∧ fits_from (C * K * K) [H_out * W_out]
  ∧ fits_from M [C; K; K] ∧ fits_from M [N; W_out; H_out]
  ∧ ∀ n, 0 ≤ n < N → fits_from n [H_out; W_out; M].

(** For extents of at least one it is enough that the element counts of the
    three buffers are in range. *)
Lemma convLayer_fits_sizes (N M C H W K : Z) :
  1 ≤ N → 1 ≤ M → 1 ≤ C → 1 ≤ K → K ≤ H → K ≤ W →
  M * C * K * K ≤ INT_MAX →
  C * K * K * ((H - K + 1) * (W - K + 1)) ≤ INT_MAX →
  M * N * (W - K + 1) * (H - K + 1) ≤ INT_MAX →
  convLayer_fits N M C H W K.
Proof.
  intros HN HM HC HK HKH HKW HsW HsX HsY. unfold convLayer_fits. cbv zeta.
  set (Wo := W - K + 1) in *. set (Ho := H - K + 1) in *.
  assert (1 ≤ Wo ∧ 1 ≤ Ho) as [HWo HHo] by (unfold Wo, Ho; lia).
  assert (∀ a b, 0 ≤ a → 1 ≤ b → a ≤ a * b) as Hmono by (intros; nia).
  assert (∀ a b, 0 ≤ a → 0 ≤ b → 0 ≤ a * b) as Hpos by (intros; nia).
  assert (0 ≤ C * K ∧ 0 ≤ C * K * K ∧ 0 ≤ M * C ∧ 0 ≤ M * C * K
          ∧ 0 ≤ M * N ∧ 0 ≤ M * N * Wo ∧ 0 ≤ Ho * Wo)
    as (? & ? & ? & ? & ? & ? & ?) by (split_and!; repeat apply Hpos; lia).
  pose proof (Hmono (M * N * Wo) Ho ltac:(done) HHo).
  pose proof (Hmono (M * N) Wo ltac:(done) HWo).
  pose proof (Hmono (M * C * K) K ltac:(done) HK).
  pose proof (Hmono (M * C) K ltac:(done) HK).
  assert (C * K * K ≤ M * C * K * K) by nia.
  pose proof (Hmono (C * K) K ltac:(done) HK).
  assert (Ho * Wo ≤ C * K * K * (Ho * Wo)) by nia.
  assert (Wo ≤ Ho * Wo ∧ Ho ≤ Ho * Wo) as [? ?] by nia.
  cbn [fits_from]. unfold INT_MIN in *.
  split_and!; try lia.
  intros n Hn.
  assert (0 ≤ n * Ho ∧ 0 ≤ n * Ho * Wo ∧ 0 ≤ n * Ho * Wo * M)
    as (? & ? & ?) by (split_and!; repeat apply Hpos; lia).
  assert (n * Ho * Wo * M ≤ M * N * Wo * Ho).
  { replace (n * Ho * Wo * M) with (n * (M * Wo * Ho)) by ring.
    replace (M * N * Wo * Ho) with (N * (M * Wo * Ho)) by ring.
    apply Z.mul_le_mono_nonneg_r; [repeat apply Hpos|]; lia. }
  pose proof (Hmono (n * Ho * Wo) M ltac:(done) HM).
  pose proof (Hmono (n * Ho) Wo ltac:(done) HWo).
  split_and!; lia.
Qed.

Section UnrolledConvolution.
Context {F : Type} `{Scalar F}.
Implicit Types (X W Y : list F).

Lemma convLayer_forward_sums (junk : Z → F)
    (shared : Z → dim3 → list F * list F) N M C Ht Wd K X Mask Y :
  let xd := Dims4 N Ht Wd C in
  let wd := Dims4 K K C M in
  let yd := Dims4 N (Ht - K + 1) (Wd - K + 1) M in
  shaped4 X xd → shaped4 Mask wd → K ≤ Ht + 1 → K ≤ Wd + 1 → shaped4 Y yd →
  convLayer_fits N M C Ht Wd K →
  (∀ n b, length (shared n b).1 = Z.to_nat (TILE_WIDTH * TILE_WIDTH)
          ∧ length (shared n b).2 = Z.to_nat (TILE_WIDTH * TILE_WIDTH)) →
  ∃ Y',
    Cuda.convLayer_forward junk shared N M C Ht Wd K X Mask Y xd yd = Some Y'
    ∧ shaped4 Y' yd
    ∧ ∀ n h w m,
        0 ≤ n < N → 0 ≤ h < Ht - K + 1 → 0 ≤ w < Wd - K + 1 → 0 ≤ m < M →
        at4 Y' yd n h w m = relu (unroll_sum X xd Mask wd n h w m).
Proof.
  intros xd wd yd HX HW HK1 HK2 HY
    (HWoM & HHoM & HfW & HfH & HfX & HfM & HfY & Hfn) Hshared.
  pose proof HX as (HN & HHt & HWd & HC & HXlen).
  pose proof HW as (HK & _ & _ & HM & HWlen).
  pose proof HY as (_ & HHo & HWo & _ & HYlen).
  simpl in HN, HHt, HWd, HC, HK, HM, HHo, HWo.
  set (Ho := Ht - K + 1) in *. set (Wo := Wd - K + 1) in *.
  assert (0 ≤ Ho * Wo) as HHoWo by (apply Z.mul_nonneg_nonneg; lia).
  assert (0 ≤ C * K * K) as HCKK by (repeat apply Z.mul_nonneg_nonneg; lia).
  assert (0 ≤ M * C * K * K) as HMCKK by (repeat apply Z.mul_nonneg_nonneg; lia).
  assert (0 ≤ C * K * K * (Ho * Wo)) as HXusz
    by (apply Z.mul_nonneg_nonneg; lia).
  assert (0 ≤ M * N * Wo * Ho) as HYusz
    by (repeat apply Z.mul_nonneg_nonneg; lia).
  assert (size4 wd = M * C * K * K) as Hwsz by (unfold size4; simpl; ring).
  assert (size4 yd = M * N * Wo * Ho) as Hysz by (unfold size4; simpl; ring).
  unfold Cuda.convLayer_forward. fold Ho Wo.
  rewrite (int_Some Wo), (int_Some Ho) by (unfold INT_MIN; lia).
  cbn [mbind option_bind].
  rewrite (int_prod_Some C [K; K]), (int_prod_Some Ho [Wo]) by done.
  cbn [mbind option_bind foldl].
  rewrite (int_prod_Some (C * K * K) [Ho * Wo]),
    (int_prod_Some M [C; K; K]), (int_prod_Some M [N; Wo; Ho]) by done.
  cbn [mbind option_bind foldl]. cbv zeta.
  (* the filter *)
  rewrite (memcpy_all _ Mask) by (rewrite ?length_malloc; lia). simpl.
  destruct (unrollFilters_cells C M K Mask (malloc junk (M * C * K * K)))
    as (Wu & -> & HWulen & HWu); [done|by rewrite length_malloc|]. simpl.
  apply (f_equal Z.of_nat) in HWulen. rewrite length_malloc in HWulen by done.
  (* the samples *)
  set (body := λ (n : Z) (st : list F * list F * list F), _).
  set (I := λ (k : Z) (st : list F * list F * list F),
    Z.of_nat (length st.1.1) = C * K * K * (Ho * Wo)
    ∧ Z.of_nat (length st.1.2) = C * K * K * (Ho * Wo)
    ∧ Z.of_nat (length st.2) = M * N * Wo * Ho
    ∧ ∀ n h w m, 0 ≤ n < k → 0 ≤ h < Ho → 0 ≤ w < Wo → 0 ≤ m < M →
        get st.2 (n * Ho * Wo * M + (m * (Ho * Wo) + (h * Wo + w)))
        = relu (unroll_sum X xd Mask wd n h w m)).
  destruct (for_range_ind I N body
    (malloc junk (C * K * K * (Ho * Wo)), malloc junk (C * K * K * (Ho * Wo)),
     malloc junk (M * N * Wo * Ho))) as (st & -> & HI).
  - done.
  - unfold I. cbn [fst snd]. rewrite !length_malloc by done.
    split_and!; [done..|]. intros; lia.
  - intros n [[Xu dXu] Yu] Hn (HXu & HdXu & HYu & Hprev). cbn [fst snd] in *.
    unfold body. cbn beta iota.
    destruct (unroll_cells C Ht Wd K n N X Xu)
      as (Xu' & Hun & HXu'len & HXu'); [done..|].
    change (Dims4 N Ht Wd C) with xd in Hun, HXu'. fold Ho Wo in HXu'.
    rewrite Hun. simpl.
    rewrite (memcpy_all dXu Xu') by lia. simpl.
    rewrite (int_prod_Some n [Ho; Wo; M]) by (apply Hfn; lia).
    cbn [mbind option_bind foldl].
    assert (shaped2 Wu (Dims2 M (C * K * K))) as HWus.
    { unfold shaped2, size2. simpl. split_and!; [done..|]. lia. }
    assert (shaped2 Xu' (Dims2 (C * K * K) (Ho * Wo))) as HXus.
    { unfold shaped2, size2. simpl. split_and!; [done..|]. lia. }
    assert (0 ≤ n * Ho * Wo * M
            ∧ n * Ho * Wo * M + M * (Ho * Wo) ≤ M * N * Wo * Ho) as [Hb1 Hb2].
    { assert (0 ≤ Ho * Wo * M) by (apply Z.mul_nonneg_nonneg; lia).
      replace (n * Ho * Wo * M) with (n * (Ho * Wo * M)) by ring.
      replace (M * (Ho * Wo)) with (1 * (Ho * Wo * M)) by ring.
      replace (M * N * Wo * Ho) with (N * (Ho * Wo * M)) by ring.
      rewrite <- Z.mul_add_distr_r. split; [apply Z.mul_nonneg_nonneg; lia|].
      apply Z.mul_le_mono_nonneg_r; lia. }
    destruct (matrixMultiplyShared_cells Wu Xu' M (C * K * K) (Ho * Wo) HWus HXus
                (ceil_ratio (Ho * Wo) TILE_WIDTH) (ceil_ratio M TILE_WIDTH)
                (shared n) (n * Ho * Wo * M) Yu)
      as (Yu' & HYu'eq & HYu'len & HYu' & Hframe);
      [apply Hshared|apply ceil_ratio_covers|apply ceil_ratio_covers|lia|lia|].
    rewrite HYu'eq. simpl.
    eexists. split; [done|]. unfold I. cbn [fst snd].
    split_and!; [lia|lia|lia|].
    intros n' h w m Hn' Hh Hw Hm.
    pose proof (lin_bound h w Ho Wo Hh Hw) as Hcol.
    destruct (decide (n' = n)) as [->|Hne].
    + rewrite HYu' by lia. f_equal.
      unfold dot, fsum, unroll_sum. cbn [e0 e1 d0 d1 d2 d3].
      rewrite (foldl_range_blocks _ (C * K) K)
        by (try apply Z.mul_nonneg_nonneg; lia).
      rewrite (foldl_range_blocks _ C K) by lia.
      apply foldl_ext. intros c acc Hc%elem_of_range.
      apply foldl_ext. intros p acc' Hp%elem_of_range.
      apply foldl_ext. intros q acc'' Hq%elem_of_range.
      unfold at2 at 1 2, off2. cbn [e0 e1].
      simpl in Hc, Hp, Hq. rewrite HWu, HXu' by lia. done.
    + rewrite Hframe; [apply Hprev; lia|].
      pose proof (lin_bound m (h * Wo + w) M (Ho * Wo) Hm Hcol) as Hcell.
      assert (Ho * Wo * M = M * (Ho * Wo)) as Hsz by ring.
      intros [Hlo Hhi].
      assert (n' * (M * (Ho * Wo)) + M * (Ho * Wo) ≤ n * (M * (Ho * Wo))
              ∨ n * (M * (Ho * Wo)) + M * (Ho * Wo) ≤ n' * (M * (Ho * Wo)))
        as Hsep.
      { destruct (Z.lt_trichotomy n' n) as [Hlt|[?|Hgt]]; [left|done|right].
        - replace (n' * (M * (Ho * Wo)) + M * (Ho * Wo))
            with ((n' + 1) * (M * (Ho * Wo))) by ring.
          apply Z.mul_le_mono_nonneg_r; lia.
        - replace (n * (M * (Ho * Wo)) + M * (Ho * Wo))
            with ((n + 1) * (M * (Ho * Wo))) by ring.
          apply Z.mul_le_mono_nonneg_r; lia. }
      replace (n' * Ho * Wo * M) with (n' * (M * (Ho * Wo))) in * by ring.
      replace (n * Ho * Wo * M) with (n * (M * (Ho * Wo))) in * by ring.
      lia.
  - destruct st as [[Xu dXu] Yu]. destruct HI as (_ & _ & HYu & Hcells).
    cbn [fst snd mbind option_bind] in *.
    destruct (rerollOutput_cells M N Ho Wo Yu (malloc junk (M * N * Wo * Ho)))
      as (dY & -> & HdYlen & HdY); [lia|lia|lia|lia|lia|by rewrite length_malloc|].
    simpl. apply (f_equal Z.of_nat) in HdYlen.
    rewrite length_malloc in HdYlen by done.
    rewrite (memcpy_all Y dY) by lia.
    eexists. split; [done|]. split.
    + unfold shaped4. cbn [d0 d1 d2 d3]. split_and!; [done..|]. lia.
    + intros n h w m Hn Hh Hw Hm. unfold at4 at 1.
      change (Dims4 N Ho Wo M) with yd in HdY.
      rewrite (HdY n h w m) by done. apply Hcells; done.
Qed.
End UnrolledConvolution.

Section UnrolledConvolutionExact.
Context {F : Type} `{ScalarField F}.
Implicit Types (X W Y : list F).

(** The sum in the order in which the unrolled matrices are multiplied. *)
Lemma conv_sum_unrolled X xd W wd n h w m :
  fsum (d2 wd) (λ c, fsum (d0 wd) (λ p, fsum (d1 wd) (λ q,
    fmul (at4 W wd p q c m) (at4 X xd n (h + p) (w + q) c))))
  = conv_sum X xd W wd n h w m.
Proof.
  unfold conv_sum. rewrite fsum_exchange. apply fsum_ext. intros p _.
  rewrite fsum_exchange. apply fsum_ext. intros q _.
  apply fsum_ext. intros c _. apply fmul_comm.
Qed.

(** In exact arithmetic the order of the accumulation does not matter. *)
Lemma unroll_sum_conv_sum X xd W wd n h w m :
  unroll_sum X xd W wd n h w m = conv_sum X xd W wd n h w m.
Proof.
  rewrite <- conv_sum_unrolled. unfold unroll_sum.
  rewrite (foldl_ext _ (λ acc c, fadd acc (fsum (d0 wd) (λ p,
    fsum (d1 wd) (λ q,
      fmul (at4 W wd p q c m) (at4 X xd n (h + p) (w + q) c)))))).
  2:{ intros c acc _. unfold fsum.
    rewrite <- (foldl_fadd (λ p, foldl _ f0 (range 0 (d1 wd)))).
    apply foldl_ext. intros p acc' _. apply foldl_fadd. }
  rewrite foldl_fadd. apply fadd_0_l.
Qed.

Lemma convLayer_forward_cells (junk : Z → F)
    (shared : Z → dim3 → list F * list F) N M C Ht Wd K X Mask Y :
  let xd := Dims4 N Ht Wd C in
  let wd := Dims4 K K C M in
  let yd := Dims4 N (Ht - K + 1) (Wd - K + 1) M in
  shaped4 X xd → shaped4 Mask wd → K ≤ Ht + 1 → K ≤ Wd + 1 → shaped4 Y yd →
  convLayer_fits N M C Ht Wd K →
  (∀ n b, length (shared n b).1 = Z.to_nat (TILE_WIDTH * TILE_WIDTH)
          ∧ length (shared n b).2 = Z.to_nat (TILE_WIDTH * TILE_WIDTH)) →
  ∃ Y',
    Cuda.convLayer_forward junk shared N M C Ht Wd K X Mask Y xd yd = Some Y'
    ∧ shaped4 Y' yd
    ∧ ∀ n h w m,
        0 ≤ n < N → 0 ≤ h < Ht - K + 1 → 0 ≤ w < Wd - K + 1 → 0 ≤ m < M →
        at4 Y' yd n h w m = relu (conv_sum X xd Mask wd n h w m).
Proof.
  intros xd wd yd HX HW HK1 HK2 HY Hfit Hshared.
  destruct (convLayer_forward_sums junk shared N M C Ht Wd K X Mask Y
              HX HW HK1 HK2 HY Hfit Hshared) as (Y' & HY' & HYs & Hcells).
  exists Y'. split_and!; [done..|].
  intros n h w m Hn Hh Hw Hm. rewrite Hcells by done.
  by rewrite unroll_sum_conv_sum.
Qed.
End UnrolledConvolutionExact.

(** The batch sizes for which every buffer of the network has an [int]
    number of elements: the largest buffer is the output of the first
    convolution. *)
Definition batch_fits (N : Z) : Prop := N * 24 * 24 * 32 ≤ INT_MAX.

Lemma conv1_fits N : 0 ≤ N → batch_fits N → convLayer_fits N 32 1 28 28 5.
Proof.
  unfold batch_fits, convLayer_fits. cbn [fits_from].
  unfold INT_MAX, INT_MIN. intros HN HNmax. split_and!; intros; lia.
Qed.

Lemma conv2_fits N : 0 ≤ N → batch_fits N → convLayer_fits N 64 32 12 12 5.
Proof.
  unfold batch_fits, convLayer_fits. cbn [fits_from].
  unfold INT_MAX, INT_MIN. intros HN HNmax. split_and!; intros; lia.
Qed.

(** Rewrites the [int] products of a goal whose factors are in range. *)
Ltac int_fits :=
  repeat (rewrite int_prod_Some
            by (cbn [fits_from];
                unfold batch_fits, INT_MIN, INT_MAX, TILE_WIDTH in *;
                first [lia | split_and?; by vm_compute]));
  cbn [mbind option_bind foldl].

(** * The separate ReLU pass *)

Section Relu.
Context {F : Type} `{Scalar F}.

Lemma relu_cells (X : list F) n :
  Z.of_nat (length X) = n →
  ∃ X',
    for_ (range 0 n) (λ i X, x ← rd X i; wr X i (if flt x f0 then f0 else x)) X
    = Some X'
    ∧ length X' = length X
    ∧ ∀ i, 0 ≤ i < n → get X' i = relu (get X i).
Proof.
  intros HX.
  assert (cellwise (length X)
    (for_ (range 0 n) (λ i X, x ← rd X i; wr X i (if flt x f0 then f0 else x)))
    (λ j v, foldl (λ v i, if j =? i then relu v else v) v (range 0 n))) as Hc.
  { apply (cellwise_for _ _ _ (λ i j v, if j =? i then relu v else v)).
    intros i Hi%elem_of_range. apply (cellwise_update _ i relu). lia. }
  destruct (Hc X eq_refl) as (X' & HX' & Hlen & Hrd).
  exists X'. split_and!; [done..|].
  intros i Hi. destruct (rd_is_Some X i) as [v Hv]; [lia|].
  rewrite (get_rd _ _ _ Hv). apply Hrd, get_rd in Hv. rewrite Hv.
  pick_iteration i ltac:(destruct (Z.eqb_spec i k); [congruence|done]).
  by rewrite Z.eqb_refl.
Qed.

Lemma relu4_cells (X : list F) xd :
  shaped4 X xd →
  ∃ X', Sequential.relu4 X xd = Some X'
        ∧ shaped4 X' xd
        ∧ ∀ i0 i1 i2 i3, 0 ≤ i0 < d0 xd → 0 ≤ i1 < d1 xd → 0 ≤ i2 < d2 xd →
            0 ≤ i3 < d3 xd →
            at4 X' xd i0 i1 i2 i3 = relu (at4 X xd i0 i1 i2 i3).
Proof.
  intros (? & ? & ? & ? & HX).
  destruct (relu_cells X (size4 xd) HX) as (X' & HX' & Hlen & Hcells).
  exists X'. split_and!; [done| |].
  - unfold shaped4. split_and!; [done..|]. by rewrite Hlen.
  - intros i0 i1 i2 i3 ? ? ? ?. unfold at4. apply Hcells.
    by apply off4_bound.
Qed.

Lemma relu2_cells (X : list F) xd :
  shaped2 X xd →
  ∃ X', Sequential.relu2 X xd = Some X'
        ∧ shaped2 X' xd
        ∧ ∀ i j, 0 ≤ i < e0 xd → 0 ≤ j < e1 xd →
            at2 X' xd i j = relu (at2 X xd i j).
Proof.
  intros (? & ? & HX).
  destruct (relu_cells X (size2 xd) HX) as (X' & HX' & Hlen & Hcells).
  exists X'. split_and!; [done| |].
  - unfold shaped2. split_and!; [done..|]. by rewrite Hlen.
  - intros i j ? ?. unfold at2. apply Hcells. by apply off2_bound.
Qed.

(** Two tensors of one shape with the same cells are the same buffer. *)
Lemma shaped4_ext (X Y : list F) xd :
  shaped4 X xd → shaped4 Y xd →
  (∀ i0 i1 i2 i3, 0 ≤ i0 < d0 xd → 0 ≤ i1 < d1 xd → 0 ≤ i2 < d2 xd →
     0 ≤ i3 < d3 xd → at4 X xd i0 i1 i2 i3 = at4 Y xd i0 i1 i2 i3) →
  X = Y.
Proof.
  intros (? & ? & ? & ? & HX) (_ & _ & _ & _ & HY) Hcells.
  apply get_ext; [lia|]. intros idx Hidx.
  destruct (off4_split xd idx) as (i0 & i1 & i2 & i3 & -> & ? & ? & ? & ?);
    [lia..|]. by apply Hcells.
Qed.

End Relu.

(** * The pooling kernel *)

Section PoolKernel.
Context {F : Type} `{Scalar F}.
Implicit Types (X Y : list F) (xd yd : dims4).

(** The accumulator of one thread. *)
Lemma average_pool_kernel_acc X xd ps n h w m :
  shaped4 X xd →
  0 ≤ n < d0 xd → 0 ≤ h → 0 ≤ w → ps * h + ps ≤ d1 xd → ps * w + ps ≤ d2 xd →
  0 ≤ m < d3 xd →
  for_ (range 0 ps) (λ p,
    for_ (range 0 ps) (λ q acc,
      x ← rd X (n * d1 xd * d2 xd * d3 xd + (ps * h + p) * d2 xd * d3 xd
                + (ps * w + q) * d3 xd + m);
      Some (fadd acc (fdiv x (fmul (fmul f1 (of_int ps)) (of_int ps)))))) f0
  = Some (pool_acc X xd ps n h w m f0).
Proof.
  intros (? & ? & ? & ? & HX) Hn Hh Hw Hhp Hwp Hm. unfold pool_acc.
  apply for_total. intros p acc Hp%elem_of_range.
  apply for_total. intros q acc' Hq%elem_of_range.
  replace (n * d1 xd * d2 xd * d3 xd + (ps * h + p) * d2 xd * d3 xd
           + (ps * w + q) * d3 xd + m)
    with (off4 xd n (ps * h + p) (ps * w + q) m) by (unfold off4; ring).
  rewrite rd_get; [done|]. rewrite HX. apply off4_bound; nia.
Qed.

(** The launch of [forward_operation], when the rows and the columns of the
    output need the same number of tiles. *)
Lemma average_pool_kernel_cells X xd ps Y yd :
  shaped4 X xd → shaped4 Y yd →
  d0 yd ≤ d0 xd → ps * d1 yd ≤ d1 xd → ps * d2 yd ≤ d2 xd → d3 yd ≤ d3 xd →
  0 ≤ ps →
  (d1 yd - 1) ÷ TILE_WIDTH = (d2 yd - 1) ÷ TILE_WIDTH →
  ∃ Y',
    launch
      (Dim3 (d0 yd) (d3 yd)
         (((d2 yd - 1) ÷ TILE_WIDTH + 1) * ((d1 yd - 1) ÷ TILE_WIDTH + 1)))
      (Dim3 TILE_WIDTH TILE_WIDTH 1)
      (λ blockIdx threadIdx Y,
         Cuda.average_pool_kernel blockIdx threadIdx X Y xd yd ps) Y
    = Some Y'
    ∧ length Y' = length Y
    ∧ ∀ n h w m,
        0 ≤ n < d0 yd → 0 ≤ h < d1 yd → 0 ≤ w < d2 yd → 0 ≤ m < d3 yd →
        at4 Y' yd n h w m = pool_acc X xd ps n h w m f0.
Proof.
  intros HX HY Hd0 Hd1 Hd2 Hd3 Hps Htiles.
  pose proof HX as (? & ? & ? & ? & HXlen).
  pose proof HY as (? & ? & ? & ? & HYlen).
  set (nW := (d2 yd - 1) ÷ TILE_WIDTH + 1) in *.
  assert ((d1 yd - 1) ÷ TILE_WIDTH + 1 = nW) as HnH by (unfold nW; lia).
  rewrite HnH.
  assert (1 ≤ nW) as HnW.
  { unfold nW. destruct (decide (d2 yd = 0)) as [->|]; [by vm_compute|].
    assert (0 ≤ (d2 yd - 1) ÷ TILE_WIDTH)
      by (apply Z.quot_pos; unfold TILE_WIDTH; lia).
    lia. }
  set (hh := λ b t : dim3, (dz b ÷ nW) * TILE_WIDTH + dy t).
  set (ww := λ b t : dim3, (Z.rem (dz b) nW) * TILE_WIDTH + dx t).
  set (g := λ (b t : dim3) (j : Z) (v : F),
    if (ww b t <? d2 yd) && (hh b t <? d1 yd)
    then if j =? off4 yd (dx b) (hh b t) (ww b t) (dy b)
         then pool_acc X xd ps (dx b) (hh b t) (ww b t) (dy b) f0
         else v
    else v).
  assert (cellwise (length Y)
    (launch (Dim3 (d0 yd) (d3 yd) (nW * nW)) (Dim3 TILE_WIDTH TILE_WIDTH 1)
       (λ blockIdx threadIdx Y,
          Cuda.average_pool_kernel blockIdx threadIdx X Y xd yd ps))
    (λ j v,
       foldl (λ v bz, foldl (λ v by_, foldl (λ v bx,
         foldl (λ v tz, foldl (λ v ty, foldl (λ v tx,
           g (Dim3 bx by_ bz) (Dim3 tx ty tz) j v)
           v (range 0 TILE_WIDTH)) v (range 0 TILE_WIDTH)) v (range 0 1))
         v (range 0 (d0 yd))) v (range 0 (d3 yd))) v (range 0 (nW * nW))))
    as Hc.
  { unfold launch.
    apply (cellwise_forall_idx (length Y) (Dim3 (d0 yd) (d3 yd) (nW * nW)) _
      (λ b j v, foldl (λ v tz, foldl (λ v ty, foldl (λ v tx,
         g b (Dim3 tx ty tz) j v)
         v (range 0 TILE_WIDTH)) v (range 0 TILE_WIDTH)) v (range 0 1))).
    cbn [dx dy dz]. intros bx by_ bz Hbx Hby Hbz.
    apply (cellwise_forall_idx (length Y) (Dim3 TILE_WIDTH TILE_WIDTH 1) _
      (λ t j v, g (Dim3 bx by_ bz) t j v)).
    cbn [dx dy dz]. intros tx ty tz Htx Hty Htz.
    unfold Cuda.average_pool_kernel, g, hh, ww. cbn [dx dy dz]. cbv zeta.
    fold nW. rewrite HnH.
    destruct ((Z.rem bz nW * TILE_WIDTH + tx <? d2 yd)
              && (bz ÷ nW * TILE_WIDTH + ty <? d1 yd)) eqn:Hguard;
      [|apply cellwise_skip].
    apply andb_true_iff in Hguard as [Hw Hh]. apply Z.ltb_lt in Hw, Hh.
    assert (0 ≤ bz ÷ nW) as Hq by (apply Z.quot_pos; lia).
    assert (0 ≤ Z.rem bz nW) as Hr by (apply Z.rem_nonneg; lia).
    eapply cellwise_bind.
    { apply average_pool_kernel_acc; [done|lia|unfold TILE_WIDTH; lia..| | |lia].
      - unfold TILE_WIDTH in *. nia.
      - unfold TILE_WIDTH in *. nia. }
    apply cellwise_write. rewrite HYlen.
    apply (off4_bound yd); unfold TILE_WIDTH in *; lia. }
  destruct (Hc Y eq_refl) as (Y' & HY' & Hlen & Hrd).
  exists Y'. split_and!; [done..|].
  intros n h w m Hn Hh Hw Hm. unfold at4 at 1.
  destruct (rd_is_Some Y (off4 yd n h w m)) as [v Hv].
  { rewrite HYlen. by apply off4_bound. }
  apply Hrd, get_rd in Hv. rewrite Hv. clear Hv Hrd Hc HY'.
  pose proof (Z.div_mod h 16 ltac:(lia)) as Hdh.
  pose proof (Z.mod_pos_bound h 16 ltac:(lia)) as Hmh.
  pose proof (Z.div_mod w 16 ltac:(lia)) as Hdw.
  pose proof (Z.mod_pos_bound w 16 ltac:(lia)) as Hmw.
  set (qh := h `div` 16) in *. set (rh := h `mod` 16) in *.
  set (qw := w `div` 16) in *. set (rw := w `mod` 16) in *.
  assert (0 ≤ qh < nW ∧ 0 ≤ qw < nW) as [Hqh Hqw].
  { assert (nW = (d2 yd - 1) `div` 16 + 1) as HnW2.
    { unfold nW, TILE_WIDTH. rewrite Z.quot_div_nonneg by lia. done. }
    assert (nW = (d1 yd - 1) `div` 16 + 1) as HnW1.
    { rewrite <- HnH. unfold TILE_WIDTH. rewrite Z.quot_div_nonneg by lia. done. }
    pose proof (Z.div_mod (d2 yd - 1) 16 ltac:(lia)).
    pose proof (Z.mod_pos_bound (d2 yd - 1) 16 ltac:(lia)).
    pose proof (Z.div_mod (d1 yd - 1) 16 ltac:(lia)).
    pose proof (Z.mod_pos_bound (d1 yd - 1) 16 ltac:(lia)).
    lia. }
  set (bz0 := qh * nW + qw).
  assert (bz0 ÷ nW = qh ∧ Z.rem bz0 nW = qw) as [Hbq Hbr].
  { unfold bz0. rewrite Z.quot_div_nonneg, Z.rem_mod_nonneg by nia.
    rewrite Z.div_add_l, Z.div_small, Z.add_0_r by lia.
    rewrite Z.add_comm, Z.mod_add, Z.mod_small by lia. done. }
  assert (0 ≤ bz0 < nW * nW) as Hbz0 by (unfold bz0; nia).
  assert (∀ bz' m' n' tz' ty' tx' (u : F),
    0 ≤ bz' → 0 ≤ m' < d3 yd → 0 ≤ n' < d0 yd →
    0 ≤ ty' < TILE_WIDTH → 0 ≤ tx' < TILE_WIDTH →
    (bz' ≠ bz0 ∨ m' ≠ m ∨ n' ≠ n ∨ ty' ≠ rh ∨ tx' ≠ rw) →
    g (Dim3 n' m' bz') (Dim3 tx' ty' tz') (off4 yd n h w m) u = u) as Hother.
  { intros bz' m' n' tz' ty' tx' u Hbz' Hm' Hn' Hty' Htx' Hne.
    unfold g, hh, ww. cbn [dx dy dz].
    destruct (_ && _) eqn:Hguard; [|done].
    apply andb_true_iff in Hguard as [Hw' Hh']. apply Z.ltb_lt in Hw', Hh'.
    match goal with |- (if ?a =? ?b then _ else _) = _ =>
      destruct (Z.eqb_spec a b) as [Heq|]; [|done] end.
    exfalso.
    assert (0 ≤ bz' ÷ nW) by (apply Z.quot_pos; lia).
    assert (0 ≤ Z.rem bz' nW) by (apply Z.rem_nonneg; lia).
    apply (off4_inj yd) in Heq; [|unfold TILE_WIDTH in *; lia..].
    destruct Heq as (Hn1 & Hh1 & Hw1 & Hm1).
    assert (bz' ÷ nW = qh ∧ ty' = rh) as [Hq1 Ht1]
      by (unfold TILE_WIDTH in *; lia).
    assert (Z.rem bz' nW = qw ∧ tx' = rw) as [Hq2 Ht2]
      by (unfold TILE_WIDTH in *; lia).
    pose proof (Z.quot_rem' bz' nW) as Hqr. rewrite Hq1, Hq2 in Hqr.
    unfold bz0 in Hne. lia. }
  assert (∀ u : F,
    g (Dim3 n m bz0) (Dim3 rw rh 0) (off4 yd n h w m) u
    = pool_acc X xd ps n h w m f0) as Hself.
  { intros u. unfold g, hh, ww. cbn [dx dy dz]. rewrite Hbq, Hbr.
    unfold TILE_WIDTH.
    replace (qh * 16 + rh) with h by lia. replace (qw * 16 + rw) with w by lia.
    rewrite (proj2 (Z.ltb_lt _ _) (proj2 Hh)), (proj2 (Z.ltb_lt _ _) (proj2 Hw)).
    by rewrite Z.eqb_refl. }
  assert (0 ≤ rh < TILE_WIDTH ∧ 0 ≤ rw < TILE_WIDTH) as [Hrh Hrw]
    by (unfold TILE_WIDTH; lia).
  clearbody g.
  pick_iteration bz0 ltac:(apply Hother; lia).
  pick_iteration m ltac:(apply Hother; lia).
  pick_iteration n ltac:(apply Hother; lia).
  pick_iteration 0 ltac:(lia).
  pick_iteration rh ltac:(apply Hother; lia).
  pick_iteration rw ltac:(apply Hother; lia).
  apply Hself.
Qed.
End PoolKernel.

(** * The clamp *)


Section Clamp.
Context {F : Type} `{ScalarOrder F}.

Lemma flt_asym (a b : F) : flt a b = true → flt b a = false.
Proof.
  intros Hab. destruct (flt b a) eqn:Hba; [|done].
  rewrite <- (flt_irrefl a). symmetry. by apply flt_trans with b.
Qed.

End Clamp.

(** * The CUDA pipeline *)

Lemma bind_total {A B : Type} (o : option A) (a : A) (k : A → option B)
    (P : B → Prop) :
  o = Some a → (∃ b, k a = Some b ∧ P b) → ∃ b, (a' ← o; k a') = Some b ∧ P b.
Proof. by intros ->. Qed.

Section CudaPipeline.
Context {F : Type} `{!Scalar F}.

Lemma shaped4_malloc (junk : Z → F) dims n :
  0 ≤ d0 dims → 0 ≤ d1 dims → 0 ≤ d2 dims → 0 ≤ d3 dims →
  n = size4 dims → shaped4 (malloc junk n) dims.
Proof.
  intros ? ? ? ? ->. unfold shaped4. split_and!; [done..|].
  apply length_malloc. by apply size4_nonneg.
Qed.

(** The scores that the CUDA [forward_operation] hands to [argmax]: the
    pipeline runs to completion on inputs of the fixed shapes, and the scores
    are the clamped products of the last layer. *)
Lemma forward_scores_cells (junk : Z → F) (shared : Z → dim3 → list F * list F)
    (N : Z) (x conv1 conv2 fc1 fc2 : list F) :
  shaped4 x (xdims N) → shaped4 conv1 conv1dims → shaped4 conv2 conv2dims →
  shaped2 fc1 fc1dims → shaped2 fc2 fc2dims → batch_fits N →
  (∀ n b, length (shared n b).1 = Z.to_nat (TILE_WIDTH * TILE_WIDTH)
          ∧ length (shared n b).2 = Z.to_nat (TILE_WIDTH * TILE_WIDTH)) →
  ∃ f,
    Cuda.forward_scores junk shared N x conv1 conv2 fc1 fc2 = Some f
    ∧ (shaped2 f (Dims2 N 10)
       ∧ ∃ e, shaped2 e (Dims2 N 128)
           ∧ ∀ i j, 0 ≤ i < N → 0 ≤ j < 10 →
               at2 f (Dims2 N 10) i j
               = relu (dot e (Dims2 N 128) fc2 fc2dims i j)).
Proof.
  intros Hx Hc1 Hc2 Hf1 Hf2 HNfit Hshared.
  assert (0 ≤ N) as HN by apply Hx.
  unfold Cuda.forward_scores. cbv zeta.
  change (forward_shapes (xdims N) conv1dims conv2dims fc1dims fc2dims)
    with (Shapes (Dims4 N 24 24 32) (Dims4 N 12 12 32) (Dims4 N 8 8 64)
            (Dims4 N 4 4 64) (Dims2 N 1024) (Dims2 N 128) (Dims2 N 10)).
  cbn [adims bdims cdims ddims ddims2 edims fdims d0 d1 d2 d3 e0 e1
       xdims conv1dims conv2dims fc1dims fc2dims
       NUM_ROWS NUM_COLS NUM_CHANNELS].
  unfold NUM_ROWS, NUM_COLS, NUM_CHANNELS.
  int_fits.
  (* conv 1 *)
  destruct (convLayer_forward_sums junk shared N 32 1 28 28 5 x conv1
              (malloc junk (N * 24 * 24 * 32 * 1)))
    as (a & Ha & Has & _); [done|done|lia|lia| |by apply conv1_fits|done|].
  { apply shaped4_malloc; simpl; try lia. unfold size4; simpl; lia. }
  assert (Z.of_nat (length a) = N * 24 * 24 * 32) as Halen
    by (destruct Has as (_ & _ & _ & _ & ->); unfold size4; simpl; lia).
  eapply bind_total; [exact Ha|]. cbv beta.
  eapply bind_total.
  { apply memcpy_all; [lia|]. rewrite length_malloc by lia. lia. }
  cbv beta.
  (* pool 1 *)
  destruct (average_pool_kernel_cells a (Dims4 N 24 24 32) 2
              (malloc junk (N * 12 * 12 * 32 * 1)) (Dims4 N 12 12 32))
    as (b & Hb & Hblen & _); [done| |simpl; lia..|done|].
  { apply shaped4_malloc; simpl; try lia. unfold size4; simpl; lia. }
  eapply bind_total; [exact Hb|]. cbv beta.
  apply (f_equal Z.of_nat) in Hblen. rewrite length_malloc in Hblen by lia.
  eapply bind_total.
  { apply memcpy_all; [lia|]. rewrite length_zeros. lia. }
  cbv beta.
  (* conv 2 *)
  destruct (convLayer_forward_sums junk shared N 64 32 12 12 5 b conv2
              (malloc junk (N * 8 * 8 * 64)))
    as (c & Hc & Hcs & _); [|done|lia|lia| |by apply conv2_fits|done|].
  { unfold shaped4, size4. simpl. split_and!; lia. }
  { apply shaped4_malloc; simpl; try lia. unfold size4; simpl; lia. }
  assert (Z.of_nat (length c) = N * 8 * 8 * 64) as Hclen
    by (destruct Hcs as (_ & _ & _ & _ & ->); unfold size4; simpl; lia).
  eapply bind_total; [exact Hc|]. cbv beta.
  eapply bind_total.
  { apply memcpy_all; [lia|]. rewrite length_malloc by lia. lia. }
  cbv beta.
  (* pool 2 *)
  destruct (average_pool_kernel_cells c (Dims4 N 8 8 64) 2
              (malloc junk (N * 4 * 4 * 64 * 1)) (Dims4 N 4 4 64))
    as (d & Hd & Hdlen & _); [done| |simpl; lia..|done|].
  { apply shaped4_malloc; simpl; try lia. unfold size4; simpl; lia. }
  eapply bind_total; [exact Hd|]. cbv beta.
  apply (f_equal Z.of_nat) in Hdlen. rewrite length_malloc in Hdlen by lia.
  eapply bind_total.
  { apply memcpy_all; [lia|]. rewrite length_zeros. lia. }
  cbv beta.
  (* fully connected 1 and 2 *)
  destruct (fully_forward_cells relu d (Dims2 N 1024) fc1 fc1dims
              (zeros (N * 128)))
    as (e & He & Helen & _).
  { unfold shaped2, size2. simpl. split_and!; lia. }
  { done. }
  { simpl. lia. }
  { rewrite length_zeros. simpl. lia. }
  eapply bind_total; [exact He|]. cbv beta.
  apply (f_equal Z.of_nat) in Helen. rewrite length_zeros in Helen.
  assert (shaped2 e (Dims2 N 128)) as Hes.
  { unfold shaped2, size2. simpl. split_and!; lia. }
  destruct (fully_forward_cells relu e (Dims2 N 128) fc2 fc2dims
              (zeros (N * 10)))
    as (f & Hf & Hflen & Hfcells); [done|done|simpl; lia| |].
  { rewrite length_zeros. simpl. lia. }
  exists f. split; [exact Hf|].
  apply (f_equal Z.of_nat) in Hflen. rewrite length_zeros in Hflen.
  split.
  - unfold shaped2, size2. simpl. split_and!; lia.
  - exists e. split; [done|]. intros i j Hi Hj. apply (Hfcells i j); done.
Qed.
End CudaPipeline.


(** * The rationals as scalars *)

Lemma Qc_ltb_lt (a b : Qc) : Qc_ltb a b = true ↔ (a < b)%Qc.
Proof.
  unfold Qc_ltb. rewrite Qclt_alt. destruct (a ?= b)%Qc; split; congruence.
Qed.

Lemma Qc_ltb_ge (a b : Qc) : Qc_ltb a b = false ↔ (b <= a)%Qc.
Proof.
  rewrite <- not_true_iff_false, Qc_ltb_lt. split.
  - apply Qcnot_lt_le.
  - apply Qcle_not_lt.
Qed.

#[export] Instance Qc_field : ScalarField Qc.
Proof. split; [exact Qcrt|reflexivity]. Qed.

#[export] Instance Qc_order : ScalarOrder Qc.
Proof.
  split.
  - intros a. apply Qc_ltb_ge, Qcle_refl.
  - intros a b c. rewrite !Qc_ltb_lt. apply Qclt_trans.
  - intros a b. rewrite !Qc_ltb_ge. intros Hba Hab. by apply Qcle_antisym.
Qed.



(** * The claims *)




(** C2, amended: for every valid input and filter (all extents at least
    one, every buffer with an [int] number of elements) the
    unroll-and-multiply path (filter unroll, per-sample input unroll, tiled
    multiply, reroll) stores in every cell of the output, whatever the
    uninitialized storage held, the ReLU clamp [s < 0 ? 0 : s] of the sum
    [s] of the products [W[p,q,c,m] · X[n,h+p,w+q,c]], added one after the
    other from zero in the order of the columns of the unrolled filter:
    [c], then [p], then [q].  The direct form adds the products
    [X[n,h+p,w+q,c] · W[p,q,c,m]] in the order [p], [q], [c] and does not
    clamp.  In exact arithmetic the order does not matter and the output of
    the path is the output of the direct form passed through [relu4]. *)
Theorem convLayer_forward_relu_direct {F : Type} `{!Scalar F}
    (junk : Z → F) (shared : Z → dim3 → list F * list F)
    (N H W C K M : Z) (X Wt Y : list F) :
  let xdims := Dims4 N H W C in
  let wdims := Dims4 K K C M in
  let ydims := Dims4 N (H - K + 1) (W - K + 1) M in
  shaped4 X xdims → shaped4 Wt wdims → shaped4 Y ydims →
  1 ≤ N → 1 ≤ C → 1 ≤ K → 1 ≤ M → K ≤ H → K ≤ W →
  M * C * K * K ≤ INT_MAX →
  C * K * K * ((H - K + 1) * (W - K + 1)) ≤ INT_MAX →
  M * N * (W - K + 1) * (H - K + 1) ≤ INT_MAX →
  (∀ n b, length (shared n b).1 = Z.to_nat (TILE_WIDTH * TILE_WIDTH)
          ∧ length (shared n b).2 = Z.to_nat (TILE_WIDTH * TILE_WIDTH)) →
  ∃ Yu Yd Yr,
    Cuda.convLayer_forward junk shared N M C H W K X Wt Y xdims ydims = Some Yu
    ∧ Sequential.conv_forward_valid X xdims Wt wdims (zeros (size4 ydims)) ydims
      = Some Yd
    ∧ Sequential.relu4 Yd ydims = Some Yr
    ∧ shaped4 Yu ydims ∧ shaped4 Yd ydims
    ∧ (∀ n h w m,
         0 ≤ n < N → 0 ≤ h < H - K + 1 → 0 ≤ w < W - K + 1 → 0 ≤ m < M →
         at4 Yu ydims n h w m = relu (unroll_sum X xdims Wt wdims n h w m)
         ∧ at4 Yd ydims n h w m = conv_acc X xdims Wt wdims n h w m f0)
    ∧ (ScalarField F → Yu = Yr).
Proof.
  intros xdims wdims ydims HX HW HY HN HC HK HM HKH HKW HsW HsX HsY Hshared.
  pose proof (convLayer_fits_sizes N M C H W K HN HM HC HK HKH HKW HsW HsX HsY)
    as Hfit.
  destruct (convLayer_forward_sums junk shared N M C H W K X Wt Y
              HX HW ltac:(lia) ltac:(lia) HY Hfit Hshared)
    as (Yu & HYu & HYus & Hu).
  destruct (conv_forward_valid_from_zeros N H W C K M X Wt HX HW
              ltac:(lia) ltac:(lia)) as (Yd & HYd & HYds & Hd).
  destruct (relu4_cells Yd ydims HYds) as (Yr & HYr & HYrs & Hr).
  exists Yu, Yd, Yr. split_and!; [done..| |].
  - intros n h w m Hn Hh Hw Hm. split; [by apply Hu|by apply Hd].
  - intros HF. apply (shaped4_ext _ _ ydims HYus HYrs).
    intros n h w m Hn Hh Hw Hm. simpl in Hn, Hh, Hw, Hm.
    rewrite Hu, Hr, Hd by done. f_equal.
    rewrite unroll_sum_conv_sum, conv_acc_fsum. symmetry. apply fadd_0_l.
Qed.

Lemma convLayer_forward_relu_direct_witness :
  let junk := λ _ : Z, Q2Qc 7 in
  let shared := λ (_ : Z) (_ : dim3),
    (replicate 256 (Q2Qc 9), replicate 256 (Q2Qc (-3 # 1))) in
  let X := (λ k, Q2Qc (inject_Z k)) <$>
    [1; -2; 3; 4; -5; 6; 7; 8; -9; 10; 11; -12; 13; 14; -15; 16; 17; 18] in
  let Wt := (λ k, Q2Qc (inject_Z k)) <$>
    [1; -1; 2; -2; 3; -3; 4; -4; 5; -5; 6; -6; 7; -7; 8; -8] in
  let Y := replicate 8 (Q2Qc 5) in
  let xdims := Dims4 1 3 3 2 in
  let wdims := Dims4 2 2 2 2 in
  let ydims := Dims4 1 (3 - 2 + 1) (3 - 2 + 1) 2 in
  ∃ Yu Yd Yr,
    Cuda.convLayer_forward junk shared 1 2 2 3 3 2 X Wt Y xdims ydims = Some Yu
    ∧ Sequential.conv_forward_valid X xdims Wt wdims (zeros (size4 ydims)) ydims
      = Some Yd
    ∧ Sequential.relu4 Yd ydims = Some Yr
    ∧ shaped4 Yu ydims ∧ shaped4 Yd ydims
    ∧ (∀ n h w m,
         0 ≤ n < 1 → 0 ≤ h < 3 - 2 + 1 → 0 ≤ w < 3 - 2 + 1 → 0 ≤ m < 2 →
         at4 Yu ydims n h w m = relu (unroll_sum X xdims Wt wdims n h w m)
         ∧ at4 Yd ydims n h w m = conv_acc X xdims Wt wdims n h w m f0)
    ∧ (ScalarField Qc → Yu = Yr).
Proof.
  intros junk shared X Wt Y xdims wdims ydims.
  apply (convLayer_forward_relu_direct (F:=Qc) junk shared 1 3 3 2 2 2 X Wt Y);
    try (lia || by vm_compute).
Defined.


(** C2 as stated fails: on the 1×1 input [1] and the 1×1 filter [-1] the
    direct form yields [-1], the unroll-and-multiply path [0]. *)
Lemma convLayer_forward_differs_from_direct :
  let junk := λ _ : Z, Q2Qc 7 in
  let shared := λ (_ : Z) (_ : dim3),
    (replicate 256 (Q2Qc 9), replicate 256 (Q2Qc 9)) in
  let d := Dims4 1 1 1 1 in
  Cuda.convLayer_forward junk shared 1 1 1 1 1 1 [Q2Qc 1] [Q2Qc (-1 # 1)]
    [Q2Qc 5] d d = Some [Q2Qc 0]
  ∧ Sequential.conv_forward_valid [Q2Qc 1] d [Q2Qc (-1 # 1)] d (zeros 1) d
    = Some [Q2Qc (-1 # 1)]
  ∧ [Q2Qc 0] ≠ [Q2Qc (-1 # 1)].
Proof.
  split_and!; apply (bool_decide_unpack _); by vm_compute.
Qed.

(** In single precision the two orders of accumulation can give different
    outputs even where nothing is clamped: on the 2×2 input with the two
    channels [(2^24, 1)], [(-2^24, 0)], [(0, 0)], [(0, 0)] and the 2×2
    filter of ones the direct form adds [2^24 + 1 - 2^24] and yields [0],
    the unroll-and-multiply path adds [2^24 - 2^24 + 1] and yields [1]. *)
Lemma convLayer_forward_rounds_differently :
  let junk := λ _ : Z, b32_of_Z 7 in
  let shared := λ (_ : Z) (_ : dim3),
    (replicate 256 (b32_of_Z 9), replicate 256 (b32_of_Z 9)) in
  let X := b32_of_Z <$> [16777216; 1; -16777216; 0; 0; 0; 0; 0] in
  let Wt := replicate 8 (b32_of_Z 1) in
  let xdims := Dims4 1 2 2 2 in
  let wdims := Dims4 2 2 2 1 in
  let ydims := Dims4 1 1 1 1 in
  Cuda.convLayer_forward junk shared 1 1 2 2 2 2 X Wt [b32_of_Z 5] xdims ydims
  = Some [b32_of_Z 1]
  ∧ Sequential.conv_forward_valid X xdims Wt wdims (zeros 1) ydims
    = Some [b32_of_Z 0]
  ∧ Sequential.relu4 [b32_of_Z 0] ydims = Some [b32_of_Z 0].
Proof.
  split_and!; by vm_compute.
Qed.







(** The tiled multiply on a 15×15 by 15×15 product, each extent one less
    than the tile width, agrees cell by cell with the clamped naive loop. *)
Example matrixMultiplyShared_boundary_phase :
  let shared := λ _ : dim3,
    (replicate 256 (Q2Qc 9), replicate 256 (Q2Qc (-3 # 1))) in
  let A := (λ k, Q2Qc (inject_Z (k `mod` 7 - 3))) <$> seqZ 0 225 in
  let B := (λ k, Q2Qc (inject_Z (k `mod` 5 - 2))) <$> seqZ 0 225 in
  let C := replicate 225 (Q2Qc 8) in
  let d := Dims2 15 15 in
  Cuda.matrixMultiplyShared (Dim3 1 1 1) (Dim3 TILE_WIDTH TILE_WIDTH 1)
    shared A B 0 15 15 15 15 15 15 C
  = Cuda.fully_forward A d B d C d.
Proof. apply (bool_decide_unpack _). by vm_compute. Qed.





(** In single precision the sequential operator is not linear either: with
    [X = [2^24, 1]], [W1 = [1, 1]] and [W2 = [-1, 0]] the output for
    [W1 + W2 = [0, 1]] is [1], while the outputs for [W1] and [W2] are
    [2^24] (the sum [2^24 + 1] is rounded) and [-2^24] and add up to [0]. *)
Lemma fully_forward_rounding_not_linear :
  let X := b32_of_Z <$> [16777216; 1] in
  let W1 := b32_of_Z <$> [1; 1] in
  let W2 := b32_of_Z <$> [-1; 0] in
  let xd := Dims2 1 2 in
  let wd := Dims2 2 1 in
  let yd := Dims2 1 1 in
  Sequential.fully_forward X xd W1 wd (zeros 1) yd = Some [b32_of_Z 16777216]
  ∧ Sequential.fully_forward X xd W2 wd (zeros 1) yd
    = Some [b32_of_Z (-16777216)]
  ∧ Sequential.fully_forward X xd (zip_with fadd W1 W2) wd (zeros 1) yd
    = Some [b32_of_Z 1]
  ∧ zip_with fadd [b32_of_Z 16777216] [b32_of_Z (-16777216)] = [b32_of_Z 0]
  ∧ [b32_of_Z 1] ≠ [b32_of_Z 0].
Proof.
  split_and!; try (apply (bool_decide_unpack _)); by vm_compute.
Qed.


(** The sequential [average_pool] on a zero-initialized output of shape
    N×(H/f)×(W/f)×C stores in every cell the mean of its [f]×[f] window,
    whether or not [f] divides [H] and [W], and maps the 4×4 input [1 .. 16]
    to [[3.5, 5.5], [11.5, 13.5]] for [f = 2]. *)
Lemma average_pool_window_mean :
  (∀ (F : Type) (SF : Scalar F) (SL : ScalarField F) (N H W C f : Z)
     (X : list F),
     let xdims := Dims4 N H W C in
     let ydims := Dims4 N (H ÷ f) (W ÷ f) C in
     shaped4 X xdims → 0 < f →
     ∃ Y, Sequential.average_pool X xdims f (zeros (size4 ydims)) ydims = Some Y
          ∧ shaped4 Y ydims
          ∧ ∀ n h w c,
              0 ≤ n < N → 0 ≤ h < H ÷ f → 0 ≤ w < W ÷ f → 0 ≤ c < C →
              at4 Y ydims n h w c = window_mean X xdims f n h w c)
  ∧ Sequential.average_pool
      (Q2Qc <$> [1; 2; 3; 4; 5; 6; 7; 8; 9; 10; 11; 12; 13; 14; 15; 16]%Q)
      (Dims4 1 4 4 1) 2 (zeros 4) (Dims4 1 2 2 1)
    = Some (Q2Qc <$> [7 # 2; 11 # 2; 23 # 2; 27 # 2]%Q).
Proof.
  split; [|apply (bool_decide_unpack _); by vm_compute].
  intros F SF SL N H W C f X xdims ydims HX Hf.
  destruct HX as (HN & HH & HW & HC & HX).
  simpl in HN, HH, HW, HC.
  assert (0 ≤ H ÷ f ∧ f * (H ÷ f) ≤ H) as [? ?].
  { rewrite Z.quot_div_nonneg by lia. split; [apply Z.div_pos; lia|].
    apply Z.mul_div_le. lia. }
  assert (0 ≤ W ÷ f ∧ f * (W ÷ f) ≤ W) as [? ?].
  { rewrite Z.quot_div_nonneg by lia. split; [apply Z.div_pos; lia|].
    apply Z.mul_div_le. lia. }
  assert (shaped4 (zeros (F:=F) (size4 ydims)) ydims) as HY
    by (apply shaped4_zeros; simpl; lia).
  destruct (average_pool_cells X xdims f (zeros (size4 ydims)) ydims)
    as (Y & HYeq & Hlen & Hcells); [by split_and!|exact HY|simpl; lia..|].
  exists Y. split_and!; [done| |].
  - destruct HY as (? & ? & ? & ? & HYlen). unfold shaped4.
    split_and!; [done..|]. by rewrite Hlen.
  - intros n h w c Hn Hh Hw Hc. rewrite Hcells by done.
    rewrite pool_acc_mean. unfold at4 at 1. rewrite get_zeros.
    apply fadd_0_l.
Qed.


(** The pooling kernel, launched as [forward_operation] launches it, stores
    the mean of the window in every cell when the rows and the columns of
    the output need the same number of tiles, whatever the output buffer
    held; the outputs 12×12 and 4×4 of the network need one tile each. *)
Lemma average_pool_kernel_window_mean {F : Type} `{!Scalar F, !ScalarField F}
    (N H W C f : Z) (X Y : list F) :
  let xdims := Dims4 N H W C in
  let ydims := Dims4 N (H ÷ f) (W ÷ f) C in
  shaped4 X xdims → 0 < f → shaped4 Y ydims →
  (H ÷ f - 1) ÷ TILE_WIDTH = (W ÷ f - 1) ÷ TILE_WIDTH →
  ∃ Y',
    launch
      (Dim3 N C (((W ÷ f - 1) ÷ TILE_WIDTH + 1) * ((H ÷ f - 1) ÷ TILE_WIDTH + 1)))
      (Dim3 TILE_WIDTH TILE_WIDTH 1)
      (λ blockIdx threadIdx Y,
         Cuda.average_pool_kernel blockIdx threadIdx X Y xdims ydims f) Y
    = Some Y'
    ∧ shaped4 Y' ydims
    ∧ ∀ n h w c,
        0 ≤ n < N → 0 ≤ h < H ÷ f → 0 ≤ w < W ÷ f → 0 ≤ c < C →
        at4 Y' ydims n h w c = window_mean X xdims f n h w c.
Proof.
  intros xdims ydims HX Hf HY Htiles.
  pose proof HX as (HN & HH & HW & HC & _). simpl in HN, HH, HW, HC.
  assert (f * (H ÷ f) ≤ H ∧ f * (W ÷ f) ≤ W) as [? ?].
  { rewrite !Z.quot_div_nonneg by lia. split; apply Z.mul_div_le; lia. }
  destruct (average_pool_kernel_cells X xdims f Y ydims)
    as (Y' & HY' & Hlen & Hcells); [done|done|simpl; lia..|exact Htiles|].
  exists Y'. split_and!; [exact HY'| |].
  - destruct HY as (? & ? & ? & ? & HYlen). unfold shaped4.
    split_and!; [done..|]. by rewrite Hlen.
  - intros n h w c Hn Hh Hw Hc. rewrite Hcells by done.
    rewrite pool_acc_mean. apply fadd_0_l.
Qed.


(** C5 fails on the pooling kernel where the rows and the columns of the
    output need different numbers of tiles: the kernel takes the tile row
    from [blockIdx.z / tiles(W)] and the tile column from
    [blockIdx.z % tiles(H)].  For a 34×2 input of ones and [f = 2] the
    output is 17×1; its last cell should hold the mean 1 and is never
    written, while the sequential [average_pool] writes it. *)
Theorem average_pool_kernel_misses_cell :
  let X := replicate 68 (Q2Qc 1) in
  let xdims := Dims4 1 34 2 1 in
  let ydims := Dims4 1 17 1 1 in
  launch
    (Dim3 1 1 (((1 - 1) ÷ TILE_WIDTH + 1) * ((17 - 1) ÷ TILE_WIDTH + 1)))
    (Dim3 TILE_WIDTH TILE_WIDTH 1)
    (λ blockIdx threadIdx Y,
       Cuda.average_pool_kernel blockIdx threadIdx X Y xdims ydims 2)
    (zeros 17)
  = Some (replicate 16 (Q2Qc 1) ++ [Q2Qc 0])
  ∧ launch
      (Dim3 1 1 (((1 - 1) ÷ TILE_WIDTH + 1) * ((17 - 1) ÷ TILE_WIDTH + 1)))
      (Dim3 TILE_WIDTH TILE_WIDTH 1)
      (λ blockIdx threadIdx Y,
         Cuda.average_pool_kernel blockIdx threadIdx X Y xdims ydims 2)
      (replicate 17 (Q2Qc 5))
    = Some (replicate 16 (Q2Qc 1) ++ [Q2Qc 5])
  ∧ Sequential.average_pool X xdims 2 (zeros 17) ydims
    = Some (replicate 17 (Q2Qc 1))
  ∧ window_mean X xdims 2 0 16 0 0 = Q2Qc 1.
Proof.
  split_and!; apply (bool_decide_unpack _); by vm_compute.
Qed.

(** C6: for every batch size [N >= 1] and the fixed hyperparameters, the
    shapes derived by the forward pipeline are conv1 N×24×24×32, pool1
    N×12×12×32, conv2 N×8×8×64, pool2 N×4×4×64, flatten N×1024, fc1 N×128 and
    fc2 N×10; [forward_shapes] is a total function of the shapes alone. *)
Theorem forward_shapes_fixed (N : Z) :
  1 ≤ N →
  forward_shapes (xdims N) conv1dims conv2dims fc1dims fc2dims =
  Shapes (Dims4 N 24 24 32) (Dims4 N 12 12 32) (Dims4 N 8 8 64)
         (Dims4 N 4 4 64) (Dims2 N 1024) (Dims2 N 128) (Dims2 N 10).
Proof. intros _. reflexivity. Qed.

Lemma forward_shapes_fixed_witness :
  forward_shapes (xdims 2) conv1dims conv2dims fc1dims fc2dims =
  Shapes (Dims4 2 24 24 32) (Dims4 2 12 12 32) (Dims4 2 8 8 64)
         (Dims4 2 4 4 64) (Dims2 2 1024) (Dims2 2 128) (Dims2 2 10).
Proof. apply (forward_shapes_fixed 2). lia. Defined.










(** C9: when the first extent of the dataset [/x] differs from the configured
    batch size, [loadData] returns 1 without having read a dataset and with
    the caller's buffers as they were; when it agrees, [loadData] reads [/x]
    and [/y] into the buffers and returns 0. *)
Theorem loadData_batch_size {F : Type}
    (file : Cuda.testdata) (FLAGS_batch_size dim0 : Z) (x y : list F) :
  length (Cuda.input_dims file) = 4%nat →
  Cuda.input_dims file !! 0%nat = Some dim0 →
  0 ≤ dim0 < 2 ^ 64 → 0 ≤ FLAGS_batch_size < 2 ^ 31 →
  (dim0 ≠ FLAGS_batch_size →
     Cuda.loadData file FLAGS_batch_size x y = Some (1, Cuda.Loaded x y []))
  ∧ (dim0 = FLAGS_batch_size →
     (length (Cuda.x_data file) ≤ length x)%nat →
     (length (Cuda.y_data file) ≤ length y)%nat →
     ∃ x' y',
       Cuda.loadData file FLAGS_batch_size x y
       = Some (0, Cuda.Loaded x' y' ["/y"; "/x"]%string)
       ∧ x' = Cuda.x_data file ++ drop (length (Cuda.x_data file)) x
       ∧ y' = Cuda.y_data file ++ drop (length (Cuda.y_data file)) y).
Proof.
  intros Hn Hd Hdim Hb. unfold Cuda.loadData. rewrite Hn, Hd. simpl.
  rewrite (Z.mod_small FLAGS_batch_size) by lia.
  split.
  - intros Hne. by destruct (Z.eqb_spec dim0 FLAGS_batch_size).
  - intros -> Hx Hy. rewrite Z.eqb_refl. simpl.
    unfold Cuda.H5Dread, memcpy.
    rewrite !Nat2Z.id, !firstn_all.
    repeat match goal with
    | |- context [?a <=? ?b] => destruct (Z.leb_spec a b); [|lia]
    end. simpl. eauto.
Qed.

Lemma loadData_batch_size_witness :
  let file := Cuda.TestData [2; 28; 28; 1] [Q2Qc 3; Q2Qc 4] [Q2Qc 1; Q2Qc 0] in
  let x := [Q2Qc 9; Q2Qc 9] in
  let y := [Q2Qc 8; Q2Qc 8] in
  Cuda.loadData file 10 x y = Some (1, Cuda.Loaded x y [])
  ∧ ∃ x' y',
      Cuda.loadData file 2 x y
      = Some (0, Cuda.Loaded x' y' ["/y"; "/x"]%string)
      ∧ x' = Cuda.x_data file ++ drop (length (Cuda.x_data file)) x
      ∧ y' = Cuda.y_data file ++ drop (length (Cuda.y_data file)) y.
Proof.
  intros file x y. split.
  - apply (proj1 (loadData_batch_size (F:=Qc) file 10 2 x y
                    eq_refl eq_refl ltac:(lia) ltac:(lia))). lia.
  - apply (proj2 (loadData_batch_size (F:=Qc) file 2 2 x y
                    eq_refl eq_refl ltac:(lia) ltac:(lia))); simpl; lia.
Defined.








(** * Further properties of the operators *)

(** ** Loops that run into undefined behaviour *)

(** A loop is undefined as soon as one of its iterations is undefined in
    every state that the loop can reach. *)
Lemma for_fails {S : Type} (I : S → Prop) (l : list Z)
    (body : Z → S → option S) (k0 : Z) (s : S) :
  I s →
  (∀ k s s', k ∈ l → I s → body k s = Some s' → I s') →
  k0 ∈ l → (∀ s, I s → body k0 s = None) →
  for_ l body s = None.
Proof.
  revert s. induction l as [|k l IH]; intros s Hs Hstep Hin Hfail.
  { by apply elem_of_nil in Hin. }
  simpl. destruct (body k s) as [s'|] eqn:Hb; [|done]. simpl.
  apply elem_of_cons in Hin as [->|Hin].
  { rewrite Hfail in Hb by done. done. }
  apply IH; [|intros k' s1 s2 Hk'; apply Hstep; by right|done|done].
  apply (Hstep k s s'); [by left|done..].
Qed.

Lemma rd_None {A : Type} (X : list A) i :
  Z.of_nat (length X) ≤ i → rd X i = None.
Proof.
  intros Hi. unfold rd. destruct (Z.ltb_spec i 0); [done|].
  apply lookup_ge_None. lia.
Qed.



(** ** The ReLU passes *)

Section ReluPass.
Context {F : Type} `{Scalar F}.



End ReluPass.



(** ** Unrolling, multiplying and rerolling *)











(** ** Pooling *)





(** ** The fully-connected operator and the classifier *)

Section ProductFacts.
Context {F : Type} `{!Scalar F, !ScalarField F}.



End ProductFacts.



Section ArgmaxBounds.
Context {F : Type} `{!Scalar F, !ScalarOrder F}.

(** [argmax] writes the first [xdims[0]] cells of [Y] and no other. *)
Lemma argmax_frame (X : list F) xd (Y Y' : list Z) :
  shaped2 X xd → 1 ≤ e1 xd → e0 xd ≤ Z.of_nat (length Y) →
  Sequential.argmax X xd Y = Some Y' →
  ∀ i, e0 xd ≤ i → rd Y' i = rd Y i.
Proof.
  intros HX HC HY HY' i Hi.
  set (pick := λ i, default 0 (fst <$>
    for_ (range 0 (e1 xd)) (λ j '(max_idx, max),
      elem ← rd X (i * e1 xd + j);
      if flt max elem then Some (j, elem) else Some (max_idx, max))
      (0, at2 X xd i 0))).
  assert (cellwise (length Y) (λ Y, Sequential.argmax X xd Y)
            (λ j v, foldl (λ v i, if j =? i then pick i else v) v
                          (range 0 (e0 xd)))) as Hc.
  { unfold Sequential.argmax.
    apply (cellwise_for _ _ _ (λ i j v, if j =? i then pick i else v)).
    intros k Hk%elem_of_range. cbv zeta.
    destruct (argmax_row X xd k HX Hk HC) as (js & Hfor & _).
    destruct HX as (? & ? & HX).
    eapply cellwise_bind.
    { apply rd_get. rewrite HX. replace (k * e1 xd) with (off2 xd k 0)
        by (unfold off2; lia). apply (off2_bound xd); lia. }
    fold (off2 xd k 0) (at2 X xd k 0) in Hfor.
    replace (get X (k * e1 xd)) with (at2 X xd k 0)
      by (unfold at2, off2; f_equal; lia).
    eapply cellwise_bind; [exact Hfor|].
    unfold pick. rewrite Hfor. simpl. apply cellwise_write. lia. }
  destruct (Hc Y eq_refl) as (Y2 & HY2 & Hlen & Hrd).
  rewrite HY' in HY2. injection HY2 as <-.
  destruct (rd Y i) as [v|] eqn:Hv.
  - rewrite (Hrd i v Hv). f_equal. apply foldl_noop.
    intros k v0 Hk%elem_of_range. destruct (Z.eqb_spec i k); [lia|done].
  - unfold rd in Hv |- *. destruct (Z.ltb_spec i 0); [done|].
    apply lookup_ge_None. apply lookup_ge_None in Hv. lia.
Qed.

End ArgmaxBounds.





(** ** The two pipelines *)

Lemma shaped2_ext {F : Type} `{!Scalar F} (X Y : list F) xd :
  shaped2 X xd → shaped2 Y xd →
  (∀ i j, 0 ≤ i < e0 xd → 0 ≤ j < e1 xd → at2 X xd i j = at2 Y xd i j) →
  X = Y.
Proof.
  intros (? & ? & HX) (_ & _ & HY) Hcells.
  apply get_ext; [lia|]. intros idx Hidx.
  destruct (off2_split (e1 xd) (e0 xd) idx) as (i & j & -> & ? & ?);
    [unfold size2 in HX; lia|done|]. by apply Hcells.
Qed.

Section Pipelines.
Context {F : Type} `{!Scalar F, !ScalarField F}.
Implicit Types (x a b c d e f : list F).

(** The tensors between the layers of the network, each given by the
    cells of the one before it: convolution and clamp, pooling, convolution
    and clamp, pooling, and the first fully-connected layer with its
    clamp. *)
Definition hidden_layers (N : Z) x (conv1 conv2 fc1 : list F) a b c d e
    : Prop :=
  shaped4 a (Dims4 N 24 24 32)
  ∧ (∀ n h w m, 0 ≤ n < N → 0 ≤ h < 24 → 0 ≤ w < 24 → 0 ≤ m < 32 →
       at4 a (Dims4 N 24 24 32) n h w m
       = relu (conv_sum x (xdims N) conv1 conv1dims n h w m))
  ∧ shaped4 b (Dims4 N 12 12 32)
  ∧ (∀ n h w m, 0 ≤ n < N → 0 ≤ h < 12 → 0 ≤ w < 12 → 0 ≤ m < 32 →
       at4 b (Dims4 N 12 12 32) n h w m
       = window_mean a (Dims4 N 24 24 32) 2 n h w m)
  ∧ shaped4 c (Dims4 N 8 8 64)
  ∧ (∀ n h w m, 0 ≤ n < N → 0 ≤ h < 8 → 0 ≤ w < 8 → 0 ≤ m < 64 →
       at4 c (Dims4 N 8 8 64) n h w m
       = relu (conv_sum b (Dims4 N 12 12 32) conv2 conv2dims n h w m))
  ∧ shaped4 d (Dims4 N 4 4 64)
  ∧ (∀ n h w m, 0 ≤ n < N → 0 ≤ h < 4 → 0 ≤ w < 4 → 0 ≤ m < 64 →
       at4 d (Dims4 N 4 4 64) n h w m
       = window_mean c (Dims4 N 8 8 64) 2 n h w m)
  ∧ shaped2 e (Dims2 N 128)
  ∧ (∀ i j, 0 ≤ i < N → 0 ≤ j < 128 →
       at2 e (Dims2 N 128) i j = relu (dot d (Dims2 N 1024) fc1 fc1dims i j)).

(** The cells determine the tensors. *)
Lemma hidden_layers_unique N x (conv1 conv2 fc1 : list F) a b c d e
    (a' b' c' d' e' : list F) :
  hidden_layers N x conv1 conv2 fc1 a b c d e →
  hidden_layers N x conv1 conv2 fc1 a' b' c' d' e' →
  e = e'.
Proof.
  intros (Ha & Hac & Hb & Hbc & Hc & Hcc & Hd & Hdc & He & Hec)
         (Ha' & Hac' & Hb' & Hbc' & Hc' & Hcc' & Hd' & Hdc' & He' & Hec').
  assert (a = a') as <-.
  { apply (shaped4_ext _ _ _ Ha Ha'). intros n h w m ? ? ? ?.
    by rewrite Hac, Hac'. }
  assert (b = b') as <-.
  { apply (shaped4_ext _ _ _ Hb Hb'). intros n h w m ? ? ? ?.
    by rewrite Hbc, Hbc'. }
  assert (c = c') as <-.
  { apply (shaped4_ext _ _ _ Hc Hc'). intros n h w m ? ? ? ?.
    by rewrite Hcc, Hcc'. }
  assert (d = d') as <-.
  { apply (shaped4_ext _ _ _ Hd Hd'). intros n h w m ? ? ? ?.
    by rewrite Hdc, Hdc'. }
  apply (shaped2_ext _ _ _ He He'). intros i j ? ?. by rewrite Hec, Hec'.
Qed.

Lemma sequential_forward_layers N x (conv1 conv2 fc1 fc2 : list F) :
  shaped4 x (xdims N) → shaped4 conv1 conv1dims → shaped4 conv2 conv2dims →
  shaped2 fc1 fc1dims → shaped2 fc2 fc2dims → batch_fits N →
  ∃ f,
    Sequential.forward_scores N x conv1 conv2 fc1 fc2 = Some f
    ∧ (shaped2 f (Dims2 N 10)
       ∧ ∃ a b c d e,
           hidden_layers N x conv1 conv2 fc1 a b c d e
           ∧ ∀ i j, 0 ≤ i < N → 0 ≤ j < 10 →
               at2 f (Dims2 N 10) i j = dot e (Dims2 N 128) fc2 fc2dims i j).
Proof.
  intros Hx Hc1 Hc2 Hf1 Hf2 HNfit.
  assert (0 ≤ N) as HN by apply Hx.
  unfold Sequential.forward_scores. cbv zeta.
  change (forward_shapes (xdims N) conv1dims conv2dims fc1dims fc2dims)
    with (Shapes (Dims4 N 24 24 32) (Dims4 N 12 12 32) (Dims4 N 8 8 64)
            (Dims4 N 4 4 64) (Dims2 N 1024) (Dims2 N 128) (Dims2 N 10)).
  cbn [adims bdims cdims ddims ddims2 edims fdims d0 d1 d2 d3 e0 e1].
  int_fits.
  (* conv 1 and its clamp *)
  destruct (conv_forward_valid_zeros N 28 28 1 5 32 x conv1 Hx Hc1)
    as (a0 & Ha0 & Ha0s & Ha0c); [lia|lia|].
  eapply bind_total; [exact Ha0|]. cbv beta.
  destruct (relu4_cells a0 (Dims4 N 24 24 32) Ha0s) as (a & Ha & Has & Hac).
  eapply bind_total; [exact Ha|]. cbv beta.
  (* pool 1 *)
  assert (shaped4 (zeros (F:=F) (N * 12 * 12 * 32)) (Dims4 N 12 12 32)) as Hzb
    by (apply (shaped4_zeros (Dims4 N 12 12 32)); simpl; lia).
  destruct (average_pool_cells a (Dims4 N 24 24 32) 2
              (zeros (N * 12 * 12 * 32)) (Dims4 N 12 12 32))
    as (b & Hb & Hblen & Hbc); [done|done|simpl; lia..|].
  eapply bind_total; [exact Hb|]. cbv beta.
  assert (shaped4 b (Dims4 N 12 12 32)) as Hbs.
  { destruct Hzb as (? & ? & ? & ? & Hz). unfold shaped4.
    split_and!; [done..|]. by rewrite Hblen. }
  (* conv 2 and its clamp *)
  destruct (conv_forward_valid_zeros N 12 12 32 5 64 b conv2 Hbs Hc2)
    as (c0 & Hc0 & Hc0s & Hc0c); [lia|lia|].
  eapply bind_total; [exact Hc0|]. cbv beta.
  destruct (relu4_cells c0 (Dims4 N 8 8 64) Hc0s) as (c & Hc & Hcs & Hcc).
  eapply bind_total; [exact Hc|]. cbv beta.
  (* pool 2 *)
  assert (shaped4 (zeros (F:=F) (N * 4 * 4 * 64)) (Dims4 N 4 4 64)) as Hzd
    by (apply (shaped4_zeros (Dims4 N 4 4 64)); simpl; lia).
  destruct (average_pool_cells c (Dims4 N 8 8 64) 2
              (zeros (N * 4 * 4 * 64)) (Dims4 N 4 4 64))
    as (d & Hd & Hdlen & Hdc); [done|done|simpl; lia..|].
  eapply bind_total; [exact Hd|]. cbv beta.
  assert (shaped4 d (Dims4 N 4 4 64)) as Hds.
  { destruct Hzd as (? & ? & ? & ? & Hz). unfold shaped4.
    split_and!; [done..|]. by rewrite Hdlen. }
  assert (shaped2 d (Dims2 N 1024)) as Hds2.
  { destruct Hds as (_ & _ & _ & _ & Hdl). unfold size4 in Hdl.
    unfold shaped2, size2. simpl in *. split_and!; lia. }
  (* fully connected 1 and its clamp *)
  destruct (fully_forward_cells id d (Dims2 N 1024) fc1 fc1dims
              (zeros (N * 128)))
    as (e0 & He0 & He0len & He0c); [done|done|simpl; lia| |].
  { rewrite length_zeros. simpl. lia. }
  eapply bind_total; [exact He0|]. cbv beta.
  apply (f_equal Z.of_nat) in He0len. rewrite length_zeros in He0len.
  assert (shaped2 e0 (Dims2 N 128)) as He0s.
  { unfold shaped2, size2. simpl. split_and!; lia. }
  destruct (relu2_cells e0 (Dims2 N 128) He0s) as (e & He & Hes & Hec).
  eapply bind_total; [exact He|]. cbv beta.
  (* fully connected 2 *)
  destruct (fully_forward_cells id e (Dims2 N 128) fc2 fc2dims
              (zeros (N * 10)))
    as (f & Hf & Hflen & Hfc); [done|done|simpl; lia| |].
  { rewrite length_zeros. simpl. lia. }
  exists f. split; [exact Hf|].
  apply (f_equal Z.of_nat) in Hflen. rewrite length_zeros in Hflen.
  split.
  { unfold shaped2, size2. simpl. split_and!; lia. }
  exists a, b, c, d, e. split; [|intros i j Hi Hj; apply (Hfc i j); done].
  unfold hidden_layers. split_and!; [done| |done| |done| |done| |done|].
  - intros n h w m Hn Hh Hw Hm. rewrite Hac by done. f_equal.
    apply Ha0c; lia.
  - intros n h w m Hn Hh Hw Hm. rewrite Hbc by done.
    rewrite pool_acc_mean. unfold at4 at 1. rewrite get_zeros.
    apply fadd_0_l.
  - intros n h w m Hn Hh Hw Hm. rewrite Hcc by done. f_equal.
    apply Hc0c; lia.
  - intros n h w m Hn Hh Hw Hm. rewrite Hdc by done.
    rewrite pool_acc_mean. unfold at4 at 1. rewrite get_zeros.
    apply fadd_0_l.
  - intros i j Hi Hj. rewrite Hec by done. f_equal. apply (He0c i j); done.
Qed.

Lemma malloc_shaped4 (junk : Z → F) dims n :
  0 ≤ d0 dims → 0 ≤ d1 dims → 0 ≤ d2 dims → 0 ≤ d3 dims →
  n = size4 dims → shaped4 (malloc junk n) dims.
Proof.
  intros ? ? ? ? ->. unfold shaped4. split_and!; [done..|].
  apply length_malloc. by apply size4_nonneg.
Qed.

Lemma cuda_forward_layers (junk : Z → F) (shared : Z → dim3 → list F * list F)
    N x (conv1 conv2 fc1 fc2 : list F) :
  shaped4 x (xdims N) → shaped4 conv1 conv1dims → shaped4 conv2 conv2dims →
  shaped2 fc1 fc1dims → shaped2 fc2 fc2dims → batch_fits N →
  (∀ n (blk : dim3),
     length (shared n blk).1 = Z.to_nat (TILE_WIDTH * TILE_WIDTH)
     ∧ length (shared n blk).2 = Z.to_nat (TILE_WIDTH * TILE_WIDTH)) →
  ∃ f,
    Cuda.forward_scores junk shared N x conv1 conv2 fc1 fc2 = Some f
    ∧ (shaped2 f (Dims2 N 10)
       ∧ ∃ a b c d e,
           hidden_layers N x conv1 conv2 fc1 a b c d e
           ∧ ∀ i j, 0 ≤ i < N → 0 ≤ j < 10 →
               at2 f (Dims2 N 10) i j
               = relu (dot e (Dims2 N 128) fc2 fc2dims i j)).
Proof.
  intros Hx Hc1 Hc2 Hf1 Hf2 HNfit Hshared.
  assert (0 ≤ N) as HN by apply Hx.
  unfold Cuda.forward_scores. cbv zeta.
  change (forward_shapes (xdims N) conv1dims conv2dims fc1dims fc2dims)
    with (Shapes (Dims4 N 24 24 32) (Dims4 N 12 12 32) (Dims4 N 8 8 64)
            (Dims4 N 4 4 64) (Dims2 N 1024) (Dims2 N 128) (Dims2 N 10)).
  cbn [adims bdims cdims ddims ddims2 edims fdims d0 d1 d2 d3 e0 e1
       xdims conv1dims conv2dims fc1dims fc2dims
       NUM_ROWS NUM_COLS NUM_CHANNELS].
  unfold NUM_ROWS, NUM_COLS, NUM_CHANNELS.
  int_fits.
  (* conv 1 *)
  destruct (convLayer_forward_cells junk shared N 32 1 28 28 5 x conv1
              (malloc junk (N * 24 * 24 * 32 * 1)))
    as (a & Ha & Has & Hac); [done|done|lia|lia| |by apply conv1_fits|done|].
  { apply malloc_shaped4; simpl; try lia. unfold size4; simpl; lia. }
  assert (Z.of_nat (length a) = N * 24 * 24 * 32) as Halen
    by (destruct Has as (_ & _ & _ & _ & ->); unfold size4; simpl; lia).
  eapply bind_total; [exact Ha|]. cbv beta.
  eapply bind_total.
  { apply memcpy_all; [lia|]. rewrite length_malloc by lia. lia. }
  cbv beta.
  (* pool 1 *)
  destruct (average_pool_kernel_cells a (Dims4 N 24 24 32) 2
              (malloc junk (N * 12 * 12 * 32 * 1)) (Dims4 N 12 12 32))
    as (b & Hb & Hblen & Hbc); [done| |simpl; lia..|done|].
  { apply malloc_shaped4; simpl; try lia. unfold size4; simpl; lia. }
  eapply bind_total; [exact Hb|]. cbv beta.
  apply (f_equal Z.of_nat) in Hblen. rewrite length_malloc in Hblen by lia.
  eapply bind_total.
  { apply memcpy_all; [lia|]. rewrite length_zeros. lia. }
  cbv beta.
  assert (shaped4 b (Dims4 N 12 12 32)) as Hbs.
  { unfold shaped4, size4. simpl. split_and!; lia. }
  (* conv 2 *)
  destruct (convLayer_forward_cells junk shared N 64 32 12 12 5 b conv2
              (malloc junk (N * 8 * 8 * 64)))
    as (c & Hc & Hcs & Hcc); [done|done|lia|lia| |by apply conv2_fits|done|].
  { apply malloc_shaped4; simpl; try lia. unfold size4; simpl; lia. }
  assert (Z.of_nat (length c) = N * 8 * 8 * 64) as Hclen
    by (destruct Hcs as (_ & _ & _ & _ & ->); unfold size4; simpl; lia).
  eapply bind_total; [exact Hc|]. cbv beta.
  eapply bind_total.
  { apply memcpy_all; [lia|]. rewrite length_malloc by lia. lia. }
  cbv beta.
  (* pool 2 *)
  destruct (average_pool_kernel_cells c (Dims4 N 8 8 64) 2
              (malloc junk (N * 4 * 4 * 64 * 1)) (Dims4 N 4 4 64))
    as (d & Hd & Hdlen & Hdc); [done| |simpl; lia..|done|].
  { apply malloc_shaped4; simpl; try lia. unfold size4; simpl; lia. }
  eapply bind_total; [exact Hd|]. cbv beta.
  apply (f_equal Z.of_nat) in Hdlen. rewrite length_malloc in Hdlen by lia.
  eapply bind_total.
  { apply memcpy_all; [lia|]. rewrite length_zeros. lia. }
  cbv beta.
  assert (shaped4 d (Dims4 N 4 4 64)) as Hds.
  { unfold shaped4, size4. simpl. split_and!; lia. }
  (* fully connected 1 and 2 *)
  destruct (fully_forward_cells relu d (Dims2 N 1024) fc1 fc1dims
              (zeros (N * 128)))
    as (e & He & Helen & Hec).
  { unfold shaped2, size2. simpl. split_and!; lia. }
  { done. }
  { simpl. lia. }
  { rewrite length_zeros. simpl. lia. }
  eapply bind_total; [exact He|]. cbv beta.
  apply (f_equal Z.of_nat) in Helen. rewrite length_zeros in Helen.
  assert (shaped2 e (Dims2 N 128)) as Hes.
  { unfold shaped2, size2. simpl. split_and!; lia. }
  destruct (fully_forward_cells relu e (Dims2 N 128) fc2 fc2dims
              (zeros (N * 10)))
    as (f & Hf & Hflen & Hfc); [done|done|simpl; lia| |].
  { rewrite length_zeros. simpl. lia. }
  exists f. split; [exact Hf|].
  apply (f_equal Z.of_nat) in Hflen. rewrite length_zeros in Hflen.
  split.
  { unfold shaped2, size2. simpl. split_and!; lia. }
  exists a, b, c, d, e. split; [|intros i j Hi Hj; apply (Hfc i j); done].
  unfold hidden_layers. split_and!; [done| |done| |done| |done| |done|].
  - intros n h w m Hn Hh Hw Hm. apply Hac; lia.
  - intros n h w m Hn Hh Hw Hm. rewrite Hbc by done.
    rewrite pool_acc_mean. apply fadd_0_l.
  - intros n h w m Hn Hh Hw Hm. apply Hcc; lia.
  - intros n h w m Hn Hh Hw Hm. rewrite Hdc by done.
    rewrite pool_acc_mean. apply fadd_0_l.
  - intros i j Hi Hj. apply (Hec i j); done.
Qed.

(** The scores of the CUDA variant are the scores of the sequential
    variant, clamped. *)
Lemma forward_scores_relu (junk : Z → F) (shared : Z → dim3 → list F * list F)
    N x (conv1 conv2 fc1 fc2 : list F) :
  shaped4 x (xdims N) → shaped4 conv1 conv1dims → shaped4 conv2 conv2dims →
  shaped2 fc1 fc1dims → shaped2 fc2 fc2dims → batch_fits N →
  (∀ n (blk : dim3),
     length (shared n blk).1 = Z.to_nat (TILE_WIDTH * TILE_WIDTH)
     ∧ length (shared n blk).2 = Z.to_nat (TILE_WIDTH * TILE_WIDTH)) →
  ∃ fs,
    Sequential.forward_scores N x conv1 conv2 fc1 fc2 = Some fs
    ∧ shaped2 fs (Dims2 N 10)
    ∧ Cuda.forward_scores junk shared N x conv1 conv2 fc1 fc2
      = Some (relu <$> fs).
Proof.
  intros Hx Hc1 Hc2 Hf1 Hf2 HNfit Hshared.
  destruct (sequential_forward_layers N x conv1 conv2 fc1 fc2)
    as (fs & Hfs & Hfss & a & b & c & d & e & Hl & Hfsc); [done..|].
  destruct (cuda_forward_layers junk shared N x conv1 conv2 fc1 fc2)
    as (fc & Hfc & Hfcs & a' & b' & c' & d' & e' & Hl' & Hfcc); [done..|].
  pose proof (hidden_layers_unique _ _ _ _ _ _ _ _ _ _ _ _ _ _ _ Hl Hl') as <-.
  exists fs. split_and!; [done..|]. rewrite Hfc. f_equal.
  pose proof Hfss as (? & ? & Hfslen). pose proof Hfcs as (_ & _ & Hfclen).
  apply get_ext; [rewrite length_fmap; lia|]. intros idx Hidx.
  assert (get (relu <$> fs) idx = relu (get fs idx)) as ->.
  { unfold get, rd. destruct (Z.ltb_spec idx 0); [lia|].
    rewrite list_lookup_fmap.
    destruct (lookup_lt_is_Some_2 fs (Z.to_nat idx)) as [v ->]; [lia|]. done. }
  destruct (off2_split 10 N idx) as (i & j & -> & Hi & Hj);
    [unfold size2 in Hfclen; simpl in Hfclen; lia|done|].
  specialize (Hfsc i j Hi Hj). specialize (Hfcc i j Hi Hj).
  unfold at2, off2 in Hfsc, Hfcc. cbn [e1] in Hfsc, Hfcc.
  by rewrite Hfsc, Hfcc.
Qed.
End Pipelines.

(** ** The classifier on clamped scores *)

Section ClampedScores.
Context {F : Type} `{!Scalar F, !ScalarOrder F}.

Lemma flt_le_trans (a b c : F) :
  flt a b = true → flt c b = false → flt a c = true.
Proof.
  intros Hab Hcb. destruct (flt a c) eqn:Hac; [done|].
  destruct (flt c a) eqn:Hca.
  - rewrite <- Hcb. by apply flt_trans with a.
  - rewrite (flt_connex a c Hac Hca) in Hab. congruence.
Qed.

Lemma relu_pos (x : F) : flt f0 x = true → relu x = x.
Proof. intros Hx. unfold relu. by rewrite (flt_asym _ _ Hx). Qed.

Lemma relu_nonpos (x : F) : flt f0 x = false → relu x = f0.
Proof.
  intros Hx. unfold relu. destruct (flt x f0) eqn:Hx'; [done|].
  by apply flt_connex.
Qed.

Lemma relu_pos_inv (x : F) : flt f0 (relu x) = true → relu x = x.
Proof.
  unfold relu. destruct (flt x f0); [|done].
  by rewrite flt_irrefl.
Qed.

(** Nothing exceeds its clamp. *)
Lemma relu_ge (x : F) : flt (relu x) x = false.
Proof.
  unfold relu. destruct (flt x f0) eqn:Hx; [by apply flt_asym|].
  apply flt_irrefl.
Qed.

Lemma at2_relu (X : list F) xd i j :
  shaped2 X xd → 0 ≤ i < e0 xd → 0 ≤ j < e1 xd →
  at2 (relu <$> X) xd i j = relu (at2 X xd i j).
Proof.
  intros (? & ? & HX) Hi Hj. pose proof (off2_bound xd i j Hi Hj) as Hb.
  unfold at2, get, rd. destruct (Z.ltb_spec (off2 xd i j) 0); [lia|].
  rewrite list_lookup_fmap.
  destruct (lookup_lt_is_Some_2 X (Z.to_nat (off2 xd i j))) as [v ->]; [lia|].
  done.
Qed.

Lemma shaped2_relu (X : list F) xd : shaped2 X xd → shaped2 (relu <$> X) xd.
Proof.
  intros (? & ? & HX). unfold shaped2. split_and!; [done..|].
  by rewrite length_fmap.
Qed.

(** With a positive score in the row, the clamp keeps the maxima of the row
    where they are. *)
Lemma row_max_relu (X : list F) xd i j0 j :
  shaped2 X xd → 0 ≤ i < e0 xd → 0 ≤ j0 < e1 xd →
  flt f0 (at2 X xd i j0) = true →
  row_max (relu <$> X) xd i j ↔ row_max X xd i j.
Proof.
  intros HX Hi Hj0 Hpos. unfold row_max. split; intros [Hj Hmax]; (split; [done|]).
  - specialize (Hmax j0 Hj0) as Hj0max. rewrite !at2_relu in Hj0max by done.
    rewrite (relu_pos _ Hpos) in Hj0max.
    pose proof (flt_le_trans _ _ _ Hpos Hj0max) as Hposj.
    apply relu_pos_inv in Hposj as Hxj.
    intros j' Hj'. specialize (Hmax j' Hj'). rewrite !at2_relu in Hmax by done.
    rewrite Hxj in Hmax.
    destruct (flt (at2 X xd i j) (at2 X xd i j')) eqn:Hcmp; [|done].
    rewrite <- Hmax. symmetry.
    apply (flt_le_trans _ _ _ Hcmp). apply relu_ge.
  - specialize (Hmax j0 Hj0) as Hj0max.
    pose proof (flt_le_trans _ _ _ Hpos Hj0max) as Hposj.
    intros j' Hj'. rewrite !at2_relu by done.
    rewrite (relu_pos _ Hposj).
    unfold relu at 1. destruct (flt (at2 X xd i j') f0) eqn:Hneg.
    + by apply flt_asym.
    + by apply Hmax.
Qed.

Lemma argmax_relu_rows (X : list F) xd (Y : list Z) :
  shaped2 X xd → 1 ≤ e1 xd → e0 xd ≤ Z.of_nat (length Y) →
  ∃ Y1 Y2,
    Sequential.argmax X xd Y = Some Y1
    ∧ Sequential.argmax (relu <$> X) xd Y = Some Y2
    ∧ length Y1 = length Y ∧ length Y2 = length Y
    ∧ (∀ i, 0 ≤ i < e0 xd →
         ((∃ j, 0 ≤ j < e1 xd ∧ flt f0 (at2 X xd i j) = true) →
            rd Y2 i = rd Y1 i)
         ∧ ((∀ j, 0 ≤ j < e1 xd → flt f0 (at2 X xd i j) = false) →
              rd Y2 i = Some 0))
    ∧ (∀ i, e0 xd ≤ i → rd Y1 i = rd Y i ∧ rd Y2 i = rd Y i).
Proof.
  intros HX HC HY. pose proof (shaped2_relu X xd HX) as HX'.
  destruct (argmax_rows X xd Y HX HC HY) as (Y1 & HY1 & Hlen1 & Hc1).
  destruct (argmax_rows _ xd Y HX' HC HY) as (Y2 & HY2 & Hlen2 & Hc2).
  exists Y1, Y2. split_and!; [done..| |].
  - intros i Hi.
    destruct (Hc1 i Hi) as (js & Hjs & Hmax & Hfirst).
    destruct (Hc2 i Hi) as (js' & Hjs' & Hmax' & Hfirst').
    rewrite Hjs, Hjs'. split.
    + intros (j0 & Hj0 & Hpos). f_equal.
      pose proof (row_max_relu X xd i j0 js HX Hi Hj0 Hpos) as Hiff.
      pose proof (row_max_relu X xd i j0 js' HX Hi Hj0 Hpos) as Hiff'.
      apply Hiff in Hmax. apply Hiff' in Hmax'.
      specialize (Hfirst js' Hmax'). specialize (Hfirst' js Hmax). lia.
    + intros Hall. f_equal.
      assert (row_max (relu <$> X) xd i 0) as H0.
      { split; [lia|]. intros j' Hj'. rewrite !at2_relu by (done || lia).
        rewrite !relu_nonpos by (apply Hall; lia). apply flt_irrefl. }
      specialize (Hfirst' 0 H0). destruct Hmax' as [? _]. lia.
  - intros i Hi. split.
    + by apply (argmax_frame X xd Y Y1).
    + by apply (argmax_frame (relu <$> X) xd Y Y2).
Qed.

(** The label of a row depends on that row alone. *)
Lemma argmax_row_agree (X X' : list F) xd xd' (Y Y' Y1 Y1' : list Z) i i' :
  shaped2 X xd → shaped2 X' xd' → e1 xd = e1 xd' → 1 ≤ e1 xd →
  e0 xd ≤ Z.of_nat (length Y) → e0 xd' ≤ Z.of_nat (length Y') →
  0 ≤ i < e0 xd → 0 ≤ i' < e0 xd' →
  (∀ j, 0 ≤ j < e1 xd → at2 X xd i j = at2 X' xd' i' j) →
  Sequential.argmax X xd Y = Some Y1 →
  Sequential.argmax X' xd' Y' = Some Y1' →
  rd Y1 i = rd Y1' i'.
Proof.
  intros HX HX' HC HC1 HY HY' Hi Hi' Hrow HY1 HY1'.
  destruct (argmax_rows X xd Y HX HC1 HY) as (Y2 & HY2 & _ & Hc).
  destruct (argmax_rows X' xd' Y' HX') as (Y2' & HY2' & _ & Hc'); [lia|done|].
  rewrite HY1 in HY2. injection HY2 as <-.
  rewrite HY1' in HY2'. injection HY2' as <-.
  destruct (Hc i Hi) as (js & -> & Hmax & Hfirst).
  destruct (Hc' i' Hi') as (js' & -> & Hmax' & Hfirst'). f_equal.
  assert (∀ j, row_max X xd i j ↔ row_max X' xd' i' j) as Hiff.
  { intros j. unfold row_max. rewrite <- HC. split; intros [Hj Hm]; (split; [done|]).
    - intros j' Hj'. rewrite <- !Hrow by done. by apply Hm.
    - intros j' Hj'. rewrite !Hrow by done. by apply Hm. }
  apply Hiff in Hmax. apply Hiff in Hmax'.
  specialize (Hfirst js' Hmax'). specialize (Hfirst' js Hmax). lia.
Qed.
End ClampedScores.

(** ** One sample at a time *)

Section PerSample.
Context {F : Type} `{!Scalar F, !ScalarField F}.

(** Row [n] of the last hidden layer is a function of image [n] alone. *)
Lemma hidden_layers_sample N N' (x x' conv1 conv2 fc1 : list F)
    (a b c d e a' b' c' d' e' : list F) n n' :
  hidden_layers N x conv1 conv2 fc1 a b c d e →
  hidden_layers N' x' conv1 conv2 fc1 a' b' c' d' e' →
  0 ≤ n < N → 0 ≤ n' < N' →
  (∀ h w, 0 ≤ h < 28 → 0 ≤ w < 28 →
     at4 x (xdims N) n h w 0 = at4 x' (xdims N') n' h w 0) →
  ∀ j, 0 ≤ j < 128 → at2 e (Dims2 N 128) n j = at2 e' (Dims2 N' 128) n' j.
Proof.
  intros (_ & Hac & _ & Hbc & _ & Hcc & _ & Hdc & _ & Hec)
         (_ & Hac' & _ & Hbc' & _ & Hcc' & _ & Hdc' & _ & Hec') Hn Hn' Hx.
  assert (∀ h w m, 0 ≤ h < 24 → 0 ≤ w < 24 → 0 ≤ m < 32 →
    at4 a (Dims4 N 24 24 32) n h w m = at4 a' (Dims4 N' 24 24 32) n' h w m)
    as Ha.
  { intros h w m Hh Hw Hm. rewrite Hac, Hac' by done. f_equal.
    unfold conv_sum. apply fsum_ext. intros p Hp. apply fsum_ext. intros q Hq.
    apply fsum_ext. intros ch Hch. simpl in Hp, Hq, Hch.
    assert (ch = 0) as -> by lia. f_equal. apply Hx; lia. }
  assert (∀ h w m, 0 ≤ h < 12 → 0 ≤ w < 12 → 0 ≤ m < 32 →
    at4 b (Dims4 N 12 12 32) n h w m = at4 b' (Dims4 N' 12 12 32) n' h w m)
    as Hb.
  { intros h w m Hh Hw Hm. rewrite Hbc, Hbc' by done.
    unfold window_mean. f_equal.
    apply fsum_ext. intros p Hp. apply fsum_ext. intros q Hq.
    apply Ha; lia. }
  assert (∀ h w m, 0 ≤ h < 8 → 0 ≤ w < 8 → 0 ≤ m < 64 →
    at4 c (Dims4 N 8 8 64) n h w m = at4 c' (Dims4 N' 8 8 64) n' h w m)
    as Hc.
  { intros h w m Hh Hw Hm. rewrite Hcc, Hcc' by done. f_equal.
    unfold conv_sum. apply fsum_ext. intros p Hp. apply fsum_ext. intros q Hq.
    apply fsum_ext. intros ch Hch. simpl in Hp, Hq, Hch.
    f_equal. apply Hb; lia. }
  assert (∀ h w m, 0 ≤ h < 4 → 0 ≤ w < 4 → 0 ≤ m < 64 →
    at4 d (Dims4 N 4 4 64) n h w m = at4 d' (Dims4 N' 4 4 64) n' h w m)
    as Hd.
  { intros h w m Hh Hw Hm. rewrite Hdc, Hdc' by done.
    unfold window_mean. f_equal.
    apply fsum_ext. intros p Hp. apply fsum_ext. intros q Hq.
    apply Hc; lia. }
  intros j Hj. rewrite Hec, Hec' by done. f_equal.
  unfold dot. apply fsum_ext. intros k Hk. simpl in Hk. f_equal.
  destruct (off2_split 64 16 k) as (hw & m & -> & Hhw & Hm); [lia|lia|].
  destruct (off2_split 4 4 hw) as (h & w & -> & Hh & Hw); [lia|lia|].
  specialize (Hd h w m Hh Hw Hm). unfold at4, off4 in Hd. cbn [d1 d2 d3] in Hd.
  unfold at2, off2. cbn [e1].
  replace (n * 1024 + ((h * 4 + w) * 64 + m))
    with (((n * 4 + h) * 4 + w) * 64 + m) by ring.
  replace (n' * 1024 + ((h * 4 + w) * 64 + m))
    with (((n' * 4 + h) * 4 + w) * 64 + m) by ring.
  exact Hd.
Qed.
End PerSample.

(** The sequential pipeline runs to its end on inputs of the fixed shapes,
    whatever the arithmetic. *)
Lemma sequential_forward_total {F : Type} `{!Scalar F} N
    (x conv1 conv2 fc1 fc2 : list F) :
  shaped4 x (xdims N) → shaped4 conv1 conv1dims → shaped4 conv2 conv2dims →
  shaped2 fc1 fc1dims → shaped2 fc2 fc2dims → batch_fits N →
  ∃ f, Sequential.forward_scores N x conv1 conv2 fc1 fc2 = Some f
       ∧ shaped2 f (Dims2 N 10).
Proof.
  intros Hx Hc1 Hc2 Hf1 Hf2 HNfit.
  assert (0 ≤ N) as HN by apply Hx.
  unfold Sequential.forward_scores. cbv zeta.
  change (forward_shapes (xdims N) conv1dims conv2dims fc1dims fc2dims)
    with (Shapes (Dims4 N 24 24 32) (Dims4 N 12 12 32) (Dims4 N 8 8 64)
            (Dims4 N 4 4 64) (Dims2 N 1024) (Dims2 N 128) (Dims2 N 10)).
  cbn [adims bdims cdims ddims ddims2 edims fdims d0 d1 d2 d3 e0 e1].
  int_fits.
  change (xdims N) with (Dims4 N 28 28 1) in *.
  change conv1dims with (Dims4 5 5 1 32) in *.
  change conv2dims with (Dims4 5 5 32 64) in *.
  change fc1dims with (Dims2 1024 128) in *.
  change fc2dims with (Dims2 128 10) in *.
  assert (∀ dims, 0 ≤ d0 dims → 0 ≤ d1 dims → 0 ≤ d2 dims → 0 ≤ d3 dims →
            ∀ Y : list F, length Y = length (zeros (F:=F) (size4 dims)) →
            shaped4 Y dims) as Hshape.
  { intros dims ? ? ? ? Y HY. unfold shaped4. split_and!; [done..|].
    rewrite HY. by apply shaped4_zeros. }
  destruct (conv_forward_valid_cells x (Dims4 N 28 28 1) conv1 (Dims4 5 5 1 32)
              (zeros (N * 24 * 24 * 32)) (Dims4 N 24 24 32))
    as (a0 & Ha0 & Ha0len & _); [done|done| |simpl; lia..|].
  { apply (shaped4_zeros (Dims4 N 24 24 32)); simpl; lia. }
  eapply bind_total; [exact Ha0|]. cbv beta.
  destruct (relu4_cells a0 (Dims4 N 24 24 32)) as (a & Ha & Has & _).
  { apply Hshape; simpl; (done || lia). }
  eapply bind_total; [exact Ha|]. cbv beta.
  destruct (average_pool_cells a (Dims4 N 24 24 32) 2
              (zeros (N * 12 * 12 * 32)) (Dims4 N 12 12 32))
    as (b & Hb & Hblen & _); [done| |simpl; lia..|].
  { apply (shaped4_zeros (Dims4 N 12 12 32)); simpl; lia. }
  eapply bind_total; [exact Hb|]. cbv beta.
  destruct (conv_forward_valid_cells b (Dims4 N 12 12 32) conv2
              (Dims4 5 5 32 64)
              (zeros (N * 8 * 8 * 64)) (Dims4 N 8 8 64))
    as (c0 & Hc0 & Hc0len & _); [|done| |simpl; lia..|].
  { apply Hshape; simpl; (done || lia). }
  { apply (shaped4_zeros (Dims4 N 8 8 64)); simpl; lia. }
  eapply bind_total; [exact Hc0|]. cbv beta.
  destruct (relu4_cells c0 (Dims4 N 8 8 64)) as (c & Hc & Hcs & _).
  { apply Hshape; simpl; (done || lia). }
  eapply bind_total; [exact Hc|]. cbv beta.
  destruct (average_pool_cells c (Dims4 N 8 8 64) 2
              (zeros (N * 4 * 4 * 64)) (Dims4 N 4 4 64))
    as (d & Hd & Hdlen & _); [done| |simpl; lia..|].
  { apply (shaped4_zeros (Dims4 N 4 4 64)); simpl; lia. }
  eapply bind_total; [exact Hd|]. cbv beta.
  apply (f_equal Z.of_nat) in Hdlen. rewrite length_zeros in Hdlen.
  destruct (fully_forward_cells id d (Dims2 N 1024) fc1 (Dims2 1024 128)
              (zeros (N * 128)))
    as (e0 & He0 & He0len & _); [|done|simpl; lia| |].
  { unfold shaped2, size2. simpl. split_and!; lia. }
  { rewrite length_zeros. simpl. lia. }
  eapply bind_total; [exact He0|]. cbv beta.
  apply (f_equal Z.of_nat) in He0len. rewrite length_zeros in He0len.
  destruct (relu2_cells e0 (Dims2 N 128)) as (e & He & Hes & _).
  { unfold shaped2, size2. simpl. split_and!; lia. }
  eapply bind_total; [exact He|]. cbv beta.
  destruct (fully_forward_cells id e (Dims2 N 128) fc2 (Dims2 128 10)
              (zeros (N * 10)))
    as (f & Hf & Hflen & _); [done|done|simpl; lia| |].
  { rewrite length_zeros. simpl. lia. }
  exists f. split; [exact Hf|].
  apply (f_equal Z.of_nat) in Hflen. rewrite length_zeros in Hflen.
  unfold shaped2, size2. simpl. split_and!; lia.
Qed.

Lemma labels_agree {F : Type} `{!Scalar F, !ScalarOrder F} (fs fs' : list F)
    (N N' n n' : Z) (out out' : list Z) :
  shaped2 fs (Dims2 N 10) → shaped2 fs' (Dims2 N' 10) →
  N ≤ Z.of_nat (length out) → N' ≤ Z.of_nat (length out') →
  0 ≤ n < N → 0 ≤ n' < N' →
  (∀ j, 0 ≤ j < 10 → at2 fs (Dims2 N 10) n j = at2 fs' (Dims2 N' 10) n' j) →
  ∃ o o', Sequential.argmax fs (Dims2 N 10) out = Some o
          ∧ Sequential.argmax fs' (Dims2 N' 10) out' = Some o'
          ∧ rd o n = rd o' n'.
Proof.
  intros Hfs Hfs' Hout Hout' Hn Hn' Hrow.
  destruct (argmax_rows fs (Dims2 N 10) out Hfs) as (o & Ho & _); [simpl; lia..|].
  destruct (argmax_rows fs' (Dims2 N' 10) out' Hfs') as (o' & Ho' & _);
    [simpl; lia..|].
  exists o, o'. split_and!; [done..|].
  apply (argmax_row_agree fs fs' (Dims2 N 10) (Dims2 N' 10) out out');
    (done || simpl; lia).
Qed.


(** ** The classifier, whatever the comparison *)

Section ArgmaxScan.
Context {F : Type} `{!Scalar F}.
Implicit Types (X : list F) (xd : dims2).

(** The scan of one row ends on a column of the row, and no score behind
    that column compares above the score it holds. *)
Lemma argmax_row_scan X xd i :
  shaped2 X xd → 0 ≤ i < e0 xd → 1 ≤ e1 xd →
  ∃ js,
    for_ (range 0 (e1 xd)) (λ j '(max_idx, max),
      elem ← rd X (i * e1 xd + j);
      if flt max elem then Some (j, elem) else Some (max_idx, max))
      (0, at2 X xd i 0) = Some (js, at2 X xd i js)
    ∧ 0 ≤ js < e1 xd
    ∧ ∀ j, js < j < e1 xd → flt (at2 X xd i js) (at2 X xd i j) = false.
Proof.
  intros (? & ? & HX) Hi HC.
  set (x := at2 X xd i).
  set (I := λ (k : Z) (s : Z * F),
    0 ≤ s.1 ∧ (s.1 < k ∨ s.1 = 0) ∧ s.2 = x s.1
    ∧ (∀ j, s.1 < j < k → flt s.2 (x j) = false)).
  destruct (for_range_ind I (e1 xd)
    (λ j '(max_idx, max),
      elem ← rd X (i * e1 xd + j);
      if flt max elem then Some (j, elem) else Some (max_idx, max))
    (0, x 0)) as ([js mx] & Hfor & HI).
  - lia.
  - unfold I; simpl. split_and!; [lia|lia|done|intros; lia].
  - intros k [mi m] Hk (Hmi & Hlt & Hm & Hall); simpl in *.
    rewrite rd_get by (rewrite HX; apply (off2_bound xd); lia).
    fold (off2 xd i k). fold (at2 X xd i k). fold (x k). simpl.
    destruct (flt m (x k)) eqn:Hcmp.
    + eexists. split; [done|]. unfold I; simpl.
      split_and!; [lia|lia|done|intros; lia].
    + eexists. split; [done|]. unfold I; simpl. split_and!; [lia|lia|done|].
      intros j Hj. destruct (decide (j = k)) as [->|Hne]; [done|].
      apply Hall. lia.
  - destruct HI as (Hjs & Hlt & Hm & Hall); simpl in *. subst mx.
    exists js. split_and!; [done|lia|lia|exact Hall].
Qed.

Lemma argmax_scan X xd (Y : list Z) :
  shaped2 X xd → 1 ≤ e1 xd → e0 xd ≤ Z.of_nat (length Y) →
  ∃ Y', Sequential.argmax X xd Y = Some Y'
        ∧ length Y' = length Y
        ∧ (∀ i, 0 ≤ i < e0 xd →
             ∃ js, rd Y' i = Some js ∧ 0 ≤ js < e1 xd
                   ∧ ∀ j, js < j < e1 xd →
                       flt (at2 X xd i js) (at2 X xd i j) = false)
        ∧ (∀ i, e0 xd ≤ i → rd Y' i = rd Y i).
Proof.
  intros HX HC HY.
  set (pick := λ i, default 0 (fst <$>
    for_ (range 0 (e1 xd)) (λ j '(max_idx, max),
      elem ← rd X (i * e1 xd + j);
      if flt max elem then Some (j, elem) else Some (max_idx, max))
      (0, at2 X xd i 0))).
  assert (cellwise (length Y) (λ Y, Sequential.argmax X xd Y)
            (λ j v, foldl (λ v i, if j =? i then pick i else v) v
                          (range 0 (e0 xd)))) as Hc.
  { unfold Sequential.argmax.
    apply (cellwise_for _ _ _ (λ i j v, if j =? i then pick i else v)).
    intros i Hi%elem_of_range. cbv zeta.
    destruct (argmax_row_scan X xd i HX Hi HC) as (js & Hfor & _).
    destruct HX as (? & ? & HX).
    eapply cellwise_bind.
    { apply rd_get. rewrite HX. replace (i * e1 xd) with (off2 xd i 0)
        by (unfold off2; lia). apply (off2_bound xd); lia. }
    fold (off2 xd i 0) (at2 X xd i 0) in Hfor.
    replace (get X (i * e1 xd)) with (at2 X xd i 0)
      by (unfold at2, off2; f_equal; lia).
    eapply cellwise_bind; [exact Hfor|].
    unfold pick. rewrite Hfor. simpl. apply cellwise_write. lia. }
  destruct (Hc Y eq_refl) as (Y' & HY' & Hlen & Hrd).
  exists Y'. split_and!; [done..| |].
  - intros i Hi.
    destruct (rd_is_Some Y i) as [y Hy]; [lia|].
    apply Hrd in Hy. rewrite Hy.
    destruct (argmax_row_scan X xd i HX Hi HC) as (js & Hfor & Hjs & Hlater).
    exists js. split_and!; [|lia|lia|done]. f_equal.
    pick_iteration i ltac:(destruct (Z.eqb_spec i k); [congruence|done]).
    rewrite Z.eqb_refl. unfold pick. by rewrite Hfor.
  - intros i Hi. destruct (rd Y i) as [v|] eqn:Hv.
    + rewrite (Hrd i v Hv). f_equal. apply foldl_noop.
      intros k v0 Hk%elem_of_range. destruct (Z.eqb_spec i k); [lia|done].
    + unfold rd in Hv |- *. destruct (Z.ltb_spec i 0); [done|].
      apply lookup_ge_None. apply lookup_ge_None in Hv. lia.
Qed.
End ArgmaxScan.

(** X12: on inputs of the fixed shapes and for every batch size whose
    buffers have an [int] number of elements, the sequential
    [forward_operation] runs to its end without reading or writing outside a
    buffer, whatever the arithmetic of the scalars, single precision with
    its NaN included.  It stores in each of the first [N] cells of [out] a
    digit below 10, a column of the row of scores behind which no score
    compares above the one it holds, and leaves the other cells of [out] as
    they were.  Where [<] is a strict total order on the scalars, as it is in
    exact arithmetic, the digit is the first column that holds the maximum
    of the row. *)
Theorem forward_operation_sequential_labels {F : Type} `{!Scalar F}
    (N : Z) (x conv1 conv2 fc1 fc2 : list F) (out : list Z) :
  shaped4 x (xdims N) → shaped4 conv1 conv1dims → shaped4 conv2 conv2dims →
  shaped2 fc1 fc1dims → shaped2 fc2 fc2dims →
  N * 24 * 24 * 32 ≤ INT_MAX → N ≤ Z.of_nat (length out) →
  ∃ f out',
    Sequential.forward_scores N x conv1 conv2 fc1 fc2 = Some f
    ∧ Sequential.forward_operation N x conv1 conv2 fc1 fc2 out = Some out'
    ∧ length out' = length out
    ∧ (∀ i, 0 ≤ i < N →
         ∃ j, rd out' i = Some j ∧ 0 ≤ j < NUM_DIGITS
              ∧ (∀ j', j < j' < NUM_DIGITS →
                   flt (at2 f (Dims2 N NUM_DIGITS) i j)
                       (at2 f (Dims2 N NUM_DIGITS) i j') = false)
              ∧ (ScalarOrder F →
                 row_max f (Dims2 N NUM_DIGITS) i j
                 ∧ ∀ j', row_max f (Dims2 N NUM_DIGITS) i j' → j ≤ j'))
    ∧ (∀ i, N ≤ i → rd out' i = rd out i).
Proof.
  intros Hx Hc1 Hc2 Hf1 Hf2 HN Hout.
  destruct (sequential_forward_total N x conv1 conv2 fc1 fc2)
    as (f & Hf & Hfs); [done..|].
  destruct (argmax_scan f (Dims2 N 10) out Hfs)
    as (out' & Hout' & Hlen & Hcells & Hframe); [simpl; lia..|].
  exists f, out'. unfold Sequential.forward_operation. rewrite Hf.
  split_and!; [done..| |done].
  intros i Hi. destruct (Hcells i Hi) as (js & Hjs & Hrange & Hlater).
  exists js. split_and!; [done|apply Hrange|apply Hrange|done|].
  intros HO.
  destruct (argmax_rows f (Dims2 N 10) out Hfs)
    as (out2 & Hout2 & _ & Hcells2); [simpl; lia..|].
  cbn [mbind option_bind] in Hout'. rewrite Hout' in Hout2.
  injection Hout2 as <-.
  destruct (Hcells2 i Hi) as (js2 & Hjs2 & Hmax & Hfirst).
  rewrite Hjs in Hjs2. injection Hjs2 as <-. done.
Qed.

Lemma forward_operation_sequential_labels_witness :
  let x := replicate (Z.to_nat (28 * 28)) (b32_pow2 (-1)) in
  let conv1 := replicate (Z.to_nat (5 * 5 * 32)) (b32_of_Z (-1)) in
  let conv2 := replicate (Z.to_nat (5 * 5 * 32 * 64)) (b32_of_Z 1) in
  let fc1 := replicate (Z.to_nat (1024 * 128)) (b32_of_Z 1) in
  let fc2 := replicate (Z.to_nat (128 * 10)) (b32_of_Z (-1)) in
  let out := [7; 7] in
  ∃ f out',
    Sequential.forward_scores 1 x conv1 conv2 fc1 fc2 = Some f
    ∧ Sequential.forward_operation 1 x conv1 conv2 fc1 fc2 out = Some out'
    ∧ length out' = length out
    ∧ (∀ i, 0 ≤ i < 1 →
         ∃ j, rd out' i = Some j ∧ 0 ≤ j < NUM_DIGITS
              ∧ (∀ j', j < j' < NUM_DIGITS →
                   flt (at2 f (Dims2 1 NUM_DIGITS) i j)
                       (at2 f (Dims2 1 NUM_DIGITS) i j') = false)
              ∧ (ScalarOrder binary32 →
                 row_max f (Dims2 1 NUM_DIGITS) i j
                 ∧ ∀ j', row_max f (Dims2 1 NUM_DIGITS) i j' → j ≤ j'))
    ∧ (∀ i, 1 ≤ i → rd out' i = rd out i).
Proof.
  intros x conv1 conv2 fc1 fc2 out.
  apply (forward_operation_sequential_labels (F:=binary32) 1 x conv1 conv2
           fc1 fc2 out); by vm_compute.
Defined.

(** X13: in exact arithmetic, on the same inputs and for a batch size
    whose buffers have an [int] number of elements, the two variants run
    the same network up to the last layer, where the CUDA variant clamps
    once more: its score matrix is the score matrix of the sequential
    variant with every negative score replaced by zero, whatever the
    uninitialized device and shared memory held. *)
Theorem forward_scores_cuda_clamps_sequential {F : Type}
    `{!Scalar F, !ScalarField F}
    (junk : Z → F) (shared : Z → dim3 → list F * list F)
    (N : Z) (x conv1 conv2 fc1 fc2 : list F) :
  shaped4 x (xdims N) → shaped4 conv1 conv1dims → shaped4 conv2 conv2dims →
  shaped2 fc1 fc1dims → shaped2 fc2 fc2dims →
  N * 24 * 24 * 32 ≤ INT_MAX →
  (∀ n b, length (shared n b).1 = Z.to_nat (TILE_WIDTH * TILE_WIDTH)
          ∧ length (shared n b).2 = Z.to_nat (TILE_WIDTH * TILE_WIDTH)) →
  ∃ fs,
    Sequential.forward_scores N x conv1 conv2 fc1 fc2 = Some fs
    ∧ shaped2 fs (Dims2 N NUM_DIGITS)
    ∧ Cuda.forward_scores junk shared N x conv1 conv2 fc1 fc2
      = Some (relu <$> fs).
Proof.
  intros Hx Hc1 Hc2 Hf1 Hf2 HN Hshared.
  exact (forward_scores_relu junk shared N x conv1 conv2 fc1 fc2
           Hx Hc1 Hc2 Hf1 Hf2 HN Hshared).
Qed.

Lemma forward_scores_cuda_clamps_sequential_witness :
  let junk := λ _ : Z, Q2Qc 7 in
  let shared := λ (_ : Z) (_ : dim3),
    (replicate 256 (Q2Qc 9), replicate 256 (Q2Qc (-3 # 1))) in
  let x := replicate (Z.to_nat (28 * 28)) (Q2Qc (1 # 2)) in
  let conv1 := replicate (Z.to_nat (5 * 5 * 32)) (Q2Qc (-1 # 1)) in
  let conv2 := replicate (Z.to_nat (5 * 5 * 32 * 64)) (Q2Qc 1) in
  let fc1 := replicate (Z.to_nat (1024 * 128)) (Q2Qc 1) in
  let fc2 := replicate (Z.to_nat (128 * 10)) (Q2Qc (-1 # 1)) in
  ∃ fs,
    Sequential.forward_scores 1 x conv1 conv2 fc1 fc2 = Some fs
    ∧ shaped2 fs (Dims2 1 NUM_DIGITS)
    ∧ Cuda.forward_scores junk shared 1 x conv1 conv2 fc1 fc2
      = Some (relu <$> fs).
Proof.
  intros junk shared x conv1 conv2 fc1 fc2.
  apply (forward_scores_cuda_clamps_sequential (F:=Qc) junk shared 1
           x conv1 conv2 fc1 fc2); by vm_compute.
Defined.



(** X15: the labels of the two variants, in exact arithmetic.  On the same
    inputs, for a batch size whose buffers have an [int] number of
    elements, both run to their end; for a sample whose sequential scores
    include a positive one the CUDA variant stores the label of the
    sequential variant, and for a sample without a positive score it
    stores 0. *)
Theorem forward_operation_cuda_vs_sequential {F : Type}
    `{!Scalar F, !ScalarField F, !ScalarOrder F}
    (junk : Z → F) (shared : Z → dim3 → list F * list F)
    (N : Z) (x conv1 conv2 fc1 fc2 : list F) (out : list Z) :
  shaped4 x (xdims N) → shaped4 conv1 conv1dims → shaped4 conv2 conv2dims →
  shaped2 fc1 fc1dims → shaped2 fc2 fc2dims →
  N * 24 * 24 * 32 ≤ INT_MAX →
  (∀ n b, length (shared n b).1 = Z.to_nat (TILE_WIDTH * TILE_WIDTH)
          ∧ length (shared n b).2 = Z.to_nat (TILE_WIDTH * TILE_WIDTH)) →
  N ≤ Z.of_nat (length out) →
  ∃ fs outS outC,
    Sequential.forward_scores N x conv1 conv2 fc1 fc2 = Some fs
    ∧ Sequential.forward_operation N x conv1 conv2 fc1 fc2 out = Some outS
    ∧ Cuda.forward_operation junk shared N x conv1 conv2 fc1 fc2 out
      = Some outC
    ∧ ∀ i, 0 ≤ i < N →
        ((∃ j, 0 ≤ j < NUM_DIGITS
               ∧ flt f0 (at2 fs (Dims2 N NUM_DIGITS) i j) = true) →
           rd outC i = rd outS i)
        ∧ ((∀ j, 0 ≤ j < NUM_DIGITS →
              flt f0 (at2 fs (Dims2 N NUM_DIGITS) i j) = false) →
             rd outC i = Some 0).
Proof.
  intros Hx Hc1 Hc2 Hf1 Hf2 HN Hshared Hout.
  destruct (forward_scores_relu junk shared N x conv1 conv2 fc1 fc2)
    as (fs & Hfs & Hfss & Hfc); [done..|].
  destruct (argmax_relu_rows fs (Dims2 N 10) out Hfss)
    as (outS & outC & HoutS & HoutC & _ & _ & Hrows & _); [simpl; lia..|].
  exists fs, outS, outC.
  unfold Sequential.forward_operation, Cuda.forward_operation.
  rewrite Hfs, Hfc. split_and!; done.
Qed.

Lemma forward_operation_cuda_vs_sequential_witness :
  let junk := λ _ : Z, Q2Qc 7 in
  let shared := λ (_ : Z) (_ : dim3),
    (replicate 256 (Q2Qc 9), replicate 256 (Q2Qc (-3 # 1))) in
  let x := replicate (Z.to_nat (28 * 28)) (Q2Qc (1 # 2)) in
  let conv1 := replicate (Z.to_nat (5 * 5 * 32)) (Q2Qc (-1 # 1)) in
  let conv2 := replicate (Z.to_nat (5 * 5 * 32 * 64)) (Q2Qc 1) in
  let fc1 := replicate (Z.to_nat (1024 * 128)) (Q2Qc 1) in
  let fc2 := replicate (Z.to_nat (128 * 10)) (Q2Qc (-1 # 1)) in
  let out := [7] in
  ∃ fs outS outC,
    Sequential.forward_scores 1 x conv1 conv2 fc1 fc2 = Some fs
    ∧ Sequential.forward_operation 1 x conv1 conv2 fc1 fc2 out = Some outS
    ∧ Cuda.forward_operation junk shared 1 x conv1 conv2 fc1 fc2 out
      = Some outC
    ∧ ∀ i, 0 ≤ i < 1 →
        ((∃ j, 0 ≤ j < NUM_DIGITS
               ∧ flt f0 (at2 fs (Dims2 1 NUM_DIGITS) i j) = true) →
           rd outC i = rd outS i)
        ∧ ((∀ j, 0 ≤ j < NUM_DIGITS →
              flt f0 (at2 fs (Dims2 1 NUM_DIGITS) i j) = false) →
             rd outC i = Some 0).
Proof.
  intros junk shared x conv1 conv2 fc1 fc2 out.
  apply (forward_operation_cuda_vs_sequential (F:=Qc) junk shared 1
           x conv1 conv2 fc1 fc2 out); by vm_compute.
Defined.

(** X16: no sample influences the label of another, in exact arithmetic.
    If image [n] of one batch equals image [n'] of another batch, of
    whatever sizes with an [int] number of elements in every buffer, the
    two runs store the same label for them; in particular a sample is
    labelled in a batch as it is labelled alone.  This holds for the
    sequential variant and for the CUDA variant, whatever its uninitialized
    memory held in the two runs. *)
Theorem forward_operation_per_sample {F : Type}
    `{!Scalar F, !ScalarField F, !ScalarOrder F}
    (junk junk' : Z → F) (shared shared' : Z → dim3 → list F * list F)
    (N N' n n' : Z) (x x' conv1 conv2 fc1 fc2 : list F) (out out' : list Z) :
  shaped4 x (xdims N) → shaped4 x' (xdims N') →
  shaped4 conv1 conv1dims → shaped4 conv2 conv2dims →
  shaped2 fc1 fc1dims → shaped2 fc2 fc2dims →
  N * 24 * 24 * 32 ≤ INT_MAX → N' * 24 * 24 * 32 ≤ INT_MAX →
  (∀ k b, length (shared k b).1 = Z.to_nat (TILE_WIDTH * TILE_WIDTH)
          ∧ length (shared k b).2 = Z.to_nat (TILE_WIDTH * TILE_WIDTH)) →
  (∀ k b, length (shared' k b).1 = Z.to_nat (TILE_WIDTH * TILE_WIDTH)
          ∧ length (shared' k b).2 = Z.to_nat (TILE_WIDTH * TILE_WIDTH)) →
  N ≤ Z.of_nat (length out) → N' ≤ Z.of_nat (length out') →
  0 ≤ n < N → 0 ≤ n' < N' →
  (∀ h w, 0 ≤ h < NUM_ROWS → 0 ≤ w < NUM_COLS →
     at4 x (xdims N) n h w 0 = at4 x' (xdims N') n' h w 0) →
  (∃ o o',
     Sequential.forward_operation N x conv1 conv2 fc1 fc2 out = Some o
     ∧ Sequential.forward_operation N' x' conv1 conv2 fc1 fc2 out' = Some o'
     ∧ rd o n = rd o' n')
  ∧ (∃ o o',
       Cuda.forward_operation junk shared N x conv1 conv2 fc1 fc2 out = Some o
       ∧ Cuda.forward_operation junk' shared' N' x' conv1 conv2 fc1 fc2 out'
         = Some o'
       ∧ rd o n = rd o' n').
Proof.
  intros Hx Hx' Hc1 Hc2 Hf1 Hf2 HN HN' Hshared Hshared' Hout Hout' Hn Hn'
    Himg.
  split.
  - destruct (sequential_forward_layers N x conv1 conv2 fc1 fc2)
      as (fs & Hfs & Hfss & a & b & c & d & e & Hl & Hfsc); [done..|].
    destruct (sequential_forward_layers N' x' conv1 conv2 fc1 fc2)
      as (fs' & Hfs' & Hfss' & a' & b' & c' & d' & e' & Hl' & Hfsc'); [done..|].
    unfold Sequential.forward_operation. rewrite Hfs, Hfs'.
    apply labels_agree; [done..|].
    intros j Hj. rewrite Hfsc, Hfsc' by done. unfold dot.
    apply fsum_ext. intros k Hk. f_equal.
    by apply (hidden_layers_sample N N' x x' conv1 conv2 fc1
                a b c d e a' b' c' d' e').
  - destruct (cuda_forward_layers junk shared N x conv1 conv2 fc1 fc2)
      as (fs & Hfs & Hfss & a & b & c & d & e & Hl & Hfsc); [done..|].
    destruct (cuda_forward_layers junk' shared' N' x' conv1 conv2 fc1 fc2)
      as (fs' & Hfs' & Hfss' & a' & b' & c' & d' & e' & Hl' & Hfsc'); [done..|].
    unfold Cuda.forward_operation. rewrite Hfs, Hfs'.
    apply labels_agree; [done..|].
    intros j Hj. rewrite Hfsc, Hfsc' by done. unfold dot. f_equal.
    apply fsum_ext. intros k Hk. f_equal.
    by apply (hidden_layers_sample N N' x x' conv1 conv2 fc1
                a b c d e a' b' c' d' e').
Qed.

Lemma forward_operation_per_sample_witness :
  let junk := λ _ : Z, Q2Qc 7 in
  let junk' := λ _ : Z, Q2Qc (-2 # 1) in
  let shared := λ (_ : Z) (_ : dim3),
    (replicate 256 (Q2Qc 9), replicate 256 (Q2Qc (-3 # 1))) in
  let shared' := λ (_ : Z) (_ : dim3),
    (replicate 256 (Q2Qc 0), replicate 256 (Q2Qc 1)) in
  let x := replicate 784 (Q2Qc 3) ++ replicate 784 (Q2Qc (1 # 2)) in
  let x' := replicate 784 (Q2Qc (1 # 2)) in
  let conv1 := replicate (Z.to_nat (5 * 5 * 32)) (Q2Qc (-1 # 1)) in
  let conv2 := replicate (Z.to_nat (5 * 5 * 32 * 64)) (Q2Qc 1) in
  let fc1 := replicate (Z.to_nat (1024 * 128)) (Q2Qc 1) in
  let fc2 := replicate (Z.to_nat (128 * 10)) (Q2Qc (-1 # 1)) in
  (∃ o o',
     Sequential.forward_operation 2 x conv1 conv2 fc1 fc2 [7; 7] = Some o
     ∧ Sequential.forward_operation 1 x' conv1 conv2 fc1 fc2 [7] = Some o'
     ∧ rd o 1 = rd o' 0)
  ∧ (∃ o o',
       Cuda.forward_operation junk shared 2 x conv1 conv2 fc1 fc2 [7; 7]
       = Some o
       ∧ Cuda.forward_operation junk' shared' 1 x' conv1 conv2 fc1 fc2 [7]
         = Some o'
       ∧ rd o 1 = rd o' 0).
Proof.
  intros junk junk' shared shared' x x' conv1 conv2 fc1 fc2.
  apply (forward_operation_per_sample (F:=Qc) junk junk' shared shared'
           2 1 1 0 x x' conv1 conv2 fc1 fc2 [7; 7] [7]);
    try (by vm_compute); try (simpl; lia).
  intros h w Hh Hw. unfold NUM_ROWS, NUM_COLS in Hh, Hw.
  unfold at4, off4, xdims, NUM_ROWS, NUM_COLS, NUM_CHANNELS. cbn [d1 d2 d3].
  unfold x, x', get, rd.
  destruct (Z.ltb_spec (((1 * 28 + h) * 28 + w) * 1 + 0) 0); [lia|].
  destruct (Z.ltb_spec (((0 * 28 + h) * 28 + w) * 1 + 0) 0); [lia|].
  rewrite lookup_app_r by (rewrite length_replicate; lia).
  rewrite !lookup_replicate_2; [done| |]; rewrite ?length_replicate; lia.
Defined.

(** ** The driver *)

(** The number of samples, among the first [N], on which the labels [out]
    and the reference labels [ref] agree. *)
Definition agreements (out ref : list Z) (N : Z) : Z :=
  Z.of_nat (length (filter (λ i, rd out i = rd ref i) (range 0 N))).

Lemma agreements_bounds out ref N : 0 ≤ N → 0 ≤ agreements out ref N ≤ N.
Proof.
  intros HN. unfold agreements.
  pose proof (length_filter (λ i, rd out i = rd ref i) (range 0 N)) as Hle.
  unfold range in Hle. rewrite length_seqZ in Hle. unfold range. lia.
Qed.

Lemma length_filter_all {A : Type} (P : A → Prop) `{!∀ x, Decision (P x)}
    (l : list A) :
  length (filter P l) = length l ↔ Forall P l.
Proof.
  induction l as [|a l IH]; [by split|].
  rewrite filter_cons, Forall_cons. destruct (decide (P a)) as [Ha|Ha]; simpl.
  - rewrite <- IH. split; [intros [= ?]; done|intros [_ ->]; done].
  - pose proof (length_filter P l). split; [lia|tauto].
Qed.

Lemma agreements_all out ref N :
  0 ≤ N →
  agreements out ref N = N ↔ ∀ i, 0 ≤ i < N → rd out i = rd ref i.
Proof.
  intros HN. unfold agreements.
  assert (Z.of_nat (length (range 0 N)) = N) as Hlen
    by (unfold range; rewrite length_seqZ; lia).
  rewrite <- Hlen at 2. rewrite Nat2Z.inj_iff, length_filter_all, Forall_forall.
  split; intros Hall i Hi; apply Hall; by apply elem_of_range.
Qed.

(** The counting loop of [main]. *)
Lemma count_agreements (out ref : list Z) N :
  N ≤ Z.of_nat (length out) → N ≤ Z.of_nat (length ref) →
  for_ (range 0 N) (λ i num_correct,
    o ← rd out i;
    r ← rd ref i;
    Some (if o =? r then num_correct + 1 else num_correct)) 0
  = Some (agreements out ref N).
Proof.
  intros Hout Href. unfold agreements.
  assert (∀ l c, (∀ i, i ∈ l → 0 ≤ i < N) →
    for_ l (λ i num_correct,
      o ← rd out i;
      r ← rd ref i;
      Some (if o =? r then num_correct + 1 else num_correct)) c
    = Some (c + Z.of_nat (length (filter (λ i, rd out i = rd ref i) l))))
    as Hgen.
  { induction l as [|i l IH]; intros c Hl; simpl.
    { f_equal. lia. }
    assert (0 ≤ i < N) as Hi by (apply Hl; left).
    destruct (rd_is_Some out i) as [o Ho]; [lia|].
    destruct (rd_is_Some ref i) as [r Hr]; [lia|].
    rewrite Ho, Hr. simpl. rewrite IH by (intros; apply Hl; by right).
    rewrite filter_cons. f_equal.
    destruct (Z.eqb_spec o r) as [->|Hne].
    - rewrite decide_True by (by rewrite Ho, Hr). simpl. lia.
    - rewrite decide_False by (rewrite Ho, Hr; congruence). lia. }
  rewrite Hgen by (intros i Hi%elem_of_range; done). done.
Qed.

Lemma H5Dread_all {F : Type} (data buf : list F) :
  length data = length buf → Cuda.H5Dread data buf = Some data.
Proof. intros Hlen. unfold Cuda.H5Dread. apply memcpy_all; lia. Qed.

Section Driver.
Context {F : Type} `{!Scalar F}.
Variables (atoi : string → Z) (testdata_file : string → Cuda.testdata (F:=F))
  (model_file : string → Cuda.modeldata (F:=F)) (junk : Z → F)
  (shared : Z → dim3 → list F * list F).
Hypothesis Hshared :
  ∀ n b, length (shared n b).1 = Z.to_nat (TILE_WIDTH * TILE_WIDTH)
         ∧ length (shared n b).2 = Z.to_nat (TILE_WIDTH * TILE_WIDTH).

Lemma cuda_forward_operation_total N (x conv1 conv2 fc1 fc2 : list F)
    (out : list Z) :
  shaped4 x (xdims N) → shaped4 conv1 conv1dims → shaped4 conv2 conv2dims →
  shaped2 fc1 fc1dims → shaped2 fc2 fc2dims → batch_fits N →
  N ≤ Z.of_nat (length out) →
  ∃ out', Cuda.forward_operation junk shared N x conv1 conv2 fc1 fc2 out
          = Some out'
          ∧ length out' = length out.
Proof.
  intros Hx Hc1 Hc2 Hf1 Hf2 HNfit Hout.
  destruct (forward_scores_cells junk shared N x conv1 conv2 fc1 fc2)
    as (f & Hf & Hfs & _); [done..|].
  destruct (argmax_scan f (Dims2 N 10) out Hfs) as (out' & Hout' & Hlen & _);
    [simpl; lia..|].
  exists out'. unfold Cuda.forward_operation. rewrite Hf. done.
Qed.

(** [main] from the point where its flags are set. *)
Lemma main_runs (argv : list string) (data model : string) (N code : Z)
    (x y : list F) (reads : list string) :
  let m := model_file model in
  Z.of_nat (length argv) = 3 ∨ Z.of_nat (length argv) = 4 →
  argv !! 1%nat = Some data → argv !! 2%nat = Some model →
  (if Z.of_nat (length argv) =? 3 then Cuda.default_batch_sizes !! data
   else atoi <$> argv !! 3%nat) = Some N →
  0 ≤ N → batch_fits N →
  Cuda.loadData (testdata_file data) N
    (malloc junk (N * NUM_ROWS * NUM_COLS * NUM_CHANNELS))
    (malloc junk (N * NUM_DIGITS))
  = Some (code, Cuda.Loaded x y reads) →
  shaped4 x (xdims N) → shaped2 y (rdims N) →
  shaped4 (Cuda.conv1_data m) conv1dims →
  shaped4 (Cuda.conv2_data m) conv2dims →
  shaped2 (Cuda.fc1_data m) fc1dims → shaped2 (Cuda.fc2_data m) fc2dims →
  ∃ out ref,
    Cuda.forward_operation junk shared N x (Cuda.conv1_data m)
      (Cuda.conv2_data m) (Cuda.fc1_data m) (Cuda.fc2_data m)
      (replicate (Z.to_nat N) 0) = Some out
    ∧ Cuda.argmax y (rdims N) (replicate (Z.to_nat N) 0) = Some ref
    ∧ Cuda.main atoi testdata_file model_file junk shared argv
      = Some (0, Some (Cuda.Summary N (agreements out ref N))).
Proof.
  intros m Hargc Hdata Hmodel Hbatch HN HNfit Hload Hx Hy Hc1 Hc2 Hf1 Hf2.
  assert (Z.of_nat (length (replicate (Z.to_nat N) 0)) = N) as Hzlen
    by (rewrite length_replicate; lia).
  destruct (cuda_forward_operation_total N x _ _ _ _ (replicate (Z.to_nat N) 0)
              Hx Hc1 Hc2 Hf1 Hf2 HNfit) as (out & Hout & Houtlen); [lia|].
  destruct (argmax_scan y (rdims N) (replicate (Z.to_nat N) 0) Hy)
    as (ref & Href & Hreflen & _); [simpl; unfold NUM_DIGITS; lia|simpl; lia|].
  exists out, ref. split_and!; [done..|].
  unfold Cuda.main. cbv zeta.
  assert (negb (Z.of_nat (length argv) =? 3) && negb (Z.of_nat (length argv) =? 4)
          = false) as ->.
  { destruct Hargc as [-> | ->]; done. }
  rewrite Hdata, Hmodel. cbn [mbind option_bind].
  assert ((Z.of_nat (length argv) =? 3)
          && bool_decide (Cuda.default_batch_sizes !! data = None) = false) as ->.
  { destruct (Z.eqb_spec (Z.of_nat (length argv)) 3) as [E|E]; [|done].
    rewrite Hbatch. done. }
  rewrite Hbatch. cbn [mbind option_bind].
  destruct (Z.ltb_spec N 0); [lia|].
  cbn [xdims rdims d0 d1 d2 d3 e0 e1]. rewrite Hload.
  cbn [mbind option_bind snd Cuda.x_buf Cuda.y_buf].
  unfold Cuda.loadModel. fold m.
  rewrite (H5Dread_all (Cuda.conv1_data m)), (H5Dread_all (Cuda.conv2_data m)),
    (H5Dread_all (Cuda.fc1_data m)), (H5Dread_all (Cuda.fc2_data m)).
  2-5: apply Nat2Z.inj; rewrite length_malloc by done.
  2: apply Hf2. 2: apply Hf1. 2: apply Hc2. 2: apply Hc1.
  cbn [mbind option_bind]. rewrite Hout. cbn [mbind option_bind].
  change (Cuda.argmax y (rdims N) (replicate (Z.to_nat N) 0))
    with (Sequential.argmax y (rdims N) (replicate (Z.to_nat N) 0)).
  rewrite Href. cbn [mbind option_bind].
  rewrite count_agreements by lia. done.
Qed.
End Driver.

(** X17: a run of [main] that accepts its arguments.  With a test file
    named in the table of default batch sizes, or with the batch size given
    as a third argument, with a batch size whose buffers have an [int]
    number of elements and with files whose datasets have the extents the
    network expects, [main] loads the samples and the weights, returns 0 and
    reports as correct the number of samples on which the label of
    [forward_operation] equals the label that [argmax] decodes from the
    reference scores; that number is all [N] exactly when every label
    agrees.  This holds whatever the arithmetic of the scalars. *)
Theorem main_counts_agreements {F : Type} `{!Scalar F}
    (atoi : string → Z) (testdata_file : string → Cuda.testdata (F:=F))
    (model_file : string → Cuda.modeldata (F:=F)) (junk : Z → F)
    (shared : Z → dim3 → list F * list F)
    (argv : list string) (data model : string) (N : Z) :
  let file := testdata_file data in
  let m := model_file model in
  (∃ prog, argv = [prog; data; model]
           ∧ Cuda.default_batch_sizes !! data = Some N)
  ∨ (∃ prog size, argv = [prog; data; model; size] ∧ atoi size = N) →
  0 ≤ N → N * 24 * 24 * 32 ≤ INT_MAX →
  length (Cuda.input_dims file) = 4%nat →
  Cuda.input_dims file !! 0%nat = Some N →
  shaped4 (Cuda.x_data file) (xdims N) → shaped2 (Cuda.y_data file) (rdims N) →
  shaped4 (Cuda.conv1_data m) conv1dims →
  shaped4 (Cuda.conv2_data m) conv2dims →
  shaped2 (Cuda.fc1_data m) fc1dims → shaped2 (Cuda.fc2_data m) fc2dims →
  (∀ n b, length (shared n b).1 = Z.to_nat (TILE_WIDTH * TILE_WIDTH)
          ∧ length (shared n b).2 = Z.to_nat (TILE_WIDTH * TILE_WIDTH)) →
  ∃ out ref,
    Cuda.forward_operation junk shared N (Cuda.x_data file)
      (Cuda.conv1_data m) (Cuda.conv2_data m) (Cuda.fc1_data m)
      (Cuda.fc2_data m) (replicate (Z.to_nat N) 0) = Some out
    ∧ Cuda.argmax (Cuda.y_data file) (rdims N) (replicate (Z.to_nat N) 0)
      = Some ref
    ∧ Cuda.main atoi testdata_file model_file junk shared argv
      = Some (0, Some (Cuda.Summary N (agreements out ref N)))
    ∧ 0 ≤ agreements out ref N ≤ N
    ∧ (agreements out ref N = N ↔ ∀ i, 0 ≤ i < N → rd out i = rd ref i).
Proof.
  intros file m Hargv HN HNfit Hdims Hdim0 Hx Hy Hc1 Hc2 Hf1 Hf2 Hshared.
  assert (N < 2 ^ 31) as HN31 by (unfold INT_MAX in HNfit; lia).
  assert (Cuda.loadData file N
            (malloc junk (N * NUM_ROWS * NUM_COLS * NUM_CHANNELS))
            (malloc junk (N * NUM_DIGITS))
          = Some (0, Cuda.Loaded (Cuda.x_data file) (Cuda.y_data file)
                       ["/y"; "/x"]%string)) as Hload.
  { unfold Cuda.loadData. rewrite Hdims, Hdim0. simpl.
    rewrite (Z.mod_small N) by lia. rewrite Z.eqb_refl. simpl.
    rewrite !H5Dread_all; [done| |].
    - apply Nat2Z.inj.
      rewrite length_malloc
        by (unfold NUM_ROWS, NUM_COLS, NUM_CHANNELS; lia).
      apply Hx.
    - apply Nat2Z.inj. rewrite length_malloc by (unfold NUM_DIGITS; lia).
      apply Hy. }
  destruct (main_runs atoi testdata_file model_file junk shared Hshared
              argv data model N 0 (Cuda.x_data file) (Cuda.y_data file)
              ["/y"; "/x"]%string)
    as (out & ref & Hout & Href & Hmain); try done.
  - destruct Hargv as [(prog & -> & _) | (prog & size & -> & _)]; simpl; lia.
  - by destruct Hargv as [(prog & -> & _) | (prog & size & -> & _)].
  - by destruct Hargv as [(prog & -> & _) | (prog & size & -> & _)].
  - destruct Hargv as [(prog & -> & Hmap) | (prog & size & -> & Hatoi)].
    + exact Hmap.
    + simpl. by rewrite Hatoi.
  - exists out, ref. do 3 (split; [done|]). split.
    + apply agreements_bounds. lia.
    + apply agreements_all. lia.
Qed.

Lemma main_counts_agreements_witness :
  let atoi := λ _ : string, 7 in
  let file := Cuda.TestData [2; 28; 28; 1]
                (replicate (Z.to_nat (2 * 28 * 28)) (Q2Qc (1 # 2)))
                (replicate (Z.to_nat (2 * 10)) (Q2Qc 1)) in
  let m := Cuda.ModelData
             (replicate (Z.to_nat (5 * 5 * 32)) (Q2Qc (-1 # 1)))
             (replicate (Z.to_nat (5 * 5 * 32 * 64)) (Q2Qc 1))
             (replicate (Z.to_nat (1024 * 128)) (Q2Qc 1))
             (replicate (Z.to_nat (128 * 10)) (Q2Qc (-1 # 1))) in
  let junk := λ _ : Z, Q2Qc 7 in
  let shared := λ (_ : Z) (_ : dim3),
    (replicate 256 (Q2Qc 9), replicate 256 (Q2Qc (-3 # 1))) in
  let argv := ["cnn"; "../data/test2.hdf5"; "../data/model.hdf5"]%string in
  ∃ out ref,
    Cuda.forward_operation junk shared 2 (Cuda.x_data file)
      (Cuda.conv1_data m) (Cuda.conv2_data m) (Cuda.fc1_data m)
      (Cuda.fc2_data m) (replicate (Z.to_nat 2) 0) = Some out
    ∧ Cuda.argmax (Cuda.y_data file) (rdims 2) (replicate (Z.to_nat 2) 0)
      = Some ref
    ∧ Cuda.main atoi (λ _, file) (λ _, m) junk shared argv
      = Some (0, Some (Cuda.Summary 2 (agreements out ref 2)))
    ∧ 0 ≤ agreements out ref 2 ≤ 2
    ∧ (agreements out ref 2 = 2 ↔ ∀ i, 0 ≤ i < 2 → rd out i = rd ref i).
Proof.
  intros atoi file m junk shared argv.
  apply (main_counts_agreements (F:=Qc) atoi (λ _, file) (λ _, m) junk shared
           argv "../data/test2.hdf5" "../data/model.hdf5" 2);
    try (by vm_compute).
  left. exists "cnn"%string. split; reflexivity.
Defined.

(** X18: what [main] does with arguments and files that do not fit.  With
    other than two or three arguments, or with two arguments and a test file
    that is not in the table of default batch sizes, it returns -1 before it
    loads anything.  When the batch size given as third argument, one whose
    buffers have an [int] number of elements, differs from the first extent
    of the dataset [/x], the status 1 of [loadData] is dropped: [main] runs
    the network on the sample and reference buffers as they were allocated,
    returns 0 and reports the agreements found there, whatever those
    buffers held and whatever the arithmetic of the scalars. *)
Theorem main_usage_and_mismatch {F : Type} `{!Scalar F}
    (atoi : string → Z) (testdata_file : string → Cuda.testdata (F:=F))
    (model_file : string → Cuda.modeldata (F:=F)) (junk : Z → F)
    (shared : Z → dim3 → list F * list F) :
  (∀ argv : list string, length argv ≠ 3%nat → length argv ≠ 4%nat →
     Cuda.main atoi testdata_file model_file junk shared argv
     = Some (-1, None))
  ∧ (∀ prog data model : string,
       Cuda.default_batch_sizes !! data = None →
       Cuda.main atoi testdata_file model_file junk shared [prog; data; model]
       = Some (-1, None))
  ∧ (∀ (prog data model size : string) (N dim0 : Z),
       let file := testdata_file data in
       let m := model_file model in
       let x := malloc junk (N * NUM_ROWS * NUM_COLS * NUM_CHANNELS) in
       let y := malloc junk (N * NUM_DIGITS) in
       atoi size = N → 0 ≤ N → N * 24 * 24 * 32 ≤ INT_MAX →
       length (Cuda.input_dims file) = 4%nat →
       Cuda.input_dims file !! 0%nat = Some dim0 → 0 ≤ dim0 < 2 ^ 64 →
       dim0 ≠ N →
       shaped4 (Cuda.conv1_data m) conv1dims →
       shaped4 (Cuda.conv2_data m) conv2dims →
       shaped2 (Cuda.fc1_data m) fc1dims → shaped2 (Cuda.fc2_data m) fc2dims →
       (∀ n b, length (shared n b).1 = Z.to_nat (TILE_WIDTH * TILE_WIDTH)
               ∧ length (shared n b).2 = Z.to_nat (TILE_WIDTH * TILE_WIDTH)) →
       Cuda.loadData file N x y = Some (1, Cuda.Loaded x y [])
       ∧ ∃ out ref,
           Cuda.forward_operation junk shared N x (Cuda.conv1_data m)
             (Cuda.conv2_data m) (Cuda.fc1_data m) (Cuda.fc2_data m)
             (replicate (Z.to_nat N) 0) = Some out
           ∧ Cuda.argmax y (rdims N) (replicate (Z.to_nat N) 0) = Some ref
           ∧ Cuda.main atoi testdata_file model_file junk shared
               [prog; data; model; size]
             = Some (0, Some (Cuda.Summary N (agreements out ref N)))).
Proof.
  split_and!.
  - intros argv H3 H4. unfold Cuda.main. cbv zeta.
    destruct (Z.eqb_spec (Z.of_nat (length argv)) 3); [lia|].
    destruct (Z.eqb_spec (Z.of_nat (length argv)) 4); [lia|]. done.
  - intros prog data model Hmap. unfold Cuda.main. cbv zeta.
    cbn [length Z.of_nat Pos.of_succ_nat Pos.succ Z.eqb Pos.eqb negb andb
         lookup list_lookup mbind option_bind].
    rewrite Hmap. done.
  - intros prog data model size N dim0 file m x y Hatoi HN HNfit Hdims Hdim0
      Hd0 Hne Hc1 Hc2 Hf1 Hf2 Hshared.
    assert (N < 2 ^ 31) as HN31 by (unfold INT_MAX in HNfit; lia).
    assert (Cuda.loadData file N x y = Some (1, Cuda.Loaded x y [])) as Hload.
    { unfold Cuda.loadData. rewrite Hdims, Hdim0. simpl.
      rewrite (Z.mod_small N) by lia.
      by destruct (Z.eqb_spec dim0 N). }
    split; [exact Hload|].
    apply (main_runs atoi testdata_file model_file junk shared Hshared
             [prog; data; model; size] data model N 1 x y []); try done.
    + right. done.
    + simpl. by rewrite Hatoi.
    + apply shaped4_malloc; simpl; unfold NUM_ROWS, NUM_COLS, NUM_CHANNELS;
        try lia. unfold size4. simpl. done.
    + unfold shaped2, size2, y. simpl. unfold NUM_DIGITS. split_and!; try lia.
      apply length_malloc. lia.
Qed.

Lemma main_usage_and_mismatch_witness :
  let atoi := λ _ : string, 1 in
  let file := Cuda.TestData [2; 28; 28; 1]
                (replicate (Z.to_nat (2 * 28 * 28)) (Q2Qc (1 # 2)))
                (replicate (Z.to_nat (2 * 10)) (Q2Qc 1)) in
  let m := Cuda.ModelData
             (replicate (Z.to_nat (5 * 5 * 32)) (Q2Qc (-1 # 1)))
             (replicate (Z.to_nat (5 * 5 * 32 * 64)) (Q2Qc 1))
             (replicate (Z.to_nat (1024 * 128)) (Q2Qc 1))
             (replicate (Z.to_nat (128 * 10)) (Q2Qc (-1 # 1))) in
  let junk := λ _ : Z, Q2Qc 7 in
  let shared := λ (_ : Z) (_ : dim3),
    (replicate 256 (Q2Qc 9), replicate 256 (Q2Qc (-3 # 1))) in
  let x := malloc junk (1 * NUM_ROWS * NUM_COLS * NUM_CHANNELS) in
  let y := malloc junk (1 * NUM_DIGITS) in
  Cuda.main atoi (λ _, file) (λ _, m) junk shared ["cnn"]%string
  = Some (-1, None)
  ∧ Cuda.main atoi (λ _, file) (λ _, m) junk shared
      ["cnn"; "../data/mine.hdf5"; "../data/model.hdf5"]%string
    = Some (-1, None)
  ∧ Cuda.loadData file 1 x y = Some (1, Cuda.Loaded x y [])
  ∧ ∃ out ref,
      Cuda.forward_operation junk shared 1 x (Cuda.conv1_data m)
        (Cuda.conv2_data m) (Cuda.fc1_data m) (Cuda.fc2_data m)
        (replicate (Z.to_nat 1) 0) = Some out
      ∧ Cuda.argmax y (rdims 1) (replicate (Z.to_nat 1) 0) = Some ref
      ∧ Cuda.main atoi (λ _, file) (λ _, m) junk shared
          ["cnn"; "../data/test2.hdf5"; "../data/model.hdf5"; "1"]%string
        = Some (0, Some (Cuda.Summary 1 (agreements out ref 1))).
Proof.
  intros atoi file m junk shared x y.
  pose proof (main_usage_and_mismatch (F:=Qc) atoi (λ _, file) (λ _, m)
                junk shared) as (Hargc & Hmap & Hrun).
  split_and!.
  - apply Hargc; simpl; lia.
  - apply Hmap. reflexivity.
  - apply (Hrun "cnn" "../data/test2.hdf5" "../data/model.hdf5" "1" 1 2)%string;
      try (by vm_compute); lia.
  - apply (Hrun "cnn" "../data/test2.hdf5" "../data/model.hdf5" "1" 1 2)%string;
      try (by vm_compute); lia.
Defined.

(** ** The tiled direct convolution *)

Lemma for_fails_at {S : Type} (l : list Z) (body : Z → S → option S)
    (k0 : Z) (s : S) :
  k0 ∈ l → (∀ s, body k0 s = None) → for_ l body s = None.
Proof.
  intros Hin Hfail.
  apply (for_fails (λ _, True) l body k0); [done|done|done|].
  intros s' _. apply Hfail.
Qed.

Lemma forall_idx_fails_at {S : Type} (d t : dim3) (body : dim3 → S → option S)
    (s : S) :
  0 ≤ dx t < dx d → 0 ≤ dy t < dy d → 0 ≤ dz t < dz d →
  (∀ s, body t s = None) → forall_idx d body s = None.
Proof.
  intros Hx Hy Hz Hfail. destruct t as [x y z]. unfold forall_idx.
  apply (for_fails_at _ _ z); [by apply elem_of_range|]. intros s1.
  apply (for_fails_at _ _ y); [by apply elem_of_range|]. intros s2.
  apply (for_fails_at _ _ x); [by apply elem_of_range|]. intros s3.
  apply Hfail.
Qed.

Lemma elem_of_range_by lo hi step k :
  0 < step →
  k ∈ range_by lo hi step ↔ ∃ a, 0 ≤ a ∧ k = lo + a * step ∧ k < hi.
Proof.
  intros Hstep. unfold range_by. rewrite list_elem_of_fmap.
  pose proof (Z.div_mod (hi - lo + step - 1) step ltac:(lia)) as Hdm.
  pose proof (Z.mod_pos_bound (hi - lo + step - 1) step Hstep) as Hmod.
  split.
  - intros (a & -> & Ha%elem_of_range). exists a. split_and!; [lia|done|nia].
  - intros (a & Ha & -> & Hlt). exists a. split; [done|].
    apply elem_of_range. nia.
Qed.

Lemma tiles_cover_strictly n :
  1 ≤ n → n `mod` TILE_WIDTH ≠ 0 →
  n + 1 ≤ ((n - 1) ÷ TILE_WIDTH + 1) * TILE_WIDTH.
Proof.
  unfold TILE_WIDTH. intros Hn Hmod. rewrite Z.quot_div_nonneg by lia.
  pose proof (Z.div_mod (n - 1) 16 ltac:(lia)).
  pose proof (Z.mod_pos_bound (n - 1) 16 ltac:(lia)).
  pose proof (Z.div_mod n 16 ltac:(lia)).
  pose proof (Z.mod_pos_bound n 16 ltac:(lia)).
  destruct (decide ((n - 1) `mod` 16 = 15)) as [E|E]; [|lia].
  exfalso. apply Hmod.
  replace n with (0 + ((n - 1) `div` 16 + 1) * 16) by lia.
  by rewrite Z.mod_add by lia.
Qed.

(** The taps of a filter are loaded without fault when the filter has its
    shape and the shared array has room for the tile and the taps. *)
Lemma conv_forward_kernel_load_W_total {F : Type} `{!Scalar F}
    (b : dim3) (Wt : list F) (K C M c : Z) (shmem : list F) :
  shaped4 Wt (Dims4 K K C M) → 1 ≤ K →
  (TILE_WIDTH + K - 1) * (TILE_WIDTH + K - 1) + K * K
  ≤ Z.of_nat (length shmem) →
  0 ≤ dy b < M → 0 ≤ c < C →
  ∃ shmem',
    forall_idx (Dim3 TILE_WIDTH TILE_WIDTH 1)
      (λ th, Cuda.conv_forward_kernel_load_W b th Wt (Dims4 K K C M) c) shmem
    = Some shmem'
    ∧ length shmem' = length shmem.
Proof.
  intros (_ & _ & _ & _ & HWlen) HK HL Hm Hc.
  set (Tw := TILE_WIDTH + K - 1) in *.
  assert (0 ≤ Tw * Tw) as HTT by (unfold Tw, TILE_WIDTH; nia).
  pose proof (cellwise_forall_idx (length shmem) (Dim3 TILE_WIDTH TILE_WIDTH 1)
    (λ th, Cuda.conv_forward_kernel_load_W b th Wt (Dims4 K K C M) c)
    (λ (th : dim3) (j : Z) (v : F),
       if (dy th <? K) && (dx th <? K)
       then if j =? Tw * Tw + (dy th * K + dx th)
            then at4 Wt (Dims4 K K C M) (dy th) (dx th) c (dy b) else v
       else v)) as Hcw.
  cbn [dx dy dz] in Hcw. lapply Hcw; clear Hcw; [intros Hcw|].
  2:{ intros x y z Hx Hy Hz. unfold Cuda.conv_forward_kernel_load_W.
    cbn [dx dy dz d0 d1 d2 d3]. cbv zeta. fold Tw.
    destruct ((y <? K) && (x <? K)) eqn:Hguard; [|apply cellwise_skip].
    apply andb_true_iff in Hguard as [Hy' Hx']. apply Z.ltb_lt in Hy', Hx'.
    replace (y * K * C * M + x * C * M + c * M + dy b)
      with (off4 (Dims4 K K C M) y x c (dy b))
      by (unfold off4; cbn [d1 d2 d3]; ring).
    eapply cellwise_bind.
    { apply rd_get. rewrite HWlen. apply (off4_bound (Dims4 K K C M)); cbn; lia. }
    fold (at4 Wt (Dims4 K K C M) y x c (dy b)). apply cellwise_write.
    pose proof (lin_bound y x K K). lia. }
  destruct (Hcw shmem eq_refl) as (shmem' & Hsh & Hlen & _).
  by exists shmem'.
Qed.

(** X19: [conv_forward_kernel] loads a tile of [TILE_WIDTH + K - 1] rows of
    the input for every block, whether or not the input has that many rows
    left.  Launched over the grid that covers the output with 16×16 blocks,
    with buffers of the right shapes and a shared array large enough for
    the tile and the taps, it reads past the end of [X] whenever the height
    of the output is not a multiple of [TILE_WIDTH], as for the outputs
    24×24 and 8×8 of the network: in the block of the last sample and the
    last row of tiles the taps of the filter are loaded without fault, and
    then the loops of thread [(0, (K + 14) mod 16)] reach row
    [i = 16·(tH - 1) + K + 14] of the input, which is not below [H]; the
    cell of the tile is inside the shared array, the offset of the read is
    not inside [X].  That load, and with it the launch, is undefined. *)
Theorem conv_forward_kernel_reads_past_input {F : Type} `{!Scalar F}
    (N H W C K M : Z) (shared : dim3 → list F) (X Wt Y : list F) :
  let xdims := Dims4 N H W C in
  let wdims := Dims4 K K C M in
  let ydims := Dims4 N (H - K + 1) (W - K + 1) M in
  let tW := (W - K + 1 - 1) ÷ TILE_WIDTH + 1 in
  let tH := (H - K + 1 - 1) ÷ TILE_WIDTH + 1 in
  let X_tile_width := TILE_WIDTH + K - 1 in
  let blockDim := Dim3 TILE_WIDTH TILE_WIDTH 1 in
  let blockIdx := Dim3 (N - 1) 0 ((tH - 1) * tW) in
  let threadIdx := Dim3 0 ((K + 14) `mod` TILE_WIDTH) 0 in
  let h_base := (dz blockIdx ÷ tW) * TILE_WIDTH in
  let w_base := Z.rem (dz blockIdx) tH * TILE_WIDTH in
  let i := h_base + (K + 14) in
  let j := w_base in
  shaped4 X xdims → shaped4 Wt wdims → shaped4 Y ydims →
  1 ≤ N → 1 ≤ C → 1 ≤ M → 1 ≤ K →
  1 ≤ H - K + 1 → 1 ≤ W - K + 1 →
  (H - K + 1) `mod` TILE_WIDTH ≠ 0 →
  (∀ blk, X_tile_width * X_tile_width + K * K
          ≤ Z.of_nat (length (shared blk))) →
  (0 ≤ dx blockIdx < N ∧ 0 ≤ dy blockIdx < M ∧ 0 ≤ dz blockIdx < tW * tH
   ∧ 0 ≤ dy threadIdx < TILE_WIDTH)
  ∧ (∃ shmem,
       forall_idx blockDim
         (λ th, Cuda.conv_forward_kernel_load_W blockIdx th Wt wdims 0)
         (shared blockIdx)
       = Some shmem)
  ∧ i ∈ range_by (h_base + dy threadIdx) (h_base + X_tile_width) TILE_WIDTH
  ∧ j ∈ range_by (w_base + dx threadIdx) (w_base + X_tile_width) TILE_WIDTH
  ∧ 0 ≤ X_tile_width * (i - h_base) + (j - w_base)
      < X_tile_width * X_tile_width
  ∧ H ≤ i
  ∧ Z.of_nat (length X) ≤ (N - 1) * H * W * C + i * W * C + j * C + 0
  ∧ (∀ shmem,
       Cuda.conv_forward_kernel_load_X blockIdx threadIdx X xdims wdims ydims
         0 shmem = None)
  ∧ Cuda.conv_forward_kernel (Dim3 N M (tW * tH)) blockDim shared X Wt Y
      xdims wdims ydims
    = None.
Proof.
  intros xdims wdims ydims tW tH Tw blockDim blk th h_base w_base i j
    HX HWt HY HN HC HM HK HHo HWo Hmod Hshared.
  pose proof HX as (_ & HH & HW & _ & HXlen). simpl in HH, HW.
  unfold size4 in HXlen. cbn [d0 d1 d2 d3 xdims] in HXlen.
  assert (1 ≤ tW ∧ 1 ≤ tH) as [HtW HtH].
  { unfold tW, tH, TILE_WIDTH. rewrite !Z.quot_div_nonneg by lia.
    split; (assert (0 ≤ (W - K + 1 - 1) `div` 16 ∧ 0 ≤ (H - K + 1 - 1) `div` 16)
      as [? ?] by (split; apply Z.div_pos; lia); lia). }
  pose proof (tiles_cover_strictly (H - K + 1) HHo Hmod) as Hcover.
  fold tH in Hcover.
  set (z0 := (tH - 1) * tW) in *.
  assert (0 ≤ z0 < tW * tH) as Hz0 by (unfold z0; nia).
  assert (z0 ÷ tW = tH - 1) as Hq by (unfold z0; apply Z.quot_mul; lia).
  assert (0 ≤ Z.rem z0 tH) as Hwb by (apply Z.rem_nonneg; lia).
  pose proof (Z.div_mod (K + 14) 16 ltac:(lia)) as Hdm.
  pose proof (Z.mod_pos_bound (K + 14) 16 ltac:(lia)) as Hmd.
  unfold i, j, h_base, w_base, blk, th, Tw in *. cbn [dx dy dz] in *.
  rewrite Hq in *. clear i j h_base w_base.
  assert ((tH - 1) * TILE_WIDTH + (K + 14)
          ∈ range_by ((tH - 1) * TILE_WIDTH + (K + 14) `mod` TILE_WIDTH)
              ((tH - 1) * TILE_WIDTH + (TILE_WIDTH + K - 1)) TILE_WIDTH)
    as Hi.
  { apply elem_of_range_by; [done|]. exists ((K + 14) `div` 16).
    unfold TILE_WIDTH. split_and!; [apply Z.div_pos; lia|lia|lia]. }
  assert (Z.rem z0 tH * TILE_WIDTH
          ∈ range_by (Z.rem z0 tH * TILE_WIDTH + 0)
              (Z.rem z0 tH * TILE_WIDTH + (TILE_WIDTH + K - 1)) TILE_WIDTH)
    as Hj.
  { apply elem_of_range_by; [done|]. exists 0. unfold TILE_WIDTH. lia. }
  assert (H ≤ (tH - 1) * TILE_WIDTH + (K + 14)) as Hrow
    by (unfold TILE_WIDTH in *; lia).
  assert (Z.of_nat (length X)
          ≤ (N - 1) * H * W * C + ((tH - 1) * TILE_WIDTH + (K + 14)) * W * C
            + Z.rem z0 tH * TILE_WIDTH * C + 0) as Hoff.
  { rewrite HXlen. unfold TILE_WIDTH in *.
    assert (0 ≤ W * C) by (apply Z.mul_nonneg_nonneg; lia).
    assert (H * (W * C) ≤ ((tH - 1) * 16 + (K + 14)) * (W * C))
      by (apply Z.mul_le_mono_nonneg_r; lia).
    assert (0 ≤ Z.rem z0 tH * 16 * C) by (apply Z.mul_nonneg_nonneg; lia).
    nia. }
  assert (∀ shmem : list F,
    Cuda.conv_forward_kernel_load_X (Dim3 (N - 1) 0 z0)
      (Dim3 0 ((K + 14) `mod` TILE_WIDTH) 0) X xdims wdims ydims 0 shmem
    = None) as HloadX.
  { intros shmem. unfold Cuda.conv_forward_kernel_load_X. cbv zeta.
    cbn [dx dy dz d0 d1 d2 d3 ydims wdims xdims]. fold tW tH. rewrite Hq.
    apply (for_fails_at _ _ ((tH - 1) * TILE_WIDTH + (K + 14))); [exact Hi|].
    intros shmem3.
    apply (for_fails_at _ _ (Z.rem z0 tH * TILE_WIDTH + 0)).
    { by rewrite Z.add_0_r at 1. }
    intros shmem4. rewrite rd_None; [done|].
    rewrite Z.add_0_r in Hoff. lia. }
  split_and!.
  - lia.
  - lia.
  - lia.
  - lia.
  - lia.
  - lia.
  - unfold TILE_WIDTH. lia.
  - unfold TILE_WIDTH. lia.
  - destruct (conv_forward_kernel_load_W_total (Dim3 (N - 1) 0 z0) Wt K C M 0
                (shared (Dim3 (N - 1) 0 z0)) HWt HK (Hshared _))
      as (shmem1 & Hsh & _); cbn [dy]; [lia..|].
    by exists shmem1.
  - exact Hi.
  - exact Hj.
  - unfold TILE_WIDTH. nia.
  - unfold TILE_WIDTH. nia.
  - exact Hrow.
  - exact Hoff.
  - exact HloadX.
  - unfold Cuda.conv_forward_kernel.
    apply (forall_idx_fails_at _ (Dim3 (N - 1) 0 z0)); cbn [dx dy dz];
      [lia..|].
    intros Y1. unfold Cuda.conv_forward_kernel_block. cbv zeta.
    rewrite (for_fails_at _ _ 0); [done|apply elem_of_range; simpl; lia|].
    intros [shmem acc]. unfold Cuda.conv_forward_kernel_phase.
    destruct (forall_idx _ _ shmem) as [shmem1|]; [|done].
    cbn [mbind option_bind].
    rewrite (forall_idx_fails_at _ (Dim3 0 ((K + 14) `mod` 16) 0)); [done|..].
    { unfold blockDim. cbn [dx]. unfold TILE_WIDTH. lia. }
    { unfold blockDim. cbn [dy]. unfold TILE_WIDTH. lia. }
    { unfold blockDim. cbn [dz]. lia. }
    intros shmem2. apply HloadX.
Qed.

Lemma conv_forward_kernel_reads_past_input_witness :
  let shared := λ _ : dim3, replicate 425 (b32_of_Z 9) in
  let X := replicate (Z.to_nat (1 * 12 * 12 * 1)) (b32_of_Z 1) in
  let Wt := replicate (Z.to_nat (5 * 5 * 1 * 1)) (b32_of_Z 1) in
  let Y := replicate (Z.to_nat (1 * 8 * 8 * 1)) (b32_of_Z 0) in
  let xdims := Dims4 1 12 12 1 in
  let wdims := Dims4 5 5 1 1 in
  let ydims := Dims4 1 (12 - 5 + 1) (12 - 5 + 1) 1 in
  let tW := (12 - 5 + 1 - 1) ÷ TILE_WIDTH + 1 in
  let tH := (12 - 5 + 1 - 1) ÷ TILE_WIDTH + 1 in
  let X_tile_width := TILE_WIDTH + 5 - 1 in
  let blockDim := Dim3 TILE_WIDTH TILE_WIDTH 1 in
  let blockIdx := Dim3 (1 - 1) 0 ((tH - 1) * tW) in
  let threadIdx := Dim3 0 ((5 + 14) `mod` TILE_WIDTH) 0 in
  let h_base := (dz blockIdx ÷ tW) * TILE_WIDTH in
  let w_base := Z.rem (dz blockIdx) tH * TILE_WIDTH in
  let i := h_base + (5 + 14) in
  let j := w_base in
  (0 ≤ dx blockIdx < 1 ∧ 0 ≤ dy blockIdx < 1 ∧ 0 ≤ dz blockIdx < tW * tH
   ∧ 0 ≤ dy threadIdx < TILE_WIDTH)
  ∧ (∃ shmem,
       forall_idx blockDim
         (λ th, Cuda.conv_forward_kernel_load_W blockIdx th Wt wdims 0)
         (shared blockIdx)
       = Some shmem)
  ∧ i ∈ range_by (h_base + dy threadIdx) (h_base + X_tile_width) TILE_WIDTH
  ∧ j ∈ range_by (w_base + dx threadIdx) (w_base + X_tile_width) TILE_WIDTH
  ∧ 0 ≤ X_tile_width * (i - h_base) + (j - w_base)
      < X_tile_width * X_tile_width
  ∧ 12 ≤ i
  ∧ Z.of_nat (length X) ≤ (1 - 1) * 12 * 12 * 1 + i * 12 * 1 + j * 1 + 0
  ∧ (∀ shmem,
       Cuda.conv_forward_kernel_load_X blockIdx threadIdx X xdims wdims ydims
         0 shmem = None)
  ∧ Cuda.conv_forward_kernel (Dim3 1 1 (tW * tH)) blockDim shared X Wt Y
      xdims wdims ydims
    = None.
Proof.
  intros shared X Wt Y.
  apply (conv_forward_kernel_reads_past_input (F:=binary32) 1 12 12 1 5 1
           shared X Wt Y); (by vm_compute) || lia.
Defined.





Section TiledConvolution.
Context {F : Type} `{!Scalar F}.
Variables (X Wt : list F) (N H W C K M t : Z).
Hypothesis HX : shaped4 X (Dims4 N H W C).
Hypothesis HW : shaped4 Wt (Dims4 K K C M).
Hypothesis HK : 1 ≤ K ≤ TILE_WIDTH.
Hypothesis Ht : 1 ≤ t.
Hypothesis HHo : H - K + 1 = t * TILE_WIDTH.
Hypothesis HWo : W - K + 1 = t * TILE_WIDTH.

Local Abbreviation cxd := (Dims4 N H W C).
Local Abbreviation cwd := (Dims4 K K C M).
Local Abbreviation cyd := (Dims4 N (H - K + 1) (W - K + 1) M).
Local Abbreviation cblk := (Dim3 TILE_WIDTH TILE_WIDTH 1).
Local Abbreviation Tw := (TILE_WIDTH + K - 1).




Local Abbreviation ctile := (Z.to_nat (TILE_WIDTH * TILE_WIDTH)).






End TiledConvolution.




(** ** Batches too large for [int] *)

(** X21: from the batch size 116509 on, the number of elements of the
    output of the first convolution, [N·24·24·32], exceeds [INT_MAX].  The
    [int] product that either variant of [forward_operation] passes to
    [calloc] or [malloc] then overflows, which is undefined behaviour,
    whatever the buffers hold. *)
Theorem forward_operation_batch_overflow {F : Type} `{!Scalar F}
    (junk : Z → F) (shared : Z → dim3 → list F * list F)
    (N : Z) (x conv1 conv2 fc1 fc2 : list F) (out : list Z) :
  0 ≤ N ≤ INT_MAX → INT_MAX < N * 24 * 24 * 32 →
  Sequential.forward_scores N x conv1 conv2 fc1 fc2 = None
  ∧ Sequential.forward_operation N x conv1 conv2 fc1 fc2 out = None
  ∧ Cuda.forward_scores junk shared N x conv1 conv2 fc1 fc2 = None
  ∧ Cuda.forward_operation junk shared N x conv1 conv2 fc1 fc2 out = None.
Proof.
  intros HN Hbig.
  assert (int_prod [N; 24; 24; 32] = None) as Hseq.
  { unfold int_prod. apply int_prod_from_None; [done| |done].
    repeat constructor; lia. }
  assert (int_prod [N; 24; 24; 32; 1] = None) as Hcuda.
  { unfold int_prod. apply int_prod_from_None; [done| |simpl; lia].
    repeat constructor; lia. }
  assert (Sequential.forward_scores N x conv1 conv2 fc1 fc2 = None) as Hs.
  { unfold Sequential.forward_scores. cbv zeta.
    change (forward_shapes (xdims N) conv1dims conv2dims fc1dims fc2dims)
      with (Shapes (Dims4 N 24 24 32) (Dims4 N 12 12 32) (Dims4 N 8 8 64)
              (Dims4 N 4 4 64) (Dims2 N 1024) (Dims2 N 128) (Dims2 N 10)).
    cbn [adims d0 d1 d2 d3]. by rewrite Hseq. }
  assert (Cuda.forward_scores junk shared N x conv1 conv2 fc1 fc2 = None)
    as Hc.
  { unfold Cuda.forward_scores. cbv zeta.
    change (forward_shapes (xdims N) conv1dims conv2dims fc1dims fc2dims)
      with (Shapes (Dims4 N 24 24 32) (Dims4 N 12 12 32) (Dims4 N 8 8 64)
              (Dims4 N 4 4 64) (Dims2 N 1024) (Dims2 N 128) (Dims2 N 10)).
    cbn [adims d0 d1 d2 d3 xdims NUM_CHANNELS]. unfold NUM_CHANNELS.
    by rewrite Hcuda. }
  unfold Sequential.forward_operation, Cuda.forward_operation.
  rewrite Hs, Hc. done.
Qed.

Lemma forward_operation_batch_overflow_witness :
  let junk := λ _ : Z, b32_of_Z 7 in
  let shared := λ (_ : Z) (_ : dim3),
    (replicate 256 (b32_of_Z 9), replicate 256 (b32_of_Z 9)) in
  let conv1 := replicate (Z.to_nat (5 * 5 * 32)) (b32_of_Z 1) in
  Sequential.forward_scores 116509 [] conv1 [] [] [] = None
  ∧ Sequential.forward_operation 116509 [] conv1 [] [] [] [7] = None
  ∧ Cuda.forward_scores junk shared 116509 [] conv1 [] [] [] = None
  ∧ Cuda.forward_operation junk shared 116509 [] conv1 [] [] [] [7] = None.
Proof.
  intros junk shared conv1.
  apply (forward_operation_batch_overflow (F:=binary32) junk shared 116509
           [] conv1 [] [] [] [7]); unfold INT_MAX; lia.
Defined.
